(** * OCR_Based_Machine_Translation: text fitting and overlay rendering

    A shallow embedding of [app.py]: [load_font], [wrap_text_and_find_font]
    and the overlay rendering loop.

    Conventions of the embedding.
    - Python [int] is [Z]; Python [float] is an IEEE binary64 value, written
      with the Standard Library's [spec_float] and its rounding operations
      ([SFmul], [SFdiv], ...), so [size * 1.2] and [int(box_height / ...)]
      round exactly as they do in CPython.
    - Where an [int] meets a [float] (arithmetic or comparison) it goes
      through [of_int]; this is exact below 2^53, which covers every pixel
      coordinate.  [int()] of an infinity or NaN (an [OverflowError] /
      [ValueError] in Python, reachable only for boxes taller than 2^1024
      pixels) is given the value 0.
    - [str] is [string]; each character is a code point below 256.
    - PIL is outside the repository: the text metrics ([draw.textlength],
      [font.getbbox]) and the effect of [draw.text] on a pixel are variables
      of the model; [draw.rectangle] and [draw.text] are recorded as calls
      on the canvas and applied to the pixels in the order they were made.
    - Streamlit messages ([st.error], [st.warning]) are recorded in the same
      event log as the canvas calls.
    - Where a proof needs the order of two floats, a float is read as the
      real number it stands for ([F2R]); the real numbers of the Standard
      Library serve that purpose only, the program is computed on
      [spec_float]. *)

From Stdlib Require Import ZArith List Bool String Ascii Lia Sorted Reals Lra.
From Stdlib Require Import Floats.SpecFloat.
Import ListNotations.
Open Scope string_scope.
Open Scope list_scope.
Open Scope Z_scope.

(** ** Python numbers *)

Module PyFloat.

Definition float := spec_float.

Definition prec : Z := 53.
Definition emax : Z := 1024.

(** [float(z)] for an [int] [z]: round to nearest, ties to even. *)
Definition of_int (z : Z) : float := binary_normalize prec emax z 0 false.

Definition fadd : float -> float -> float := SFadd prec emax.
Definition fsub : float -> float -> float := SFsub prec emax.
Definition fmul : float -> float -> float := SFmul prec emax.
Definition fdiv : float -> float -> float := SFdiv prec emax.

(** [a <= b] and [a > b]; both are [false] when an operand is NaN. *)
Definition fle (a b : float) : bool :=
  match SFcompare a b with
  | Some Lt | Some Eq => true
  | _ => false
  end.

Definition fgt (a b : float) : bool :=
  match SFcompare a b with
  | Some Gt => true
  | _ => false
  end.

(** The literal [1.2], i.e. 0x1.3333333333333p+0. *)
Definition f1_2 : float := S754_finite false 5404319552844595 (-52).

(** [int(f)]: truncation toward zero. *)
Definition int_of_float (f : float) : Z :=
  match f with
  | S754_finite s m e =>
      let a := match e with
               | Z0 => Zpos m
               | Zpos _ => Zpos m * 2 ^ e
               | Zneg p => Zpos m / 2 ^ Zpos p
               end in
      if s then - a else a
  | _ => 0
  end.

(** [f] is not a negative number. *)
Definition sign_ok (f : float) : Prop :=
  match f with
  | S754_finite s _ _ => s = false
  | _ => True
  end.

(** [max(a, b)] as Python evaluates it: [b] only when [b > a]. *)
Definition pymax (a b : float) : float := if fgt b a then b else a.

End PyFloat.
Import PyFloat.

(** ** The value of a float *)

(** [2 ^ e] as a real number, for any integer [e]. *)
Definition pow2 (e : Z) : R := powerRZ 2 e.

(** The real number a finite float stands for; 0 for the others. *)
Definition F2R (f : float) : R :=
  match f with
  | S754_finite s m e =>
      ((if s then -1 else 1) * IZR (Zpos m) * pow2 e)%R
  | _ => 0%R
  end.

(** [f] is a number that is at least [x]; [+inf] is. *)
Definition at_least (f : float) (x : R) : Prop :=
  match f with
  | S754_nan => False
  | S754_infinity s => s = false
  | _ => (x <= F2R f)%R
  end.

(** [f] is a finite number that is at most [x]. *)
Definition at_most (f : float) (x : R) : Prop :=
  match f with
  | S754_nan | S754_infinity _ => False
  | _ => (F2R f <= x)%R
  end.


(** [f] is in canonical form, when finite. *)
Definition valid (f : float) : Prop := valid_binary prec emax f = true.

(** [f] is a zero, a positive number or [+inf]. *)
Definition nonneg_float (f : float) : Prop :=
  match f with
  | S754_zero _ => True
  | S754_infinity s => s = false
  | S754_nan => False
  | S754_finite s _ _ => s = false
  end.

(** [x] is a non-negative binary64 number: [K * 2 ^ c] with [K] below
    [2 ^ 53] and [c] an exponent of the format. *)
Definition representable (x : R) : Prop :=
  exists K c, 0 <= K < 2 ^ 53 /\ -1074 <= c <= 970 /\ x = (IZR K * pow2 c)%R.

(** The state after [k] shifts of the mantissa [M]: the quotient by [2 ^ k],
    and bits that are set only when something was lost. *)
Definition shifted (M : Z) (inexact : bool) (k : Z) (mrs : shr_record) : Prop :=
  shr_m mrs = M / 2 ^ k
  /\ (shr_r mrs || shr_s mrs = true -> inexact = true \/ M mod 2 ^ k <> 0).

(** ** Strings: [str.split()] and truthiness *)

(** [str.isspace] on the code points below 256: TAB..CR, FS..US, space,
    NEL (0x85) and NBSP (0xA0). *)
Definition is_space (c : ascii) : bool :=
  let n := N_of_ascii c in
  ((9 <=? n) && (n <=? 13) || (28 <=? n) && (n <=? 32)
   || (n =? 133) || (n =? 160))%N.

(** Truth value of a [str]: non-empty. *)
Definition truthy (s : string) : bool :=
  match s with
  | EmptyString => false
  | String _ _ => true
  end.

(** [split_from cur s]: the words of [s], [cur] being the characters of the
    word under way. *)
Fixpoint split_from (cur s : string) : list string :=
  match s with
  | EmptyString => if truthy cur then [cur] else []
  | String c rest =>
      if is_space c
      then (if truthy cur then cur :: split_from "" rest
            else split_from "" rest)
      else split_from (cur ++ String c "")%string rest
  end.

(** [text.split()]: maximal runs of non-whitespace characters. *)
Definition split (text : string) : list string := split_from "" text.

(** No character of [s] is whitespace. *)
Fixpoint no_space (s : string) : bool :=
  match s with
  | EmptyString => true
  | String c rest => negb (is_space c) && no_space rest
  end.

(** [s.lstrip()], [s.rstrip()] and [s.strip()]. *)
Fixpoint lstrip (s : string) : string :=
  match s with
  | EmptyString => ""
  | String c rest => if is_space c then lstrip rest else s
  end.

Fixpoint rstrip (s : string) : string :=
  match s with
  | EmptyString => ""
  | String c rest =>
      match rstrip rest with
      | EmptyString => if is_space c then "" else String c ""
      | kept => String c kept
      end
  end.

Definition strip (s : string) : string := rstrip (lstrip s).

(** [name.split('.')[0]]: the characters before the first full stop. *)
Fixpoint before_dot (name : string) : string :=
  match name with
  | EmptyString => ""
  | String c rest => if Ascii.eqb c "." then "" else String c (before_dot rest)
  end.

(** Line 341: [f"translated_{uploaded_file.name.split('.')[0]}.jpg"]. *)
Definition download_name (name : string) : string :=
  ("translated_" ++ before_dot name ++ ".jpg")%string.

(** [names.index(x)], [None] being the [ValueError] of a missing [x]. *)
Fixpoint index_of (x : string) (names : list string) : option nat :=
  match names with
  | [] => None
  | n :: rest =>
      if String.eqb n x then Some O
      else option_map S (index_of x rest)
  end.

(** [x in names]. *)
Definition member (x : string) (names : list string) : bool :=
  existsb (String.eqb x) names.

(** Line 174: the default of the target-language select box. *)
Definition default_target_lang (translator_lang_names : list string) : string :=
  if member "Spanish" translator_lang_names then "Spanish"
  else match translator_lang_names with
       | first :: _ => first
       | [] => "English"
       end.

(** Line 179: the [index] argument of the select box. *)
Definition default_target_index (translator_lang_names : list string) : nat :=
  let default := default_target_lang translator_lang_names in
  if member default translator_lang_names
  then match index_of default translator_lang_names with
       | Some i => i
       | None => O
       end
  else O.

(** [range(start, stop, step)]; the empty list stands for the [ValueError]
    of a zero step, which the program never passes. *)
Definition py_range (start stop step : Z) : list Z :=
  if step <? 0 then
    map (fun i => start + Z.of_nat i * step)
        (seq 0 (Z.to_nat ((start - stop - step - 1) / (- step))))
  else if 0 <? step then
    map (fun i => start + Z.of_nat i * step)
        (seq 0 (Z.to_nat ((stop - start + step - 1) / step)))
  else [].

(** ** Fonts, messages and canvas calls *)

(** What [load_font] can return: [ImageFont.truetype(FONT_PATH, size)] or
    [ImageFont.load_default()]. *)
Inductive font : Type :=
  | TrueType (size : Z)
  | DefaultFont.

(** The state of the file [FONT_PATH] during a run. *)
Inductive font_resource : Type :=
  | FontPresent     (* the file exists and [truetype] reads it *)
  | FontMissing     (* [os.path.exists] is false *)
  | FontCorrupt.    (* [truetype] raises [OSError] *)

(** The messages of the rendering stage. *)
Inductive message : Type :=
  | FontNotFound                                   (* st.error, line 59 *)
  | FontLoadError                                  (* st.warning, line 63 *)
  | InvalidBBox                                    (* st.warning, line 260 *)
  | ZeroArea (x1 y1 x2 y2 : Z)                     (* st.warning, line 280 *)
  | CouldNotFit (text : string) (x1 y1 x2 y2 : Z). (* st.warning, line 322 *)

(** The two calls the program makes on the [ImageDraw] object. *)
Inductive canvas_call : Type :=
  | Rectangle (x1 y1 x2 y2 : Z)   (* fill white, outline lightgray *)
  | Text (x y : float) (line : string) (f : font).  (* fill black *)

(** A coordinate as the OCR engine hands it over: [Num z] when [int(p)]
    gives [z], [NotNum] when [int(p)] raises [ValueError] or [TypeError],
    the two exceptions line 259 catches. A point whose conversion raises
    anything else (the [OverflowError] of an infinite float, the
    [IndexError] of a point with fewer than two coordinates) has no
    counterpart here: those runs of line 258 are outside the model. *)
Inductive coord : Type :=
  | Num (z : Z)
  | NotNum.

Record block : Type := mkBlock {
  blk_bbox : list (coord * coord);
  blk_text : string
}.

Inductive event : Type :=
  | Warn (m : message)
  | Draw (c : canvas_call).

(** A computation that returns a value and appends events to the log. *)
Definition W (A : Type) : Type := (A * list event)%type.

Definition ret {A : Type} (a : A) : W A := (a, []).

Definition bind {A B : Type} (m : W A) (k : A -> W B) : W B :=
  let '(a, l1) := m in
  let '(b, l2) := k a in
  (b, l1 ++ l2).

Definition emit (e : event) : W unit := (tt, [e]).

Notation "x <- m ;; k" := (bind m (fun x => k))
  (at level 61, m at next level, right associativity).
Notation "m ;;; k" := (bind m (fun _ => k))
  (at level 61, right associativity).

Definition is_font_warning (e : event) : bool :=
  match e with
  | Warn FontNotFound | Warn FontLoadError => true
  | _ => false
  end.

Definition font_warnings (log : list event) : nat :=
  List.length (filter is_font_warning log).

(** A rectangle within an image of the given size, of positive area; any
    other event. *)
Definition rectangle_ok (img_width img_height : Z) (e : event) : Prop :=
  match e with
  | Draw (Rectangle x1 y1 x2 y2) =>
      0 <= x1 < x2 /\ x2 <= img_width /\ 0 <= y1 < y2 /\ y2 <= img_height
  | _ => True
  end.

(** The image under the [ImageDraw] object. *)
Inductive colour : Type :=
  | White
  | LightGray
  | Black
  | RGB (r g b : Z).

Record canvas : Type := mkCanvas {
  width : Z;
  height : Z;
  pixel : Z -> Z -> colour
}.

(** ** Text metrics used in the examples

    A fixed-pitch font: every character of a TrueType font of size [s]
    advances [s / 2] pixels and its capital A is [3 s / 4] pixels tall; the
    default bitmap font advances 6 pixels and is 8 pixels tall. *)

Definition mono_advance (f : font) : Z :=
  match f with
  | TrueType size => size / 2
  | DefaultFont => 6
  end.

Definition mono_textlength (s : string) (f : font) : float :=
  of_int (Z.of_nat (String.length s) * mono_advance f).

Definition mono_getbbox_A (f : font) : option (Z * Z) :=
  match f with
  | TrueType size => Some (0, 3 * size / 4)
  | DefaultFont => Some (0, 8)
  end.

(** A face whose capital A is two pixels tall at every size. *)
Definition tiny_getbbox_A (f : font) : option (Z * Z) := Some (0, 2).

(** ** Example data *)

Definition long_word : string := "supercalifragilisticexpialidocious".

(** A 50 x 30 box at (10, 10) in a 100 x 100 image. *)
Definition small_box : list (coord * coord) :=
  [(Num 10, Num 10); (Num 60, Num 10); (Num 60, Num 40); (Num 10, Num 40)].

Definition six_lines : list string := ["a"; "b"; "c"; "d"; "e"; "f"].

(** 2 * 1.2, the line height of the face of [tiny_getbbox_A]. *)
Definition tiny_line_height : float := fmul (of_int 2) f1_2.

(** A rasteriser that inks the whole cell of every character: the pixels
    from [(x, y)] to [length line * advance] to the right and 8 below. *)
Definition solid_text_pixel (f : font) (line : string) (tx ty : float)
    (x y : Z) (c : colour) : colour :=
  let left := int_of_float tx in
  let top := int_of_float ty in
  if (left <=? x) && (x <? left + Z.of_nat (String.length line) * mono_advance f)
     && (top <=? y) && (y <? top + 8)
  then Black else c.

(** Black ink at half coverage over a colour, as on the anti-aliased edge
    of a glyph: each channel halves. *)
Definition half_ink (c : colour) : colour :=
  match c with
  | White => RGB 127 127 127
  | LightGray => RGB 105 105 105
  | Black => Black
  | RGB r g b => RGB (r / 2) (g / 2) (b / 2)
  end.

(** A rasteriser that blends: it inks the same cells as [solid_text_pixel],
    at half coverage, over whatever colour lies underneath. *)
Definition blend_text_pixel (f : font) (line : string) (tx ty : float)
    (x y : Z) (c : colour) : colour :=
  let left := int_of_float tx in
  let top := int_of_float ty in
  if (left <=? x) && (x <? left + Z.of_nat (String.length line) * mono_advance f)
     && (top <=? y) && (y <? top + 8)
  then half_ink c else c.

(** A white image of 100 x 100 pixels. *)
Definition blank_canvas : canvas := mkCanvas 100 100 (fun _ _ => White).

(** ** The program *)

Section Model.

(** The font file on disk, and PIL's metrics. *)
Variable font_file : font_resource.
(** [draw.textlength(line, font=font)]. *)
Variable textlength : string -> font -> float.
(** Top and bottom of [font.getbbox("A")]; [None] when the font object has
    no [getbbox] ([AttributeError]). *)
Variable getbbox_A : font -> option (Z * Z).
(** [.size] of the font [ImageFont.load_default()] returns; [None] when that
    object has no such attribute. *)
Variable default_font_size : option Z.

(** [load_font] (lines 54-64). *)
Definition load_font (size : Z) : W font :=
  match font_file with
  | FontMissing => emit (Warn FontNotFound) ;;; ret DefaultFont
  | FontCorrupt => emit (Warn FontLoadError) ;;; ret DefaultFont
  | FontPresent => ret (TrueType size)
  end.

(** The font object [load_font size] returns. *)
Definition font_for (size : Z) : font := fst (load_font size).

(** The messages of loading a font for each of [sizes] in turn. *)
Definition load_log (sizes : list Z) : list event :=
  flat_map (fun s => snd (load_font s)) sizes.

(** [current_line + (" " if current_line else "") + word] *)
Definition join_word (current_line word : string) : string :=
  (current_line ++ (if truthy current_line then " " else "") ++ word)%string.

(** [size * 1.2] and [int(box_height / line_height_approx)] (lines 84-85). *)
Definition line_height_approx (size : Z) : float := fmul (of_int size) f1_2.

Definition max_lines_at (size box_height : Z) : Z :=
  int_of_float (fdiv (of_int box_height) (line_height_approx size)).

(** How the word loop of lines 89-108 ended.  The program keeps no such
    value: both [break]s leave [current_line = ""]; the tag only records
    which one ran. *)
Inductive loop_exit : Type :=
  | Exhausted      (* the [for] ran out of words *)
  | HeightBreak    (* line 100 *)
  | WidthBreak.    (* line 108 *)

Inductive failure : Type :=
  | WidthFailure
  | HeightFailure.

Section Wrap.

Variable text : string.
Variables box_width box_height : Z.

(** The [for word in words] loop of lines 89-108, from the state
    [(wrapped_lines, current_line)]. *)
Fixpoint word_loop (f : font) (max_lines : Z) (words wrapped_lines : list string)
    (current_line : string) : list string * string * loop_exit :=
  match words with
  | [] => (wrapped_lines, current_line, Exhausted)
  | word :: rest =>
      let test_line := join_word current_line word in
      if fle (textlength test_line f) (of_int box_width)
      then word_loop f max_lines rest wrapped_lines test_line
      else
        let wrapped_lines := wrapped_lines ++ [current_line] in
        if max_lines <=? Z.of_nat (List.length wrapped_lines)
        then (wrapped_lines, "", HeightBreak)
        else if fgt (textlength word f) (of_int box_width)
        then (wrapped_lines, "", WidthBreak)
        else word_loop f max_lines rest wrapped_lines word
  end.

(** One pass of the body of [for size in range(40, 11, -2)] (lines 73-119)
    with [font] already loaded: [Some lines] when the body returns
    [font, lines], [None] when control reaches the next size. *)
Definition wrap_at_size (f : font) (size : Z) : option (list string) :=
  match split text with
  | [] => Some []
  | words =>
      let max_lines := max_lines_at size box_height in
      if max_lines =? 0 then None
      else
        let '(wrapped_lines, current_line, _) :=
          word_loop f max_lines words [] "" in
        if truthy current_line
        then
          let wrapped_lines := wrapped_lines ++ [current_line] in
          if Z.of_nat (List.length wrapped_lines) >? max_lines then None
          else Some wrapped_lines
        else None
  end.

(** The reason the comments of lines 86, 99, 107 and 115 give for a pass
    that does not return. *)
Definition failure_at (f : font) (size : Z) : option failure :=
  match split text with
  | [] => None
  | words =>
      let max_lines := max_lines_at size box_height in
      if max_lines =? 0 then Some HeightFailure
      else
        match word_loop f max_lines words [] "" with
        | (_, _, HeightBreak) => Some HeightFailure
        | (_, _, WidthBreak) => Some WidthFailure
        | (wrapped_lines, current_line, Exhausted) =>
            if truthy current_line
               && (Z.of_nat (List.length (wrapped_lines ++ [current_line]))
                   >? max_lines)
            then Some HeightFailure
            else None
        end
  end.

(** A line that is non-empty and measures within the box in font [f]. *)
Definition good_line (f : font) (line : string) : Prop :=
  truthy line = true /\ fle (textlength line f) (of_int box_width) = true.

(** A line that is empty, or fits the width, or is a word of the text
    standing alone. *)
Definition fallback_line_ok (f : font) (line : string) : Prop :=
  line = "" \/ fle (textlength line f) (of_int box_width) = true
  \/ In line (split text).

(** The [for word in words] loop of the fallback pass (lines 133-146). *)
Fixpoint fallback_loop (f : font) (max_lines : Z) (words wrapped_lines : list string)
    (current_line : string) : list string * string :=
  match words with
  | [] => (wrapped_lines, current_line)
  | word :: rest =>
      let test_line := join_word current_line word in
      if fle (textlength test_line f) (of_int box_width)
      then fallback_loop f max_lines rest wrapped_lines test_line
      else if Z.of_nat (List.length wrapped_lines) <? max_lines
      then fallback_loop f max_lines rest (wrapped_lines ++ [current_line]) word
      else (wrapped_lines, "")
  end.

(** [max_lines] of the fallback pass (lines 123-124). *)
Definition fallback_max_lines : Z :=
  let line_height_approx := fmul (of_int 12) f1_2 in
  if fgt line_height_approx (of_int 0)
  then int_of_float (fdiv (of_int box_height) line_height_approx)
  else 0.

(** The lines the fallback pass returns (lines 125-152), [f] being
    [load_font(12)]. *)
Definition fallback_lines (f : font) : list string :=
  let max_lines := fallback_max_lines in
  match split text with
  | [] => []
  | words =>
      if max_lines =? 0 then []
      else
        let '(wrapped_lines, current_line) :=
          fallback_loop f max_lines words [] "" in
        let wrapped_lines :=
          if truthy current_line
             && (Z.of_nat (List.length wrapped_lines) <? max_lines)
          then wrapped_lines ++ [current_line]
          else wrapped_lines in
        match wrapped_lines with
        | [] => []
        | _ => wrapped_lines
        end
  end.

(** The pass at [size] with the font [load_font] gives for it. *)
Definition pass_at (size : Z) : option (list string) :=
  wrap_at_size (font_for size) size.

(** The [for size in ...] loop over the sizes still to try. *)
Fixpoint size_loop (sizes : list Z) : W (option (font * list string)) :=
  match sizes with
  | [] => ret None
  | size :: rest =>
      f <- load_font size ;;
      match wrap_at_size f size with
      | Some lines => ret (Some (f, lines))
      | None => size_loop rest
      end
  end.

Definition candidate_sizes : list Z := py_range 40 11 (-2).

(** [wrap_text_and_find_font(draw, text, box_width, box_height)]
    (lines 66-152); [draw] is used for [textlength] only. *)
Definition wrap_text_and_find_font : W (font * list string) :=
  found <- size_loop candidate_sizes ;;
  match found with
  | Some result => ret result
  | None => f <- load_font 12 ;; ret (f, fallback_lines f)
  end.

End Wrap.

(** ** The overlay rendering loop (lines 252-322) *)

(** Line 235: [translated_text if translated_text else " "]. *)
Definition block_text (translated_text : string) : string :=
  if truthy translated_text then translated_text else " ".

(** [[(int(p[0]), int(p[1])) for p in bbox]]; [None] when a conversion
    raises the [ValueError] or [TypeError] that line 259 catches. *)
Fixpoint int_points (bbox : list (coord * coord)) : option (list (Z * Z)) :=
  match bbox with
  | [] => Some []
  | (Num x, Num y) :: rest =>
      match int_points rest with
      | Some pts => Some ((x, y) :: pts)
      | None => None
      end
  | _ :: _ => None
  end.

(** [min(xs)] and [max(xs)]; [None] is the [ValueError] of an empty list. *)
Definition list_min (xs : list Z) : option Z :=
  match xs with
  | [] => None
  | x :: rest => Some (fold_left Z.min rest x)
  end.

Definition list_max (xs : list Z) : option Z :=
  match xs with
  | [] => None
  | x :: rest => Some (fold_left Z.max rest x)
  end.

(** [final_font.size]. *)
Definition font_size (f : font) : option Z :=
  match f with
  | TrueType size => Some size
  | DefaultFont => default_font_size
  end.

(** Lines 294-302; [None] when the [AttributeError] of a missing [.size]
    escapes. *)
Definition line_height_of (f : font) : option float :=
  let from_size := option_map (fun s => fmul (of_int s) f1_2) (font_size f) in
  match getbbox_A f with
  | Some (top, bottom) =>
      let line_height := fmul (of_int (bottom - top)) f1_2 in
      if fle line_height (of_int 0) then from_size else Some line_height
  | None => from_size
  end.

Section Layout.

Variable f : font.
Variables x1 y1 x2 y2 : Z.
Variable line_height : float.

Let box_width := x2 - x1.
Let box_height := y2 - y1.

(** Lines 311-313: where a line starts horizontally. *)
Definition draw_x_of (line : string) : float :=
  let line_width := textlength line f in
  let start_x :=
    fadd (of_int x1) (fdiv (fsub (of_int box_width) line_width) (of_int 2)) in
  pymax (of_int x1) start_x.

(** The [for line in lines_to_draw] loop (lines 309-320). *)
Fixpoint draw_lines (lines : list string) (current_y : float) : W unit :=
  match lines with
  | [] => ret tt
  | line :: rest =>
      let draw_x := draw_x_of line in
      (if fle (fadd current_y line_height) (of_int (y2 + 5))
       then emit (Draw (Text draw_x current_y line f))
       else ret tt) ;;;
      let current_y := fadd current_y line_height in
      if fgt current_y (of_int y2) then ret tt
      else draw_lines rest current_y
  end.

(** Lines 305-307: where the block starts vertically. *)
Definition start_y_of (lines : list string) : float :=
  let total_text_height := fmul (of_int (Z.of_nat (List.length lines))) line_height in
  let start_y :=
    fadd (of_int y1) (fdiv (fsub (of_int box_height) total_text_height) (of_int 2)) in
  pymax (of_int y1) start_y.

(** Lines 305-320 for a non-empty [lines_to_draw]. *)
Definition layout (lines : list string) : W unit :=
  draw_lines lines (start_y_of lines).

(** [current_y] on reaching line [i], counting from 0, when the loop gets
    that far: [start] advanced [i] times by [line_height]. *)
Fixpoint y_at (start : float) (i : nat) : float :=
  match i with
  | O => start
  | S j => fadd (y_at start j) line_height
  end.

(** The loop reaches line [i]: no advance after an earlier line has taken
    [current_y] past [y2] (the [break] of line 320). *)
Definition reached (start : float) (i : nat) : bool :=
  forallb (fun j => negb (fgt (y_at start (S j)) (of_int y2))) (seq 0 i).

(** The instruction for line [i] of a block that starts at [start]: issued
    when the loop reaches the line and the line ends within five pixels
    of [y2]. *)
Definition instruction_at (start : float) (entry : nat * string) : list event :=
  let '(i, line) := entry in
  if fle (fadd (y_at start i) line_height) (of_int (y2 + 5)) && reached start i
  then [Draw (Text (draw_x_of line) (y_at start i) line f)]
  else [].

(** The draw instructions in the specification's words (section 4.4): every
    line in turn, [current_y] advancing by [line_height], a line left out
    exactly when [current_y + line_height] exceeds [y2 + 5]. *)
Fixpoint spec_instructions (lines : list string) (current_y : float) : list event :=
  match lines with
  | [] => []
  | line :: rest =>
      (if fgt (fadd current_y line_height) (of_int (y2 + 5)) then []
       else [Draw (Text (draw_x_of line) current_y line f)])
      ++ spec_instructions rest (fadd current_y line_height)
  end.

End Layout.

(** Lines 267-274: the axis-aligned box around the points, clamped to the
    image; [None] is the [ValueError] of [min] on an empty list. *)
Definition clamped_box (img_width img_height : Z) (bbox : list (Z * Z))
    : option (Z * Z * Z * Z) :=
  let x_coords := map fst bbox in
  let y_coords := map snd bbox in
  match list_min x_coords, list_min y_coords,
        list_max x_coords, list_max y_coords with
  | Some x1, Some y1, Some x2, Some y2 =>
      Some (Z.max 0 x1, Z.max 0 y1, Z.min img_width x2, Z.min img_height y2)
  | _, _, _, _ => None
  end.

(** What became of a block, or of the run: [Raised] is an exception that
    leaves the rendering loop for the handler of line 346. *)
Inductive status : Type :=
  | Completed
  | Raised.

(** The body of [for block in translated_blocks] (lines 253-322) on an image
    of [img_width] by [img_height] pixels. *)
Definition process_block (img_width img_height : Z) (b : block) : W status :=
  match int_points (blk_bbox b) with
  | None => emit (Warn InvalidBBox) ;;; ret Completed
  | Some bbox =>
      match clamped_box img_width img_height bbox with
      | Some (x1, y1, x2, y2) =>
          let box_width := x2 - x1 in
          let box_height := y2 - y1 in
          if (box_width <=? 0) || (box_height <=? 0)
          then emit (Warn (ZeroArea x1 y1 x2 y2)) ;;; ret Completed
          else
            emit (Draw (Rectangle x1 y1 x2 y2)) ;;;
            r <- wrap_text_and_find_font (blk_text b) box_width box_height ;;
            let '(final_font, lines_to_draw) := r in
            match lines_to_draw with
            | [] =>
                emit (Warn (CouldNotFit (blk_text b) x1 y1 x2 y2)) ;;;
                ret Completed
            | _ =>
                match line_height_of final_font with
                | None => ret Raised
                | Some line_height =>
                    layout final_font x1 y1 x2 y2 line_height lines_to_draw ;;;
                    ret Completed
                end
            end
      | None => ret Raised
      end
  end.

(** [for block in translated_blocks: ...]: blocks in input order, until one
    raises. *)
Fixpoint render_blocks (img_width img_height : Z) (blocks : list block)
    : W status :=
  match blocks with
  | [] => ret Completed
  | b :: rest =>
      s <- process_block img_width img_height b ;;
      match s with
      | Completed => render_blocks img_width img_height rest
      | Raised => ret Raised
      end
  end.

(** ** The canvas *)

(** What [draw.text((x, y), line, font=f, fill="black")] makes of the
    colour of the pixel [(px, py)]. *)
Variable text_pixel :
  font -> string -> float -> float -> Z -> Z -> colour -> colour.

(** [draw.rectangle([(x1, y1), (x2, y2)], fill="white", outline="lightgray")]
    at the pixel [(x, y)]: the rectangle includes its corners. *)
Definition rectangle_pixel (x1 y1 x2 y2 x y : Z) (c : colour) : colour :=
  if (x1 <=? x) && (x <=? x2) && (y1 <=? y) && (y <=? y2)
  then (if (x =? x1) || (x =? x2) || (y =? y1) || (y =? y2)
        then LightGray else White)
  else c.

(** What a call makes of the colour [c] of the pixel [(x, y)]. *)
Definition call_pixel (call : canvas_call) (x y : Z) (c : colour) : colour :=
  match call with
  | Rectangle x1 y1 x2 y2 => rectangle_pixel x1 y1 x2 y2 x y c
  | Text tx ty line f => text_pixel f line tx ty x y c
  end.

Definition in_image (img : canvas) (x y : Z) : bool :=
  (0 <=? x) && (x <? width img) && (0 <=? y) && (y <? height img).

(** A call changes pixels of the image only, and not its size. *)
Definition apply_call (img : canvas) (call : canvas_call) : canvas :=
  {| width := width img;
     height := height img;
     pixel := fun x y =>
       if in_image img x y then call_pixel call x y (pixel img x y)
       else pixel img x y |}.

Definition apply_event (img : canvas) (e : event) : canvas :=
  match e with
  | Draw call => apply_call img call
  | Warn _ => img
  end.

(** The colour the calls of a log leave at [(x, y)], over the colour [c]. *)
Definition written (x y : Z) (log : list event) (c : colour) : colour :=
  fold_left
    (fun c e =>
       match e with
       | Draw call => call_pixel call x y c
       | Warn _ => c
       end)
    log c.

(** The canvas after the calls of a log, in order. *)
Definition paint (img : canvas) (log : list event) : canvas :=
  fold_left apply_event log img.

(** The rendering stage on [img]: the image after the loop of lines
    252-322 over [blocks]. *)
Definition overlay (blocks : list block) (img : canvas) : canvas :=
  paint img (snd (render_blocks (width img) (height img) blocks)).

(** A change of colour that does not look at the colour it changes: it
    leaves every colour as it is, or sets one colour. *)
Definition overwrites (g : colour -> colour) : Prop :=
  (forall c, g c = c) \/ (exists k, forall c, g c = k).

(** [draw.text] paints opaquely: at a pixel it either leaves the colour as
    it is or sets it, whatever lay underneath (no blending). *)
Definition text_opaque : Prop :=
  forall f line tx ty x y, overwrites (text_pixel f line tx ty x y).

(** The pixels [draw.rectangle] fills: the test of [rectangle_pixel]. *)
Definition covers (x1 y1 x2 y2 x y : Z) : bool :=
  (x1 <=? x) && (x <=? x2) && (y1 <=? y) && (y <=? y2).

(** The text of a block stays in its box: no [draw.text] call of the block
    changes a pixel outside the rectangle the block has erased. *)
Definition text_in_box (img_width img_height : Z) (b : block) : Prop :=
  forall x1 y1 x2 y2 tx ty line f x y c,
    In (Draw (Rectangle x1 y1 x2 y2)) (snd (process_block img_width img_height b)) ->
    In (Draw (Text tx ty line f)) (snd (process_block img_width img_height b)) ->
    covers x1 y1 x2 y2 x y = false ->
    text_pixel f line tx ty x y c = c.

(** ** The translation loop (lines 222-243) *)

(** What [translator.translate(cleaned_text)] does: return a string, return
    [None], or raise. *)
Inductive translation : Type :=
  | Translated (s : string)
  | ReturnedNone
  | TranslationRaised.

Inductive translation_message : Type :=
  | NoTranslation (block_number : nat) (text : string)   (* st.warning, line 234 *)
  | TranslationErrors (error_count : nat).                (* st.warning, line 242 *)

Section TranslationLoop.

Variable translate : string -> translation.

(** The body of [for i, (bbox, text) in enumerate(ocr_results)]: the block
    appended, the warnings, and whether the [except] branch ran. *)
Definition translate_block (i : nat) (result : list (coord * coord) * string)
    : block * list translation_message * bool :=
  let '(bbox, text) := result in
  let cleaned_text := strip text in
  if truthy cleaned_text then
    match translate cleaned_text with
    | Translated translated_text =>
        (mkBlock bbox (block_text translated_text), [], false)
    | ReturnedNone =>
        (mkBlock bbox (block_text cleaned_text), [NoTranslation (i + 1) text], false)
    | TranslationRaised => (mkBlock bbox text, [], true)
    end
  else (mkBlock bbox (block_text ""), [], false).

(** Whether the translation of one OCR result raises. *)
Definition raises (result : list (coord * coord) * string) : bool :=
  truthy (strip (snd result))
  && match translate (strip (snd result)) with
     | TranslationRaised => true
     | _ => false
     end.

(** The loop from block [i] on: the blocks, the warnings and the number of
    errors counted. *)
Fixpoint translate_loop (i : nat) (ocr_results : list (list (coord * coord) * string))
    : list block * list translation_message * nat :=
  match ocr_results with
  | [] => ([], [], O)
  | result :: rest =>
      let '(b, warnings, raised) := translate_block i result in
      let '(blocks, log, error_count) := translate_loop (S i) rest in
      (b :: blocks, warnings ++ log, if raised then S error_count else error_count)
  end.

(** Lines 222-242: [translated_blocks] and the warnings shown. *)
Definition translate_blocks (ocr_results : list (list (coord * coord) * string))
    : list block * list translation_message :=
  let '(blocks, log, error_count) := translate_loop O ocr_results in
  (blocks,
   log ++ (if (0 <? error_count)%nat then [TranslationErrors error_count] else [])).

End TranslationLoop.

(** ** Floating-point facts *)

Section FloatFacts.

Lemma iter_pos_preserves (A : Type) (P : A -> Prop) (g : A -> A) :
  (forall a, P a -> P (g a)) ->
  forall p a, P a -> P (iter_pos g p a).
Proof.
  intros Hg. induction p as [p IH | p IH | ]; intros a Ha; simpl.
  - apply IH, IH, Hg, Ha.
  - apply IH, IH, Ha.
  - apply Hg, Ha.
Qed.

Lemma shr_1_nonneg (mrs : shr_record) :
  0 <= shr_m mrs -> 0 <= shr_m (shr_1 mrs).
Proof.
  destruct mrs as [m r s]. simpl.
  destruct m as [ | [p | p | ] | [p | p | ]]; simpl; lia.
Qed.

Lemma shr_nonneg (mrs : shr_record) (e n : Z) :
  0 <= shr_m mrs -> 0 <= shr_m (fst (shr mrs e n)).
Proof.
  intros H. destruct n; simpl; try exact H.
  apply (iter_pos_preserves _ (fun r => 0 <= shr_m r)); [apply shr_1_nonneg | exact H].
Qed.

Lemma shr_fexp_nonneg (m e : Z) (l : location) :
  0 <= m -> 0 <= shr_m (fst (shr_fexp prec emax m e l)).
Proof.
  intros H. unfold shr_fexp. apply shr_nonneg.
  destruct l as [ | [ | | ]]; exact H.
Qed.

Lemma round_nearest_even_nonneg (m : Z) (l : location) :
  0 <= m -> 0 <= round_nearest_even m l.
Proof.
  intros H. destruct l as [ | [ | | ]]; simpl; try destruct (Z.even m); lia.
Qed.

(** A rounded value carries the sign it was given, or is NaN; it is not NaN
    when the mantissa is non-negative. *)
Lemma binary_round_aux_cases (sx : bool) (mx ex : Z) (lx : location) :
  let r := binary_round_aux prec emax sx mx ex lx in
  r = S754_zero sx \/ r = S754_infinity sx
  \/ (exists m e, r = S754_finite sx m e)
  \/ (r = S754_nan /\ mx < 0).
Proof.
  unfold binary_round_aux.
  destruct (shr_fexp prec emax mx ex lx) as [mrs1 e1] eqn:E1.
  destruct (shr_fexp prec emax _ e1 loc_Exact) as [mrs2 e2] eqn:E2.
  destruct (shr_m mrs2) as [ | m | m] eqn:E3; cbv zeta.
  - now left.
  - destruct (e2 <=? emax - prec); [right; right; left; eauto | right; now left].
  - right; right; right. split; [reflexivity | ].
    destruct (Z.ltb_spec mx 0) as [Hlt | Hge]; [exact Hlt | exfalso].
    pose proof (shr_fexp_nonneg mx ex lx Hge) as H1. rewrite E1 in H1. simpl in H1.
    pose proof (round_nearest_even_nonneg _ (loc_of_shr_record mrs1) H1) as H2.
    pose proof (shr_fexp_nonneg _ e1 loc_Exact H2) as H3.
    rewrite E2 in H3. simpl in H3. lia.
Qed.

(** [float(z)] is never NaN, and is not negative when [z] is not. *)
Lemma of_int_not_nan (z : Z) : of_int z <> S754_nan.
Proof.
  unfold of_int, binary_normalize, binary_round.
  destruct z as [ | p | p]; [discriminate | | ];
    destruct (shl_align p 0 _) as [mz ez];
    match goal with
    | |- binary_round_aux _ _ ?s ?m ?e ?l <> _ =>
        destruct (binary_round_aux_cases s m e l)
          as [H | [H | [[m' [e' H]] | [_ H]]]]
    end; simpl in *; try lia; rewrite H; discriminate.
Qed.

Lemma of_int_sign_ok (z : Z) : 0 <= z -> sign_ok (of_int z).
Proof.
  intros Hz. unfold of_int, binary_normalize, binary_round.
  destruct z as [ | p | p]; [exact I | | lia].
  destruct (shl_align p 0 _) as [mz ez].
  destruct (binary_round_aux_cases false (Zpos mz) ez loc_Exact)
    as [H | [H | [[m' [e' H]] | [H _]]]]; simpl in H; rewrite H; simpl; auto.
Qed.

Lemma fmul_sign_ok (a b : float) : sign_ok a -> sign_ok b -> sign_ok (fmul a b).
Proof.
  intros Ha Hb. destruct a as [sa | sa | | sa ma ea], b as [sb | sb | | sb mb eb];
    simpl in *; auto.
  subst. simpl.
  destruct (binary_round_aux_cases false (Zpos (ma * mb)) (ea + eb) loc_Exact)
    as [H | [H | [[m' [e' H]] | [H _]]]]; simpl in H; rewrite H; simpl; auto.
Qed.

Lemma fdiv_sign_ok (a b : float) : sign_ok a -> sign_ok b -> sign_ok (fdiv a b).
Proof.
  intros Ha Hb. destruct a as [sa | sa | | sa ma ea], b as [sb | sb | | sb mb eb];
    simpl in *; auto.
  subst. simpl.
  destruct (SFdiv_core_binary prec emax (Zpos ma) ea (Zpos mb) eb) as [[mz ez] lz].
  destruct (binary_round_aux_cases false mz ez lz)
    as [H | [H | [[m' [e' H]] | [H _]]]]; simpl in H; rewrite H; simpl; auto.
Qed.

Lemma int_of_float_nonneg (a : float) : sign_ok a -> 0 <= int_of_float a.
Proof.
  destruct a as [s | s | | s m e]; unfold int_of_float, sign_ok; try lia.
  intros ->. destruct e as [ | p | p].
  - lia.
  - apply Z.mul_nonneg_nonneg; [lia | apply Z.pow_nonneg; lia].
  - apply Z.div_pos; [lia | apply Z.pow_pos_nonneg; lia].
Qed.

(** On numbers, [a <= b] fails exactly when [a > b] holds. *)
Lemma fle_false_fgt (a b : float) :
  a <> S754_nan -> b <> S754_nan -> fle a b = false -> fgt a b = true.
Proof.
  unfold fle, fgt. intros Ha Hb.
  destruct (SFcompare a b) as [[ | | ] | ] eqn:E; try discriminate; [reflexivity | ].
  exfalso. destruct a, b; simpl in E; try discriminate; congruence.
Qed.

Lemma fgt_false_fle (a b : float) :
  a <> S754_nan -> b <> S754_nan -> fgt a b = false -> fle a b = true.
Proof.
  unfold fle, fgt. intros Ha Hb.
  destruct (SFcompare a b) as [[ | | ] | ] eqn:E; try discriminate; try reflexivity.
  exfalso. destruct a, b; simpl in E; try discriminate; congruence.
Qed.

Lemma fgt_true_fle (a b : float) : fgt a b = true -> fle a b = false.
Proof.
  unfold fle, fgt. destruct (SFcompare a b) as [[ | | ] | ]; congruence.
Qed.

End FloatFacts.

(** ** Floats as real numbers *)

Section FloatValues.

(** ** Powers of two and digit counts *)

Lemma pow2_pos (e : Z) : (0 < pow2 e)%R.
Proof. apply powerRZ_lt. lra. Qed.

Lemma pow2_add (a b : Z) : pow2 (a + b) = (pow2 a * pow2 b)%R.
Proof. apply powerRZ_add. lra. Qed.

Lemma pow2_IZR (e : Z) : 0 <= e -> pow2 e = IZR (2 ^ e).
Proof.
  intros He. unfold pow2. destruct e as [ | p | p]; [reflexivity | | lia].
  symmetry. apply (Zpower_pos_powerRZ 2 p).
Qed.

Lemma pow2_0 : pow2 0 = 1%R.
Proof. reflexivity. Qed.

Lemma pow2_1 : pow2 1 = 2%R.
Proof. unfold pow2. simpl. lra. Qed.

Lemma pow2_opp (e : Z) : (pow2 (- e) * pow2 e = 1)%R.
Proof. rewrite <- pow2_add. replace (- e + e) with 0 by lia. reflexivity. Qed.

Lemma pow2_le (a b : Z) : a <= b -> (pow2 a <= pow2 b)%R.
Proof.
  intros H. replace b with ((b - a) + a) by lia. rewrite pow2_add.
  rewrite (pow2_IZR (b - a)) by lia.
  assert (H1 : (1 <= IZR (2 ^ (b - a)))%R).
  { apply IZR_le. assert (0 < 2 ^ (b - a)) by (apply Z.pow_pos_nonneg; lia). lia. }
  pose proof (pow2_pos a). nra.
Qed.

Lemma pow2_lt (a b : Z) : a < b -> (pow2 a < pow2 b)%R.
Proof.
  intros H. replace b with ((b - a) + a) by lia. rewrite pow2_add.
  rewrite (pow2_IZR (b - a)) by lia.
  assert (H1 : (2 <= IZR (2 ^ (b - a)))%R).
  { apply IZR_le. replace (b - a) with (Z.succ (b - a - 1)) by lia.
    rewrite Z.pow_succ_r by lia.
    assert (0 < 2 ^ (b - a - 1)) by (apply Z.pow_pos_nonneg; lia). lia. }
  pose proof (pow2_pos a). nra.
Qed.

(** An inequality between floats' values with one exponent, on integers. *)
Lemma IZR_pow2_le (a b : Z) (e : Z) :
  a <= b <-> (IZR a * pow2 e <= IZR b * pow2 e)%R.
Proof.
  pose proof (pow2_pos e). split; intros H1.
  - apply IZR_le in H1. nra.
  - apply le_IZR. nra.
Qed.

Lemma IZR_pow2_lt (a b : Z) (e : Z) :
  a < b <-> (IZR a * pow2 e < IZR b * pow2 e)%R.
Proof.
  pose proof (pow2_pos e). split; intros H1.
  - apply IZR_lt in H1. nra.
  - apply lt_IZR. nra.
Qed.

Lemma digits2_pos_bounds (p : positive) :
  2 ^ (Zpos (digits2_pos p) - 1) <= Zpos p < 2 ^ Zpos (digits2_pos p).
Proof.
  induction p as [p IH | p IH | ]; cbn [digits2_pos]; [ | | simpl; lia].
  - rewrite Pos2Z.inj_succ.
    replace (Z.succ (Zpos (digits2_pos p)) - 1) with (Z.succ (Zpos (digits2_pos p) - 1)) by lia.
    rewrite !Z.pow_succ_r by lia. lia.
  - rewrite Pos2Z.inj_succ.
    replace (Z.succ (Zpos (digits2_pos p)) - 1) with (Z.succ (Zpos (digits2_pos p) - 1)) by lia.
    rewrite !Z.pow_succ_r by lia. lia.
Qed.

Lemma Zdigits2_bounds (m : Z) :
  0 < m -> 0 < Zdigits2 m /\ 2 ^ (Zdigits2 m - 1) <= m < 2 ^ Zdigits2 m.
Proof.
  destruct m as [ | p | p]; try lia. intros _. simpl.
  split; [lia | apply digits2_pos_bounds].
Qed.

Lemma Zdigits2_unique (m k : Z) :
  0 < m -> 2 ^ (k - 1) <= m < 2 ^ k -> Zdigits2 m = k.
Proof.
  intros Hm [Hlo Hhi]. destruct (Zdigits2_bounds m Hm) as (Hd & Hdlo & Hdhi).
  assert (Hk : 0 < k).
  { destruct (Z.ltb_spec 0 k) as [ | Hk0]; [assumption | exfalso].
    destruct (Z.eq_dec k 0) as [-> | Hne]; [simpl in Hhi; lia | ].
    rewrite Z.pow_neg_r in Hhi by lia. lia. }
  destruct (Z.lt_trichotomy (Zdigits2 m) k) as [Hlt | [Heq | Hgt]]; [ | exact Heq | ].
  - assert (2 ^ Zdigits2 m <= 2 ^ (k - 1)) by (apply Z.pow_le_mono_r; lia). lia.
  - assert (2 ^ k <= 2 ^ (Zdigits2 m - 1)) by (apply Z.pow_le_mono_r; lia). lia.
Qed.

(** A lower bound on a number bounds its digit count. *)
Lemma Zdigits2_ge (m k : Z) : 0 <= k -> 2 ^ k <= m -> k + 1 <= Zdigits2 m.
Proof.
  intros Hk Hm.
  assert (0 < m) by (assert (0 < 2 ^ k) by (apply Z.pow_pos_nonneg; lia); lia).
  destruct (Zdigits2_bounds m H) as (Hd & Hdlo & Hdhi).
  destruct (Z.leb_spec (k + 1) (Zdigits2 m)); [assumption | ].
  assert (2 ^ Zdigits2 m <= 2 ^ k) by (apply Z.pow_le_mono_r; lia). lia.
Qed.

Lemma Zdigits2_le (m k : Z) : 0 <= k -> 0 <= m < 2 ^ k -> Zdigits2 m <= k.
Proof.
  intros Hk Hm. destruct (Z.eq_dec m 0) as [-> | Hne]; [simpl; lia | ].
  destruct (Zdigits2_bounds m ltac:(lia)) as (Hd & Hdlo & Hdhi).
  destruct (Z.leb_spec (Zdigits2 m) k); [assumption | ].
  assert (2 ^ k <= 2 ^ (Zdigits2 m - 1)) by (apply Z.pow_le_mono_r; lia). lia.
Qed.

(** ** Shifting a mantissa right *)

Lemma iter_pos_count (A : Type) (Q : Z -> A -> Prop) (g : A -> A) :
  (forall k a, 0 <= k -> Q k a -> Q (k + 1) (g a)) ->
  forall p k a, 0 <= k -> Q k a -> Q (k + Zpos p) (iter_pos g p a).
Proof.
  intros Hg. induction p as [p IH | p IH | ]; intros k a Hk Ha; cbn [iter_pos].
  - replace (k + Zpos p~1) with (k + 1 + Zpos p + Zpos p) by lia.
    apply IH; [lia | ]. apply IH; [lia | ]. now apply Hg.
  - replace (k + Zpos p~0) with (k + Zpos p + Zpos p) by lia.
    apply IH; [lia | ]. now apply IH.
  - now apply Hg.
Qed.

Lemma shr_1_spec (mrs : shr_record) :
  0 <= shr_m mrs ->
  shr_m (shr_1 mrs) = shr_m mrs / 2
  /\ shr_r (shr_1 mrs) = Z.odd (shr_m mrs)
  /\ shr_s (shr_1 mrs) = shr_r mrs || shr_s mrs.
Proof.
  destruct mrs as [m r s]. cbn [shr_m shr_r shr_s shr_1]. intros Hm.
  destruct m as [ | [p | p | ] | p]; cbn [shr_m shr_r shr_s]; try lia.
  - now rewrite Z.div_0_l.
  - repeat split. rewrite Pos2Z.inj_xI.
    apply (Z.div_unique _ 2 _ 1); lia.
  - repeat split. rewrite Pos2Z.inj_xO.
    apply (Z.div_unique _ 2 _ 0); lia.
  - repeat split.
Qed.

Lemma shifted_step (M : Z) (inexact : bool) (k : Z) (mrs : shr_record) :
  0 <= M -> 0 <= k ->
  shifted M inexact k mrs -> shifted M inexact (k + 1) (shr_1 mrs).
Proof.
  intros HM Hk [Hm Hbits].
  assert (Hpos : 0 < 2 ^ k) by (apply Z.pow_pos_nonneg; lia).
  assert (Hnn : 0 <= shr_m mrs) by (rewrite Hm; apply Z.div_pos; lia).
  destruct (shr_1_spec mrs Hnn) as (H1 & H2 & H3).
  assert (Hpow : 2 ^ (k + 1) = 2 ^ k * 2) by (rewrite Z.pow_add_r by lia; reflexivity).
  split.
  - rewrite H1, Hm, Hpow, Z.div_div by lia. reflexivity.
  - rewrite H2, H3. intros Hset.
    destruct inexact; [now left | right]. intros Hdiv.
    apply Z.mod_divide in Hdiv; [ | lia]. destruct Hdiv as [q Hq].
    assert (Hq' : M = (q * 2) * 2 ^ k) by (rewrite Hq, Hpow; ring).
    apply orb_true_iff in Hset. destruct Hset as [Hodd | Hold].
    + rewrite Hm, Hq', Z.div_mul in Hodd by lia.
      rewrite Z.mul_comm, Z.odd_mul in Hodd. discriminate.
    + destruct (Hbits Hold) as [Hf | Hne]; [discriminate | ].
      apply Hne. rewrite Hq'. apply Z.mod_mul. lia.
Qed.

Lemma loc_of_shr_record_exact (mrs : shr_record) :
  loc_of_shr_record mrs = loc_Exact <-> shr_r mrs || shr_s mrs = false.
Proof. destruct mrs as [m [ | ] [ | ]]; simpl; split; congruence. Qed.

(** [shr_fexp] on a non-negative mantissa: the number of bits dropped is
    the excess of the canonical exponent over [e]. *)
Lemma shr_fexp_spec (m e : Z) (l : location) :
  0 <= m ->
  let k := Z.max 0 (fexp prec emax (Zdigits2 m + e) - e) in
  let '(mrs, e') := shr_fexp prec emax m e l in
  e' = e + k
  /\ shr_m mrs = m / 2 ^ k
  /\ (loc_of_shr_record mrs <> loc_Exact -> l <> loc_Exact \/ m mod 2 ^ k <> 0).
Proof.
  intros Hm k. unfold shr_fexp, shr.
  set (inexact := match l with loc_Exact => false | _ => true end).
  assert (H0 : shifted m inexact 0 (shr_record_of_loc m l)).
  { split.
    - rewrite Z.pow_0_r, Z.div_1_r. now destruct l as [ | [ | | ]].
    - intros Hset. left. subst inexact.
      destruct l as [ | [ | | ]]; simpl in *; congruence. }
  assert (Hfin : forall mrs, shifted m inexact k mrs ->
            shr_m mrs = m / 2 ^ k
            /\ (loc_of_shr_record mrs <> loc_Exact -> l <> loc_Exact \/ m mod 2 ^ k <> 0)).
  { intros mrs [H1 H2]. split; [exact H1 | ]. intros Hloc.
    destruct (shr_r mrs || shr_s mrs) eqn:E.
    - destruct (H2 eq_refl) as [Hi | Hd]; [left | now right].
      subst inexact. destruct l; congruence.
    - exfalso. apply Hloc. now apply loc_of_shr_record_exact. }
  subst k. destruct (fexp prec emax (Zdigits2 m + e) - e) as [ | p | p] eqn:En.
  - split; [lia | ]. now apply Hfin.
  - split; [lia | ]. apply Hfin. replace (Z.max 0 (Zpos p)) with (0 + Zpos p) by lia.
    apply (iter_pos_count _ (shifted m inexact)); [ | lia | exact H0].
    intros k a Hk. now apply shifted_step.
  - split; [lia | ]. now apply Hfin.
Qed.

(** ** Rounding to nearest *)

Lemma fexp_unfold (e : Z) : fexp prec emax e = Z.max (e - 53) (-1074).
Proof. reflexivity. Qed.

Lemma Zdigits2_div (m k : Z) :
  0 <= k -> 0 < m / 2 ^ k -> Zdigits2 (m / 2 ^ k) = Zdigits2 m - k.
Proof.
  intros Hk Hq.
  assert (Hpos : 0 < 2 ^ k) by (apply Z.pow_pos_nonneg; lia).
  assert (Hm : 0 < m).
  { destruct (Z.ltb_spec 0 m); [assumption | exfalso].
    assert (m / 2 ^ k <= 0); [ | lia].
    apply Z.div_le_upper_bound; lia. }
  destruct (Zdigits2_bounds m Hm) as (Hd & Hlo & Hhi).
  assert (Hge : 2 ^ k <= m).
  { destruct (Z.leb_spec (2 ^ k) m); [assumption | exfalso].
    rewrite Z.div_small in Hq by lia. lia. }
  assert (Hdk : k < Zdigits2 m).
  { destruct (Z.ltb_spec k (Zdigits2 m)); [assumption | exfalso].
    assert (2 ^ Zdigits2 m <= 2 ^ k) by (apply Z.pow_le_mono_r; lia). lia. }
  apply Zdigits2_unique; [exact Hq | ]. split.
  - apply Z.div_le_lower_bound; [lia | ].
    rewrite <- Z.pow_add_r by lia. replace (k + (Zdigits2 m - k - 1)) with (Zdigits2 m - 1) by lia.
    exact Hlo.
  - apply Z.div_lt_upper_bound; [lia | ].
    rewrite <- Z.pow_add_r by lia. replace (k + (Zdigits2 m - k)) with (Zdigits2 m) by lia.
    exact Hhi.
Qed.

(** After the first shift the mantissa is in canonical form. *)
Lemma first_shift_canonical (mx ex : Z) :
  0 <= mx -> ex <= fexp prec emax (Zdigits2 mx + ex) ->
  let e1 := fexp prec emax (Zdigits2 mx + ex) in
  let m1 := mx / 2 ^ (e1 - ex) in
  fexp prec emax (Zdigits2 m1 + e1) = e1 /\ (m1 = 0 -> e1 = -1074).
Proof.
  intros Hmx Hfit e1 m1.
  assert (Hpos : 0 < 2 ^ (e1 - ex)) by (apply Z.pow_pos_nonneg; lia).
  assert (Hm1 : 0 <= m1) by (apply Z.div_pos; lia).
  destruct (Z.eq_dec m1 0) as [H0 | Hne].
  - assert (He1 : e1 = -1074).
    { destruct (Z.eq_dec mx 0) as [-> | Hmx0].
      - subst e1. simpl Zdigits2 in *. rewrite fexp_unfold in *. lia.
      - destruct (Zdigits2_bounds mx ltac:(lia)) as (Hd & Hlo & Hhi).
        assert (Hlt : mx < 2 ^ (e1 - ex)).
        { destruct (Z.ltb_spec mx (2 ^ (e1 - ex))); [assumption | exfalso].
          assert (1 <= m1); [ | lia].
          apply Z.div_le_lower_bound; lia. }
        assert (Hd' : Zdigits2 mx - 1 < e1 - ex).
        { destruct (Z.ltb_spec (Zdigits2 mx - 1) (e1 - ex)); [assumption | exfalso].
          assert (2 ^ (e1 - ex) <= 2 ^ (Zdigits2 mx - 1)) by (apply Z.pow_le_mono_r; lia).
          lia. }
        subst e1. rewrite fexp_unfold in *. lia. }
    split; [ | intros _; exact He1].
    rewrite H0. simpl Zdigits2. rewrite fexp_unfold. lia.
  - split; [ | lia]. unfold m1. rewrite Zdigits2_div by (fold m1; lia).
    replace (Zdigits2 mx - (e1 - ex) + e1) with (Zdigits2 mx + ex) by lia. reflexivity.
Qed.

(** The second shift, after rounding: at most one bit, and none is lost. *)
Lemma second_shift (m1 e1 m2 : Z) :
  0 <= m1 ->
  fexp prec emax (Zdigits2 m1 + e1) = e1 -> (m1 = 0 -> e1 = -1074) ->
  m1 <= m2 <= m1 + 1 ->
  let k2 := Z.max 0 (fexp prec emax (Zdigits2 m2 + e1) - e1) in
  let m3 := m2 / 2 ^ k2 in
  (IZR m3 * pow2 (e1 + k2) = IZR m2 * pow2 e1)%R
  /\ 0 <= k2 <= 1
  /\ (0 < m3 -> fexp prec emax (Zdigits2 m3 + (e1 + k2)) = e1 + k2)
  /\ (0 < m2 -> 0 < m3) /\ 0 <= m3.
Proof.
  intros Hm1 Hcan Hzero Hm2 k2 m3.
  assert (Hkeep : k2 = 0 ->
            (IZR m3 * pow2 (e1 + k2) = IZR m2 * pow2 e1)%R
            /\ 0 <= k2 <= 1
            /\ (0 < m3 -> fexp prec emax (Zdigits2 m3 + (e1 + k2)) = e1 + k2)
            /\ (0 < m2 -> 0 < m3) /\ 0 <= m3).
  { intros Hk. assert (Hm3 : m3 = m2) by (unfold m3; rewrite Hk; simpl; apply Z.div_1_r).
    rewrite Hm3, Hk, Z.add_0_r. repeat split; try lia.
    intros Hpos. subst k2. rewrite fexp_unfold in *.
    assert (Hge : Zdigits2 m1 <= Zdigits2 m2).
    { destruct (Z.eq_dec m1 0) as [-> | Hne]; [ | ].
      - simpl. destruct (Zdigits2_bounds m2 Hpos); lia.
      - destruct (Zdigits2_bounds m1 ltac:(lia)) as (Hd & Hlo & Hhi).
        assert (Zdigits2 m1 - 1 + 1 <= Zdigits2 m2); [ | lia].
        apply Zdigits2_ge; lia. }
    lia. }
  destruct (Z.eq_dec m2 m1) as [-> | Hne].
  { apply Hkeep. subst k2. rewrite Hcan. lia. }
  assert (Hm2' : m2 = m1 + 1) by lia.
  destruct (Z.eq_dec m1 0) as [Hz | Hnz].
  { apply Hkeep. subst k2. rewrite Hm2', Hz. simpl Zdigits2.
    rewrite fexp_unfold, (Hzero Hz). lia. }
  destruct (Zdigits2_bounds m1 ltac:(lia)) as (Hd & Hlo & Hhi).
  destruct (Z.eq_dec m2 (2 ^ Zdigits2 m1)) as [Hpow | Hnp].
  2: { apply Hkeep. subst k2.
       rewrite (Zdigits2_unique m2 (Zdigits2 m1)) by lia. rewrite Hcan. lia. }
  assert (Hd2 : Zdigits2 m2 = Zdigits2 m1 + 1).
  { apply Zdigits2_unique; [lia | ].
    replace (Zdigits2 m1 + 1 - 1) with (Zdigits2 m1) by lia.
    rewrite Z.pow_add_r by lia. lia. }
  destruct (Z.eq_dec k2 0) as [Hk0 | Hk1]; [now apply Hkeep | ].
  assert (Hk : k2 = 1) by (subst k2; rewrite Hd2, fexp_unfold in *; lia).
  assert (Hm3 : m3 = 2 ^ (Zdigits2 m1 - 1)).
  { unfold m3. rewrite Hk, Hpow. replace (Zdigits2 m1) with ((Zdigits2 m1 - 1) + 1) at 1 by lia.
    rewrite Z.pow_add_r by lia. apply Z.div_mul. discriminate. }
  assert (Hm3pos : 0 < m3) by (rewrite Hm3; apply Z.pow_pos_nonneg; lia).
  rewrite Hk. repeat split; try lia.
  - rewrite pow2_add, pow2_1.
    rewrite Hpow, Hm3. replace (Zdigits2 m1) with ((Zdigits2 m1 - 1) + 1) at 2 by lia.
    rewrite Z.pow_add_r by lia. rewrite mult_IZR. simpl (2 ^ 1). lra.
  - intros _. rewrite (Zdigits2_unique m3 (Zdigits2 m1)).
    + subst k2. rewrite Hd2 in Hk. rewrite fexp_unfold in *. lia.
    + exact Hm3pos.
    + rewrite Hm3. split; [lia | ]. apply Z.pow_lt_mono_r; lia.
Qed.

Lemma round_nearest_even_cases (m : Z) (l : location) :
  m <= round_nearest_even m l <= m + 1
  /\ (round_nearest_even m l <> m -> l <> loc_Exact).
Proof.
  destruct l as [ | [ | | ]]; simpl; try destruct (Z.even m);
    (split; [lia | intros H; try lia; discriminate]).
Qed.

(** The result of [binary_round_aux] on a non-negative mantissa that needs
    no shift to the left: the mantissa is cut to the canonical exponent
    [e1], then kept or increased by one, and renormalised. *)
Lemma round_aux_shape (mx ex : Z) (lx : location) :
  0 <= mx -> ex <= fexp prec emax (Zdigits2 mx + ex) ->
  let e1 := fexp prec emax (Zdigits2 mx + ex) in
  let m1 := mx / 2 ^ (e1 - ex) in
  exists m2 m3 e3,
    m1 <= m2 <= m1 + 1
    /\ (m2 <> m1 -> lx <> loc_Exact \/ mx mod 2 ^ (e1 - ex) <> 0)
    /\ 0 <= m3 /\ (0 < m2 -> 0 < m3)
    /\ (IZR m3 * pow2 e3 = IZR m2 * pow2 e1)%R
    /\ e1 <= e3 <= e1 + 1
    /\ (0 < m3 -> fexp prec emax (Zdigits2 m3 + e3) = e3)
    /\ forall sx,
         binary_round_aux prec emax sx mx ex lx
         = match m3 with
           | Z0 => S754_zero sx
           | Zpos m => if e3 <=? emax - prec then S754_finite sx m e3
                       else S754_infinity sx
           | Zneg _ => S754_nan
           end.
Proof.
  intros Hmx Hfit e1 m1. unfold binary_round_aux.
  pose proof (shr_fexp_spec mx ex lx Hmx) as H1. cbv zeta in H1.
  destruct (shr_fexp prec emax mx ex lx) as [mrs1 e1'].
  destruct H1 as (He1 & Hm1 & Hloc1).
  fold e1 in He1, Hm1, Hloc1.
  replace (Z.max 0 (e1 - ex)) with (e1 - ex) in * by (subst e1; lia).
  assert (He1' : e1' = e1) by lia. clear He1. subst e1'. fold m1 in Hm1.
  destruct (first_shift_canonical mx ex Hmx Hfit) as [Hcan Hzero].
  fold e1 in Hcan, Hzero. fold m1 in Hcan, Hzero.
  assert (Hm1nn : 0 <= m1).
  { apply Z.div_pos; [lia | apply Z.pow_pos_nonneg; subst e1; lia]. }
  set (m2 := round_nearest_even (shr_m mrs1) (loc_of_shr_record mrs1)).
  destruct (round_nearest_even_cases (shr_m mrs1) (loc_of_shr_record mrs1))
    as [Hm2 Hm2loc]. fold m2 in Hm2, Hm2loc. rewrite Hm1 in Hm2, Hm2loc.
  pose proof (shr_fexp_spec m2 e1 loc_Exact ltac:(lia)) as H2. cbv zeta in H2.
  destruct (shr_fexp prec emax m2 e1 loc_Exact) as [mrs2 e3].
  destruct H2 as (He3 & Hm3 & _).
  destruct (second_shift m1 e1 m2 Hm1nn Hcan Hzero Hm2)
    as (Hval & Hk2 & Hcan3 & Hpos3 & Hnn3).
  exists m2, (shr_m mrs2), e3. rewrite Hm3, He3.
  split; [exact Hm2 | ]. split; [intros Hne; apply Hloc1; now apply Hm2loc | ].
  split; [exact Hnn3 | ]. split; [exact Hpos3 | ]. split; [exact Hval | ].
  split; [lia | ]. split; [exact Hcan3 | ].
  intros sx. revert Hnn3.
  destruct (m2 / 2 ^ _) as [ | p | p]; reflexivity.
Qed.

Lemma representable_int (K : Z) : 0 <= K < 2 ^ 53 -> representable (IZR K).
Proof.
  intros HK. exists K, 0. split; [exact HK | split; [lia | ]].
  rewrite pow2_0. ring.
Qed.

Lemma representable_half (K : Z) : 0 <= K < 2 ^ 53 -> representable (IZR K / 2).
Proof.
  intros HK. exists K, (-1). split; [exact HK | split; [lia | ]].
  pose proof (pow2_opp 1) as H. rewrite pow2_1 in H. simpl (- (1)) in H.
  assert (pow2 (-1) = / 2)%R by (apply Rmult_eq_reg_r with 2%R; [rewrite H | ]; lra).
  rewrite H0. reflexivity.
Qed.

(** The value of a rounded number against the numbers of the format:
    rounding to nearest never crosses one. [x] is the number rounded, which
    the mantissa [mx], the exponent [ex] and the location [lx] stand for. *)
Lemma round_aux_spec (mx ex : Z) (lx : location) (x : R) :
  0 <= mx -> ex <= fexp prec emax (Zdigits2 mx + ex) ->
  (IZR mx * pow2 ex <= x < IZR (mx + 1) * pow2 ex)%R ->
  (lx <> loc_Exact -> (IZR mx * pow2 ex < x)%R) ->
  let r := binary_round_aux prec emax false mx ex lx in
  valid r /\ nonneg_float r
  /\ forall B, representable B ->
       ((B <= x)%R -> at_least r B) /\ ((x <= B)%R -> at_most r B).
Proof.
  intros Hmx Hfit [Hlo Hhi] Hinexact r.
  destruct (round_aux_shape mx ex lx Hmx Hfit)
    as (m2 & m3 & e3 & Hm2 & Hup & Hm3 & Hpos3 & Hval & He3 & Hcan & Hr).
  cbv zeta in *. specialize (Hr false). fold r in Hr.
  set (e1 := fexp prec emax (Zdigits2 mx + ex)) in *.
  set (k := e1 - ex) in *. set (m1 := mx / 2 ^ k) in *.
  assert (Hk : 0 <= k) by (subst k; lia).
  assert (Hpk : 0 < 2 ^ k) by (apply Z.pow_pos_nonneg; lia).
  assert (He1 : pow2 e1 = (IZR (2 ^ k) * pow2 ex)%R).
  { replace e1 with (k + ex) by (subst k; lia). rewrite pow2_add, pow2_IZR by lia.
    reflexivity. }
  pose proof (pow2_pos ex) as Hpex. pose proof (pow2_pos e1) as Hpe1.
  assert (Hm1 : 0 <= m1) by (apply Z.div_pos; lia).
  assert (Hdiv1 : m1 * 2 ^ k <= mx).
  { rewrite Z.mul_comm. apply Z.mul_div_le. lia. }
  assert (Hdiv2 : mx + 1 <= (m1 + 1) * 2 ^ k).
  { pose proof (Z.mul_succ_div_gt mx (2 ^ k) Hpk). fold m1 in H. lia. }
  assert (R1 : (IZR m1 * pow2 e1 <= IZR mx * pow2 ex)%R).
  { rewrite He1. apply IZR_le in Hdiv1. rewrite mult_IZR in Hdiv1. nra. }
  assert (R2 : (IZR (mx + 1) * pow2 ex <= IZR (m1 + 1) * pow2 e1)%R).
  { rewrite He1. apply IZR_le in Hdiv2. rewrite mult_IZR in Hdiv2. nra. }
  assert (R3 : m2 <> m1 -> (IZR m1 * pow2 e1 < x)%R).
  { intros Hne. destruct (Hup Hne) as [Hl | Hmod].
    - specialize (Hinexact Hl). lra.
    - assert (m1 * 2 ^ k < mx).
      { pose proof (Z.div_mod mx (2 ^ k) ltac:(lia)) as Hdm. fold m1 in Hdm.
        pose proof (Z.mod_pos_bound mx (2 ^ k) Hpk). lia. }
      apply IZR_lt in H. rewrite mult_IZR in H. rewrite He1. nra. }
  (* above the smallest exponent the mantissa has 53 digits *)
  assert (Hbig : -1074 < e1 -> (pow2 (52 + e1) <= IZR m1 * pow2 e1)%R).
  { intros Hpos.
    assert (Hmx0 : mx <> 0).
    { intros ->. subst e1. simpl Zdigits2 in *. rewrite fexp_unfold in *. lia. }
    destruct (Zdigits2_bounds mx ltac:(lia)) as (Hd & Hdlo & Hdhi).
    assert (Hkd : k = Zdigits2 mx - 53) by (subst k e1; rewrite fexp_unfold in *; lia).
    assert (H52 : 2 ^ 52 <= m1).
    { apply Z.div_le_lower_bound; [lia | ].
      rewrite <- Z.pow_add_r by lia. replace (k + 52) with (Zdigits2 mx - 1) by lia.
      exact Hdlo. }
    rewrite pow2_add, (pow2_IZR 52) by lia. apply IZR_pow2_le. exact H52. }
  assert (Hm12 : (IZR m1 * pow2 e1 <= IZR m2 * pow2 e1)%R).
  { apply IZR_pow2_le. lia. }
  (* a number of the format with a larger exponent is on the grid of [e1] *)
  assert (Hgrid : forall K c, 0 <= K -> e1 <= c ->
            (IZR K * pow2 c = IZR (K * 2 ^ (c - e1)) * pow2 e1)%R).
  { intros K c HK Hc. rewrite mult_IZR, <- (pow2_IZR (c - e1)) by lia.
    rewrite Rmult_assoc, <- pow2_add. do 2 f_equal. lia. }
  assert (Hsmall : forall K c, 0 <= K < 2 ^ 53 -> c < e1 -> -1074 <= c ->
            (IZR K * pow2 c < IZR m1 * pow2 e1)%R).
  { intros K c HK Hc Hc'. specialize (Hbig ltac:(lia)).
    assert (H1 : (IZR K * pow2 c < pow2 (53 + c))%R).
    { rewrite pow2_add, (pow2_IZR 53) by lia. apply IZR_pow2_lt. lia. }
    assert (H2 : (pow2 (53 + c) <= pow2 (52 + e1))%R) by (apply pow2_le; lia).
    lra. }
  assert (Hlower : forall K c, 0 <= K < 2 ^ 53 -> -1074 <= c -> (IZR K * pow2 c <= x)%R ->
            (IZR K * pow2 c <= IZR m2 * pow2 e1)%R).
  { intros K c HK Hc HKx. destruct (Z.leb_spec e1 c) as [Hle | Hgt].
    - rewrite (Hgrid K c) in * by lia.
      assert (K * 2 ^ (c - e1) < m1 + 1) by (apply (IZR_pow2_lt _ _ e1); lra).
      assert (IZR (K * 2 ^ (c - e1)) * pow2 e1 <= IZR m1 * pow2 e1)%R
        by (apply IZR_pow2_le; lia).
      lra.
    - specialize (Hsmall K c HK Hgt Hc). lra. }
  assert (Hupper : forall K c, 0 <= K < 2 ^ 53 -> -1074 <= c -> (x <= IZR K * pow2 c)%R ->
            e1 <= c /\ (IZR m2 * pow2 e1 <= IZR K * pow2 c)%R).
  { intros K c HK Hc HKx.
    assert (Hle : e1 <= c).
    { destruct (Z.leb_spec e1 c) as [Hle | Hgt]; [exact Hle | exfalso].
      specialize (Hsmall K c HK Hgt Hc). lra. }
    split; [exact Hle | ].
    destruct (Z.eq_dec m2 m1) as [-> | Hne]; [lra | ].
    replace m2 with (m1 + 1) by lia. specialize (R3 Hne).
    rewrite (Hgrid K c) in * by lia.
    apply IZR_pow2_le.
    assert (m1 < K * 2 ^ (c - e1)) by (apply (IZR_pow2_lt _ _ e1); lra). lia. }
  rewrite Hr. destruct m3 as [ | p | p]; [ | | lia].
  - assert (m2 = 0) by lia. subst m2.
    split; [reflexivity | split; [exact I | ]].
    intros B (K & c & HK & Hc & ->). split; intros HKx; simpl.
    + specialize (Hlower K c HK ltac:(lia) HKx). lra.
    + destruct (Hupper K c HK ltac:(lia) HKx) as [_ H]. lra.
  - destruct (Z.leb_spec e3 (emax - prec)) as [Hle | Hgt].
    + assert (Hb : bounded prec emax p e3 = true).
      { unfold bounded, canonical_mantissa. apply andb_true_iff. split.
        - apply Z.eqb_eq. apply (Hcan ltac:(lia)).
        - now apply Z.leb_le. }
      split; [exact Hb | split; [reflexivity | ]].
      intros B (K & c & HK & Hc & ->). split; intros HKx; simpl.
      * specialize (Hlower K c HK ltac:(lia) HKx). lra.
      * destruct (Hupper K c HK ltac:(lia) HKx) as [_ H]. lra.
    + split; [reflexivity | split; [reflexivity | ]].
      intros B (K & c & HK & Hc & ->). split; intros HKx; simpl; [reflexivity | ].
      destruct (Hupper K c HK ltac:(lia) HKx) as [H _]. unfold emax, prec in Hgt. lia.
Qed.

(** ** Normalising an exact value *)

Lemma iter_xO (m d : positive) : Zpos (Pos.iter xO m d) = Zpos m * 2 ^ Zpos d.
Proof.
  induction d as [ | d IH] using Pos.peano_ind.
  - simpl. lia.
  - rewrite Pos.iter_succ, Pos2Z.inj_xO, IH, Pos2Z.inj_succ, Z.pow_succ_r by lia. ring.
Qed.

Lemma Zdigits2_shift (m s : Z) : 0 < m -> 0 <= s -> Zdigits2 (m * 2 ^ s) = Zdigits2 m + s.
Proof.
  intros Hm Hs. destruct (Zdigits2_bounds m Hm) as (Hd & Hlo & Hhi).
  assert (Hp : 0 < 2 ^ s) by (apply Z.pow_pos_nonneg; lia).
  apply Zdigits2_unique; [lia | ].
  replace (Zdigits2 m + s - 1) with ((Zdigits2 m - 1) + s) by lia.
  rewrite !Z.pow_add_r by lia. nia.
Qed.

(** Aligning a mantissa to a smaller exponent keeps the value. *)
Lemma shl_align_spec (mx : positive) (ex ex' : Z) :
  let '(mz, ez) := shl_align mx ex ex' in
  (IZR (Zpos mz) * pow2 ez = IZR (Zpos mx) * pow2 ex)%R
  /\ ez = Z.min ex ex'
  /\ Zpos mz = Zpos mx * 2 ^ (ex - ez).
Proof.
  unfold shl_align. destruct (ex' - ex) as [ | d | d] eqn:Ed.
  - split; [reflexivity | split; [lia | ]]. rewrite Z.sub_diag. simpl. lia.
  - split; [reflexivity | split; [lia | ]]. rewrite Z.sub_diag. simpl. lia.
  - assert (Hex : ex = Zpos d + ex') by lia.
    split; [ | split; [lia | ]].
    + rewrite iter_xO, mult_IZR, Hex, pow2_add, (pow2_IZR (Zpos d)) by lia. ring.
    + rewrite iter_xO. f_equal. f_equal. lia.
Qed.

(** Rounding the exact value [m * 2 ^ e]. *)
Lemma binary_round_spec (m : positive) (e : Z) :
  let r := binary_round prec emax false m e in
  valid r /\ nonneg_float r
  /\ forall B, representable B ->
       ((B <= IZR (Zpos m) * pow2 e)%R -> at_least r B)
       /\ ((IZR (Zpos m) * pow2 e <= B)%R -> at_most r B).
Proof.
  unfold binary_round.
  pose proof (shl_align_spec m e (fexp prec emax (Zpos (digits2_pos m) + e))) as H.
  destruct (shl_align m e _) as [mz ez]. destruct H as (Hval & Hez & Hmz).
  rewrite <- Hval. apply round_aux_spec.
  - lia.
  - rewrite Hmz, Zdigits2_shift by lia.
    change (Zdigits2 (Zpos m)) with (Zpos (digits2_pos m)).
    replace (Zpos (digits2_pos m) + (e - ez) + ez) with (Zpos (digits2_pos m) + e) by lia.
    lia.
  - split; [lra | ]. apply IZR_pow2_lt. lia.
  - congruence.
Qed.

(** [float(z)] against the numbers of the format; for an integer below
    [2 ^ 53] it is [z]. *)
Lemma of_int_spec (z : Z) :
  0 <= z ->
  valid (of_int z) /\ nonneg_float (of_int z)
  /\ forall B, representable B ->
       ((B <= IZR z)%R -> at_least (of_int z) B)
       /\ ((IZR z <= B)%R -> at_most (of_int z) B).
Proof.
  intros Hz. unfold of_int, binary_normalize. destruct z as [ | p | p]; [ | | lia].
  - split; [reflexivity | split; [exact I | ]]. intros B HB.
    split; intros H; simpl; exact H.
  - destruct (binary_round_spec p 0) as (Hv & Hn & Hb).
    split; [exact Hv | split; [exact Hn | ]]. intros B HB.
    destruct (Hb B HB) as [Hlo Hhi]. rewrite pow2_0, Rmult_1_r in Hlo, Hhi.
    split; assumption.
Qed.

Lemma of_int_exact (z : Z) :
  0 <= z < 2 ^ 53 ->
  valid (of_int z) /\ nonneg_float (of_int z)
  /\ at_least (of_int z) (IZR z) /\ at_most (of_int z) (IZR z).
Proof.
  intros Hz. destruct (of_int_spec z ltac:(lia)) as (Hv & Hn & Hb).
  destruct (Hb (IZR z) (representable_int z Hz)) as [Hlo Hhi].
  repeat split; auto; [apply Hlo | apply Hhi]; lra.
Qed.

(** ** Comparison *)

Lemma F2R_pos (m : positive) (e : Z) : (0 < F2R (S754_finite false m e))%R.
Proof.
  simpl. pose proof (pow2_pos e). assert (0 < IZR (Zpos m))%R by (apply IZR_lt; lia). nra.
Qed.

(** A canonical mantissa has at most 53 digits, and exactly 53 above the
    smallest exponent. *)
Lemma bounded_digits (m : positive) (e : Z) :
  bounded prec emax m e = true ->
  Zpos (digits2_pos m) <= 53 /\ (-1074 < e -> Zpos (digits2_pos m) = 53)
  /\ -1074 <= e.
Proof.
  unfold bounded, canonical_mantissa. intros H. apply andb_true_iff in H.
  destruct H as [H _]. apply Z.eqb_eq in H. rewrite fexp_unfold in H. lia.
Qed.

(** Of two canonical positive numbers, the one with the smaller exponent is
    the smaller. *)
Lemma canonical_exponent_lt (m1 m2 : positive) (e1 e2 : Z) :
  bounded prec emax m1 e1 = true -> bounded prec emax m2 e2 = true ->
  e1 < e2 ->
  (F2R (S754_finite false m1 e1) < F2R (S754_finite false m2 e2))%R.
Proof.
  intros H1 H2 Hlt. simpl.
  destruct (bounded_digits m1 e1 H1) as (Hd1 & _ & He1).
  destruct (bounded_digits m2 e2 H2) as (_ & Hd2 & _). specialize (Hd2 ltac:(lia)).
  pose proof (digits2_pos_bounds m1) as [_ Hhi1].
  pose proof (digits2_pos_bounds m2) as [Hlo2 _]. rewrite Hd2 in Hlo2.
  assert (Hm1 : Zpos m1 < 2 ^ 53).
  { assert (2 ^ Zpos (digits2_pos m1) <= 2 ^ 53) by (apply Z.pow_le_mono_r; lia). lia. }
  replace e2 with ((e2 - e1) + e1) by lia. rewrite pow2_add, (pow2_IZR (e2 - e1)) by lia.
  assert (Hp : 2 <= 2 ^ (e2 - e1)).
  { replace (e2 - e1) with (Z.succ (e2 - e1 - 1)) by lia. rewrite Z.pow_succ_r by lia.
    assert (0 < 2 ^ (e2 - e1 - 1)) by (apply Z.pow_pos_nonneg; lia). lia. }
  pose proof (pow2_pos e1).
  assert (Hz : Zpos m1 < Zpos m2 * 2 ^ (e2 - e1)) by (simpl in Hlo2; nia).
  apply IZR_lt in Hz. rewrite mult_IZR in Hz. nra.
Qed.

Lemma SFcompare_finite (m1 m2 : positive) (e1 e2 : Z) :
  bounded prec emax m1 e1 = true -> bounded prec emax m2 e2 = true ->
  let a := S754_finite false m1 e1 in
  let b := S754_finite false m2 e2 in
  ((F2R a < F2R b)%R -> SFcompare a b = Some Lt)
  /\ (F2R a = F2R b -> SFcompare a b = Some Eq)
  /\ ((F2R b < F2R a)%R -> SFcompare a b = Some Gt).
Proof.
  intros H1 H2 a b. unfold a, b. cbn [SFcompare].
  destruct (Z.compare_spec e1 e2) as [-> | Hlt | Hgt].
  - change (Pos.compare_cont Eq m1 m2) with (Zpos m1 ?= Zpos m2).
    simpl F2R. pose proof (pow2_pos e2) as Hp.
    destruct (Z.compare_spec (Zpos m1) (Zpos m2)) as [Heq | Hl | Hg].
    + rewrite Heq. repeat split; intros; try reflexivity; lra.
    + apply IZR_lt in Hl. repeat split; intros; try reflexivity; nra.
    + apply IZR_lt in Hg. repeat split; intros; try reflexivity; nra.
  - pose proof (canonical_exponent_lt m1 m2 e1 e2 H1 H2 Hlt).
    repeat split; intros; try reflexivity; lra.
  - pose proof (canonical_exponent_lt m2 m1 e2 e1 H2 H1 Hgt).
    repeat split; intros; try reflexivity; lra.
Qed.

(** [a > b] on canonical non-negative numbers, against their values. *)
Lemma fgt_intro (a b : float) (x y : R) :
  valid a -> valid b -> nonneg_float a -> nonneg_float b ->
  at_least a x -> at_most b y -> (y < x)%R -> fgt a b = true.
Proof.
  intros Va Vb Na Nb Ha Hb Hxy. unfold fgt.
  destruct a as [sa | sa | | sa ma ea], b as [sb | sb | | sb mb eb];
    simpl in Na, Nb, Ha, Hb; subst; try contradiction; try reflexivity.
  - lra.
  - pose proof (F2R_pos mb eb) as Hp. simpl in Hp. lra.
  - destruct (SFcompare_finite ma mb ea eb Va Vb) as (_ & _ & H).
    rewrite H; [reflexivity | simpl; lra].
Qed.

Lemma fgt_false_intro (a b : float) (x y : R) :
  valid a -> valid b -> nonneg_float a -> nonneg_float b ->
  at_most a x -> at_least b y -> (x <= y)%R -> fgt a b = false.
Proof.
  intros Va Vb Na Nb Ha Hb Hxy. unfold fgt.
  destruct a as [sa | sa | | sa ma ea], b as [sb | sb | | sb mb eb];
    simpl in Na, Nb, Ha, Hb; subst; try contradiction; try reflexivity.
  - pose proof (F2R_pos ma ea) as Hp. simpl in Hp. lra.
  - destruct (SFcompare_finite ma mb ea eb Va Vb) as (H1 & H2 & _).
    assert (Hle : (F2R (S754_finite false ma ea) <= F2R (S754_finite false mb eb))%R)
      by (simpl; lra).
    destruct (Rle_lt_or_eq_dec _ _ Hle) as [Hlt | Heq].
    + now rewrite (H1 Hlt).
    + now rewrite (H2 Heq).
Qed.

Lemma fgt_elim (a b : float) (y : R) :
  valid a -> valid b -> nonneg_float a -> nonneg_float b ->
  fgt a b = true -> at_least b y -> at_least a y.
Proof.
  intros Va Vb Na Nb Hgt Hb. unfold fgt in Hgt.
  destruct a as [sa | sa | | sa ma ea], b as [sb | sb | | sb mb eb];
    simpl in Na, Nb, Hb |- *; subst; try contradiction; try reflexivity;
    try (simpl in Hgt; discriminate).
  - pose proof (F2R_pos ma ea) as Hp. simpl in Hp. lra.
  - destruct (SFcompare_finite ma mb ea eb Va Vb) as (H1 & H2 & _).
    destruct (Rle_or_lt (F2R (S754_finite false ma ea)) (F2R (S754_finite false mb eb)))
      as [Hle | Hlt]; [exfalso | simpl in Hlt; lra].
    destruct (Rle_lt_or_eq_dec _ _ Hle) as [Hlt | Heq].
    + rewrite (H1 Hlt) in Hgt. discriminate.
    + rewrite (H2 Heq) in Hgt. discriminate.
Qed.

(** ** Addition and subtraction *)

(** The exact sum or difference of two finite numbers, as the operations
    form it before rounding. *)
Lemma aligned_values (mx my : positive) (ex ey : Z) :
  let ez := Z.min ex ey in
  (IZR (Zpos (fst (shl_align mx ex ez))) * pow2 ez = IZR (Zpos mx) * pow2 ex)%R
  /\ (IZR (Zpos (fst (shl_align my ey ez))) * pow2 ez = IZR (Zpos my) * pow2 ey)%R.
Proof.
  intros ez.
  pose proof (shl_align_spec mx ex ez) as Hx. pose proof (shl_align_spec my ey ez) as Hy.
  destruct (shl_align mx ex ez) as [mx' ex'], (shl_align my ey ez) as [my' ey'].
  destruct Hx as (Hx & Hex & _), Hy as (Hy & Hey & _). cbn [fst].
  replace ex' with ez in Hx by (subst ez; lia).
  replace ey' with ez in Hy by (subst ez; lia). now split.
Qed.

Lemma normalize_spec (M e : Z) :
  0 <= M ->
  let r := binary_normalize prec emax M e false in
  valid r /\ nonneg_float r
  /\ forall B, representable B ->
       ((B <= IZR M * pow2 e)%R -> at_least r B)
       /\ ((IZR M * pow2 e <= B)%R -> at_most r B).
Proof.
  intros HM. destruct M as [ | p | p]; [ | apply binary_round_spec | lia].
  simpl. split; [reflexivity | split; [exact I | ]]. intros B HB.
  rewrite Rmult_0_l. split; intros H; exact H.
Qed.

Lemma fadd_spec (a b : float) :
  valid a -> valid b -> nonneg_float a -> nonneg_float b ->
  valid (fadd a b) /\ nonneg_float (fadd a b)
  /\ forall B xa xb, representable B ->
       (at_least a xa -> at_least b xb -> (B <= xa + xb)%R -> at_least (fadd a b) B)
       /\ (at_most a xa -> at_most b xb -> (xa + xb <= B)%R -> at_most (fadd a b) B).
Proof.
  intros Va Vb Na Nb.
  destruct a as [sa | sa | | sa ma ea], b as [sb | sb | | sb mb eb];
    simpl in Na, Nb; subst; try contradiction.
  - assert (Hr : fadd (S754_zero sa) (S754_zero sb) = S754_zero sa
                 \/ fadd (S754_zero sa) (S754_zero sb) = S754_zero false)
      by (destruct sa, sb; simpl; auto).
    destruct Hr as [-> | ->]; (split; [reflexivity | split; [exact I | ]]);
      intros B xa xb HB; split; simpl; intros; lra.
  - simpl. split; [reflexivity | split; [reflexivity | ]].
    intros B xa xb HB; split; simpl; intros; try reflexivity; contradiction.
  - simpl. split; [exact Vb | split; [reflexivity | ]].
    intros B xa xb HB; split; simpl; intros; lra.
  - simpl. split; [reflexivity | split; [reflexivity | ]].
    intros B xa xb HB; split; simpl; intros; try reflexivity; contradiction.
  - simpl. split; [reflexivity | split; [reflexivity | ]].
    intros B xa xb HB; split; simpl; intros; try reflexivity; contradiction.
  - simpl. split; [reflexivity | split; [reflexivity | ]].
    intros B xa xb HB; split; simpl; intros; try reflexivity; contradiction.
  - simpl. split; [exact Va | split; [reflexivity | ]].
    intros B xa xb HB; split; simpl; intros; lra.
  - simpl. split; [reflexivity | split; [reflexivity | ]].
    intros B xa xb HB; split; simpl; intros; try reflexivity; contradiction.
  - unfold fadd. cbn [SFadd cond_Zopp].
    destruct (aligned_values ma mb ea eb) as [Hx Hy]. cbv zeta in Hx, Hy.
    set (ez := Z.min ea eb) in *.
    set (M := Zpos (fst (shl_align ma ea ez)) + Zpos (fst (shl_align mb eb ez))).
    assert (HM : (IZR M * pow2 ez = F2R (S754_finite false ma ea)
                                   + F2R (S754_finite false mb eb))%R).
    { unfold M. rewrite plus_IZR. simpl F2R. lra. }
    destruct (normalize_spec M ez ltac:(subst M; lia)) as (Hv & Hn & Hb).
    split; [exact Hv | split; [exact Hn | ]].
    intros B xa xb HB. destruct (Hb B HB) as [Hlo Hhi]. rewrite HM in Hlo, Hhi.
    split; intros Ha Hb'; unfold at_least, at_most in Ha, Hb'; intros Hsum;
      [apply Hlo | apply Hhi]; lra.
Qed.

(** [a - b] for [b <= a], both finite. *)
Lemma fsub_spec (a b : float) (xa B : R) :
  nonneg_float a -> nonneg_float b ->
  at_most a xa -> at_most b (F2R a) ->
  representable B -> (xa <= B)%R ->
  valid a ->
  valid (fsub a b) /\ nonneg_float (fsub a b) /\ at_most (fsub a b) B.
Proof.
  intros Na Nb Ha Hb HK HxK Va.
  assert (HB0 : (0 <= B)%R).
  { destruct HK as (K & c & HK & _ & ->). pose proof (pow2_pos c).
    assert (0 <= IZR K)%R by (apply IZR_le; lia). nra. }
  destruct a as [sa | sa | | sa ma ea], b as [sb | sb | | sb mb eb];
    simpl in Na, Nb, Ha, Hb; subst; try contradiction.
  - assert (Hr : fsub (S754_zero sa) (S754_zero sb) = S754_zero sa
                 \/ fsub (S754_zero sa) (S754_zero sb) = S754_zero false)
      by (destruct sa, sb; simpl; auto).
    destruct Hr as [-> | ->]; (split; [reflexivity | split; [exact I | ]]); simpl; lra.
  - pose proof (F2R_pos mb eb) as Hp. simpl in Hp. lra.
  - simpl. split; [exact Va | split; [reflexivity | lra]].
  - unfold fsub. cbn [SFsub cond_Zopp].
    destruct (aligned_values ma mb ea eb) as [Hx Hy]. cbv zeta in Hx, Hy.
    set (ez := Z.min ea eb) in *.
    set (M := Zpos (fst (shl_align ma ea ez)) - Zpos (fst (shl_align mb eb ez))).
    assert (HM : (IZR M * pow2 ez = IZR (Zpos ma) * pow2 ea - IZR (Zpos mb) * pow2 eb)%R).
    { unfold M. rewrite minus_IZR. lra. }
    assert (HM0 : 0 <= M).
    { apply (IZR_pow2_le 0 M ez). rewrite HM. lra. }
    destruct (normalize_spec M ez HM0) as (Hv & Hn & Hbnd).
    split; [exact Hv | split; [exact Hn | ]].
    apply (Hbnd B HK). rewrite HM.
    pose proof (F2R_pos mb eb) as Hp. simpl in Hp. lra.
Qed.

(** ** Multiplication and division *)

(** A canonical number that is 1 at least has a mantissa of 53 digits. *)
Lemma normal_mantissa (m : positive) (e : Z) :
  bounded prec emax m e = true -> (1 <= F2R (S754_finite false m e))%R ->
  2 ^ 52 <= Zpos m.
Proof.
  intros Hb H1. destruct (bounded_digits m e Hb) as (Hd & Hn & He).
  pose proof (digits2_pos_bounds m) as [Hlo Hhi].
  destruct (Z.eq_dec e (-1074)) as [-> | Hne].
  - exfalso. simpl in H1.
    assert (Hm : Zpos m < 2 ^ 53).
    { assert (2 ^ Zpos (digits2_pos m) <= 2 ^ 53) by (apply Z.pow_le_mono_r; lia). lia. }
    apply IZR_lt in Hm.
    assert (Hp : (IZR (2 ^ 53) * pow2 (-1074) <= 1)%R).
    { rewrite <- (pow2_IZR 53), <- pow2_add by lia. rewrite <- pow2_0. apply pow2_le. lia. }
    pose proof (pow2_pos (-1074)). nra.
  - rewrite (Hn ltac:(lia)) in Hlo. exact Hlo.
Qed.

Lemma fmul_spec (a b : float) (y0 : R) :
  valid a -> nonneg_float a -> nonneg_float b ->
  at_least a 1 -> at_least b y0 -> (0 < y0)%R ->
  valid (fmul a b) /\ nonneg_float (fmul a b)
  /\ forall B xa xb, representable B ->
       (at_least a xa -> at_least b xb -> (0 <= xa)%R -> (0 <= xb)%R ->
        (B <= xa * xb)%R -> at_least (fmul a b) B)
       /\ (at_most a xa -> at_most b xb -> (xa * xb <= B)%R -> at_most (fmul a b) B).
Proof.
  intros Va Na Nb Ha1 Hb0 Hy0.
  destruct a as [sa | sa | | sa ma ea], b as [sb | sb | | sb mb eb];
    simpl in Na, Nb, Ha1, Hb0; subst; try contradiction; try lra.
  - simpl. split; [reflexivity | split; [reflexivity | ]].
    intros B xa xb HB; split; simpl; intros; try reflexivity; contradiction.
  - simpl. split; [reflexivity | split; [reflexivity | ]].
    intros B xa xb HB; split; simpl; intros; try reflexivity; contradiction.
  - simpl. split; [reflexivity | split; [reflexivity | ]].
    intros B xa xb HB; split; simpl; intros; try reflexivity; contradiction.
  - unfold fmul. cbn [SFmul xorb].
    pose proof (normal_mantissa ma ea Va Ha1) as Hma.
    set (x := (F2R (S754_finite false ma ea) * F2R (S754_finite false mb eb))%R).
    assert (Hx : x = (IZR (Zpos (ma * mb)) * pow2 (ea + eb))%R).
    { unfold x. simpl F2R. rewrite Pos2Z.inj_mul, mult_IZR, pow2_add. ring. }
    destruct (round_aux_spec (Zpos (ma * mb)) (ea + eb) loc_Exact x) as (Hv & Hn & Hb).
    + lia.
    + assert (53 <= Zdigits2 (Zpos (ma * mb))).
      { apply (Zdigits2_ge _ 52); [lia | ]. rewrite Pos2Z.inj_mul. nia. }
      rewrite fexp_unfold. lia.
    + rewrite Hx. split; [lra | ]. apply IZR_pow2_lt. lia.
    + congruence.
    + split; [exact Hv | split; [exact Hn | ]].
      intros B xa xb HB. destruct (Hb B HB) as [Hlo Hhi].
      pose proof (F2R_pos ma ea) as Hpa. pose proof (F2R_pos mb eb) as Hpb.
      split.
      * intros Hxa Hxb H0a H0b HKx. apply Hlo. unfold x.
        unfold at_least in Hxa, Hxb. nra.
      * intros Hxa Hxb HKx. apply Hhi. unfold x.
        unfold at_most in Hxa, Hxb. nra.
Qed.

Lemma new_location_exact (nb_steps k : Z) :
  new_location nb_steps k = loc_Exact -> k = 0.
Proof.
  unfold new_location, new_location_even, new_location_odd.
  destruct (Z.even nb_steps); destruct (Z.eqb_spec k 0); congruence.
Qed.

(** The quotient [SFdiv] rounds: mantissa, exponent and location stand for
    the exact quotient, and the mantissa needs no shift to the left. *)
Lemma SFdiv_core_spec (m1 m2 : positive) (e1 e2 : Z) :
  let x := ((IZR (Zpos m1) * pow2 e1) / (IZR (Zpos m2) * pow2 e2))%R in
  let '(q, e', l) := SFdiv_core_binary prec emax (Zpos m1) e1 (Zpos m2) e2 in
  0 <= q
  /\ e' <= fexp prec emax (Zdigits2 q + e')
  /\ (IZR q * pow2 e' <= x < IZR (q + 1) * pow2 e')%R
  /\ (l <> loc_Exact -> (IZR q * pow2 e' < x)%R).
Proof.
  intros x. unfold SFdiv_core_binary.
  set (d1 := Zdigits2 (Zpos m1)). set (d2 := Zdigits2 (Zpos m2)).
  set (e' := Z.min (fexp prec emax (d1 + e1 - (d2 + e2))) (e1 - e2)).
  set (s := e1 - e2 - e').
  assert (Hs : 0 <= s) by (subst s e'; lia).
  set (m' := match s with Zpos _ => Z.shiftl (Zpos m1) s | Z0 => Zpos m1 | Zneg _ => 0 end).
  assert (Hm' : m' = Zpos m1 * 2 ^ s).
  { unfold m'. destruct s as [ | p | p]; [simpl; lia | | lia].
    apply Z.shiftl_mul_pow2. lia. }
  pose proof (Z_div_mod m' (Zpos m2) ltac:(lia)) as Hdm.
  destruct (Z.div_eucl m' (Zpos m2)) as [q r]. destruct Hdm as [Hdm Hr].
  assert (Hps : 0 < 2 ^ s) by (apply Z.pow_pos_nonneg; lia).
  assert (Hq : 0 <= q) by nia.
  pose proof (pow2_pos e1) as Hp1. pose proof (pow2_pos e2) as Hp2.
  pose proof (pow2_pos e') as Hp'.
  assert (Hm2 : (0 < IZR (Zpos m2))%R) by (apply IZR_lt; lia).
  assert (Hx : (x * IZR (Zpos m2) = (IZR q * IZR (Zpos m2) + IZR r) * pow2 e')%R).
  { unfold x. replace (IZR q * IZR (Zpos m2) + IZR r)%R with (IZR m').
    2: { rewrite Hdm, plus_IZR, mult_IZR. ring. }
    rewrite Hm', mult_IZR, <- (pow2_IZR s) by lia.
    assert (He : pow2 e1 = (pow2 s * pow2 e' * pow2 e2)%R).
    { rewrite <- !pow2_add. f_equal. subst s. lia. }
    rewrite He. field. split; lra. }
  assert (Hr0 : (0 <= IZR r < IZR (Zpos m2))%R) by (split; [apply IZR_le | apply IZR_lt]; lia).
  split; [exact Hq | ]. split; [ | split; [split | ]].
  - destruct (Z.leb_spec e' (-1074)) as [Hlow | Hhigh]; [rewrite fexp_unfold; lia | ].
    assert (He' : e' <= d1 + e1 - (d2 + e2) - 53) by (subst e'; rewrite fexp_unfold in *; lia).
    destruct (Zdigits2_bounds (Zpos m1) ltac:(lia)) as (Hd1 & Hlo1 & _).
    destruct (Zdigits2_bounds (Zpos m2) ltac:(lia)) as (Hd2 & _ & Hhi2).
    fold d1 in Hd1, Hlo1. fold d2 in Hd2, Hhi2.
    assert (H52 : 2 ^ 52 <= q).
    { assert (Hle : Zpos m2 * 2 ^ 52 <= m').
      { rewrite Hm'.
        assert (Hpw : 2 ^ (d2 + 52) <= 2 ^ (d1 - 1 + s)) by (apply Z.pow_le_mono_r; lia).
        rewrite !Z.pow_add_r in Hpw by lia.
        assert (0 < 2 ^ 52) by reflexivity. nia. }
      destruct (Z.leb_spec (2 ^ 52) q); [assumption | exfalso]. nia. }
    assert (53 <= Zdigits2 q) by (apply (Zdigits2_ge _ 52); lia).
    rewrite fexp_unfold. lia.
  - assert ((IZR q * pow2 e') * IZR (Zpos m2) <= x * IZR (Zpos m2))%R by (rewrite Hx; nra).
    nra.
  - assert (x * IZR (Zpos m2) < (IZR (q + 1) * pow2 e') * IZR (Zpos m2))%R
      by (rewrite Hx, plus_IZR; nra).
    nra.
  - intros Hl.
    assert (Hrne : r <> 0).
    { intros ->. apply Hl. unfold new_location, new_location_even, new_location_odd.
      now destruct (Z.even (Zpos m2)). }
    assert (0 < IZR r)%R by (apply IZR_lt; lia).
    assert ((IZR q * pow2 e') * IZR (Zpos m2) < x * IZR (Zpos m2))%R by (rewrite Hx; nra).
    nra.
Qed.

Lemma fdiv_valid (a b : float) : valid (fdiv a b).
Proof.
  destruct a as [sa | sa | | sa ma ea], b as [sb | sb | | sb mb eb]; try reflexivity.
  unfold fdiv. cbn [SFdiv].
  pose proof (SFdiv_core_spec ma mb ea eb) as H. cbv zeta in H.
  destruct (SFdiv_core_binary prec emax (Zpos ma) ea (Zpos mb) eb) as [[q e'] l].
  destruct H as (Hq & Hfit & _).
  destruct (round_aux_shape q e' l Hq Hfit)
    as (m2 & m3 & e3 & _ & _ & Hm3 & _ & _ & _ & Hcan & Hr).
  rewrite Hr. destruct m3 as [ | p | p]; try reflexivity.
  destruct (Z.leb_spec e3 (emax - prec)) as [Hle | Hgt]; [ | reflexivity].
  unfold valid, valid_binary, bounded, canonical_mantissa. apply andb_true_iff. split.
  - apply Z.eqb_eq. apply (Hcan ltac:(lia)).
  - now apply Z.leb_le.
Qed.

(** [a / b] for a finite [a] and a positive [b]. *)
Lemma fdiv_spec (a b : float) (xa xb B : R) :
  nonneg_float a -> nonneg_float b ->
  at_most a xa -> at_least b xb -> (0 < xb)%R ->
  representable B -> (xa <= B * xb)%R ->
  nonneg_float (fdiv a b) /\ at_most (fdiv a b) B.
Proof.
  intros Na Nb Ha Hb Hxb HK HxK.
  assert (HK0 : (0 <= B)%R).
  { destruct HK as (K & c & HK & _ & ->). pose proof (pow2_pos c).
    assert (0 <= IZR K)%R by (apply IZR_le; lia). nra. }
  destruct a as [sa | sa | | sa ma ea], b as [sb | sb | | sb mb eb];
    simpl in Na, Nb, Ha, Hb; subst; try contradiction; try lra;
    try (simpl; split; [exact I | lra]).
  unfold fdiv. cbn [SFdiv xorb].
  pose proof (SFdiv_core_spec ma mb ea eb) as H. cbv zeta in H.
  destruct (SFdiv_core_binary prec emax (Zpos ma) ea (Zpos mb) eb) as [[q e'] l].
  destruct H as (Hq & Hfit & Hx & Hl).
  destruct (round_aux_spec q e' l _ Hq Hfit Hx Hl) as (_ & Hn & Hbnd).
  split; [exact Hn | ]. apply (Hbnd B HK).
  pose proof (F2R_pos ma ea) as Hpa. pose proof (F2R_pos mb eb) as Hpb.
  simpl in Hpa, Hpb.
  assert (HA : (1 * IZR (Zpos ma) * pow2 ea = IZR (Zpos ma) * pow2 ea)%R) by ring.
  assert (HB' : (1 * IZR (Zpos mb) * pow2 eb = IZR (Zpos mb) * pow2 eb)%R) by ring.
  rewrite HA in *. rewrite HB' in *.
  set (va := (IZR (Zpos ma) * pow2 ea)%R) in *.
  set (vb := (IZR (Zpos mb) * pow2 eb)%R) in *.
  assert (Hvb : (0 < vb)%R) by lra.
  apply (Rmult_le_reg_r vb); [exact Hvb | ].
  replace (va / vb * vb)%R with va by (field; lra). nra.
Qed.

Lemma int_of_float_le (a : float) (K : Z) :
  nonneg_float a -> at_most a (IZR K) -> int_of_float a <= K.
Proof.
  intros Na Ha. destruct a as [sa | sa | | sa m e]; simpl in Na, Ha; subst;
    try contradiction; [apply le_IZR; exact Ha | ].
  cbn [int_of_float]. rewrite Rmult_1_l in Ha. destruct e as [ | p | p].
  - rewrite pow2_0, Rmult_1_r in Ha. now apply le_IZR.
  - rewrite pow2_IZR, <- mult_IZR in Ha by lia. now apply le_IZR.
  - assert (Hp : 0 < 2 ^ Zpos p) by (apply Z.pow_pos_nonneg; lia).
    pose proof (Z.mul_div_le (Zpos m) (2 ^ Zpos p) Hp) as Hd.
    apply IZR_le in Hd. rewrite mult_IZR in Hd.
    pose proof (pow2_opp (Zpos p)) as Ho. rewrite (pow2_IZR (Zpos p)) in Ho by lia.
    change (- Zpos p) with (Zneg p) in Ho. pose proof (pow2_pos (Zneg p)).
    apply le_IZR.
    assert (IZR (Zpos m / 2 ^ Zpos p) <= IZR (Zpos m) * pow2 (Zneg p))%R; [ | lra].
    replace (IZR (Zpos m / 2 ^ Zpos p))
      with (IZR (Zpos m / 2 ^ Zpos p) * (pow2 (Zneg p) * IZR (2 ^ Zpos p)))%R
      by (rewrite Ho; ring).
    nra.
Qed.

(** ** The numbers of the layout *)

Lemma at_least_weaken (a : float) (x x' : R) :
  at_least a x -> (x' <= x)%R -> at_least a x'.
Proof. destruct a; simpl; intros; auto; lra. Qed.

Lemma at_most_weaken (a : float) (x x' : R) :
  at_most a x -> (x <= x')%R -> at_most a x'.
Proof. destruct a; simpl; intros; auto; lra. Qed.

Lemma nonneg_not_nan (a : float) : nonneg_float a -> a <> S754_nan.
Proof. destruct a; simpl; intros H; try discriminate; contradiction. Qed.

(** A finite number lies between its bounds. *)
Lemma at_most_at_least (a : float) (x y : R) :
  at_most a x -> at_least a y -> (y <= F2R a <= x)%R.
Proof. destruct a; simpl; intros; try contradiction; lra. Qed.

Lemma binary_round_valid (sx : bool) (m : positive) (e : Z) :
  valid (binary_round prec emax sx m e).
Proof.
  unfold binary_round.
  pose proof (shl_align_spec m e (fexp prec emax (Zpos (digits2_pos m) + e))) as H.
  destruct (shl_align m e _) as [mz ez]. destruct H as (_ & Hez & Hmz).
  assert (Hfit : ez <= fexp prec emax (Zdigits2 (Zpos mz) + ez)).
  { rewrite Hmz, Zdigits2_shift by lia.
    change (Zdigits2 (Zpos m)) with (Zpos (digits2_pos m)).
    replace (Zpos (digits2_pos m) + (e - ez) + ez) with (Zpos (digits2_pos m) + e) by lia.
    lia. }
  destruct (round_aux_shape (Zpos mz) ez loc_Exact ltac:(lia) Hfit)
    as (m2 & m3 & e3 & _ & _ & Hm3 & _ & _ & _ & Hcan & Hr).
  rewrite Hr. destruct m3 as [ | p | p]; try reflexivity.
  destruct (Z.leb_spec e3 (emax - prec)) as [Hle | Hgt]; [ | reflexivity].
  unfold valid, valid_binary, bounded, canonical_mantissa. apply andb_true_iff. split.
  - apply Z.eqb_eq. apply (Hcan ltac:(lia)).
  - now apply Z.leb_le.
Qed.

Lemma fadd_valid (a b : float) : valid a -> valid b -> valid (fadd a b).
Proof.
  intros Va Vb.
  destruct a as [sa | sa | | sa ma ea], b as [sb | sb | | sb mb eb];
    try reflexivity; try exact Va; try exact Vb;
    try (destruct sa, sb; reflexivity).
  unfold fadd. cbn [SFadd]. unfold binary_normalize.
  destruct (_ + _) as [ | p | p]; [reflexivity | | ]; apply binary_round_valid.
Qed.

Lemma of_int_valid (z : Z) : valid (of_int z).
Proof.
  unfold of_int, binary_normalize. destruct z; [reflexivity | | ];
    apply binary_round_valid.
Qed.

(** [max(a, b)] of a non-negative [a] is non-negative, whatever [b] is. *)
Lemma pymax_facts (a b : float) :
  valid a -> valid b -> nonneg_float a ->
  valid (pymax a b) /\ nonneg_float (pymax a b)
  /\ (pymax a b = a \/ (pymax a b = b /\ nonneg_float b)).
Proof.
  intros Va Vb Na. unfold pymax, fgt.
  destruct (SFcompare b a) as [[ | | ] | ] eqn:E; try (split; [ | split]; auto; fail).
  assert (Nb : nonneg_float b).
  { destruct a as [sa | sa | | sa ma ea], b as [sb | sb | | sb mb eb];
      simpl in Na, E |- *; subst; try contradiction; try discriminate; auto;
      try (destruct sb; [discriminate | reflexivity]). }
  split; [exact Vb | split; [exact Nb | right; now split]].
Qed.

(** The literal 1.2 is a little below 6/5. *)
Lemma f1_2_value : (119 / 100 <= F2R f1_2 <= 6 / 5)%R.
Proof.
  unfold f1_2. simpl F2R. pose proof (pow2_opp 52) as H.
  rewrite (pow2_IZR 52) in H by lia. simpl (- (52)) in H.
  change (2 ^ 52) with 4503599627370496 in H. lra.
Qed.

Lemma f1_2_facts :
  valid f1_2 /\ nonneg_float f1_2
  /\ at_least f1_2 (119 / 100) /\ at_most f1_2 (6 / 5).
Proof.
  pose proof f1_2_value. repeat split; simpl; try reflexivity; lra.
Qed.

(** [k * 1.2] for a positive integer [k]: at most 5 up to [k = 4], and 5.5
    at least from [k = 5] on. *)
Lemma scaled_line_height (k : Z) :
  1 <= k ->
  let lh := fmul (of_int k) f1_2 in
  valid lh /\ nonneg_float lh /\ at_least lh 1
  /\ ((k <= 4 /\ at_most lh 5) \/ (5 <= k /\ at_least lh (11 / 2))).
Proof.
  intros Hk lh.
  destruct f1_2_facts as (Vf & Nf & Lf & Uf).
  destruct (of_int_spec k ltac:(lia)) as (Vk & Nk & Bk).
  assert (L1 : at_least (of_int k) 1).
  { apply (Bk 1%R (representable_int 1 ltac:(lia))). apply IZR_le. lia. }
  destruct (fmul_spec (of_int k) f1_2 (119 / 100) Vk Nk Nf L1 Lf ltac:(lra))
    as (Vl & Nl & Bl).
  fold lh in Vl, Nl, Bl.
  split; [exact Vl | split; [exact Nl | split]].
  - apply (Bl 1%R 1%R (119 / 100)%R (representable_int 1 ltac:(lia))); auto; lra.
  - destruct (Z.leb_spec k 4) as [Hle | Hgt]; [left | right]; (split; [lia | ]).
    + destruct (of_int_exact k ltac:(lia)) as (_ & _ & _ & Uk).
      apply (Bl 5%R (IZR k) (6 / 5)%R (representable_int 5 ltac:(lia))); auto.
      apply IZR_le in Hle. apply IZR_le in Hk. nra.
    + assert (L5 : at_least (of_int k) 5).
      { apply (Bk 5%R (representable_int 5 ltac:(lia))). apply IZR_le. lia. }
      apply (Bl (11 / 2)%R 5%R (119 / 100)%R (representable_half 11 ltac:(lia)));
        auto; lra.
Qed.

End FloatValues.

(** ** The event log *)

Lemma fst_bind (A B : Type) (m : W A) (k : A -> W B) :
  fst (bind m k) = fst (k (fst m)).
Proof. unfold bind. destruct m as [a l1]. simpl. now destruct (k a). Qed.

Lemma snd_bind (A B : Type) (m : W A) (k : A -> W B) :
  snd (bind m k) = snd m ++ snd (k (fst m)).
Proof. unfold bind. destruct m as [a l1]. simpl. now destruct (k a). Qed.

Lemma font_warnings_app (l1 l2 : list event) :
  font_warnings (l1 ++ l2) = (font_warnings l1 + font_warnings l2)%nat.
Proof. unfold font_warnings. now rewrite filter_app, length_app. Qed.

(** ** Words and sizes *)

Lemma split_from_truthy (s cur : string) :
  Forall (fun w => truthy w = true) (split_from cur s).
Proof.
  revert cur. induction s as [ | c s IH]; intros cur; simpl.
  - destruct (truthy cur) eqn:E; auto.
  - destruct (is_space c); [ | apply IH].
    destruct (truthy cur) eqn:E; [constructor; [exact E | ] | ]; apply IH.
Qed.

Lemma split_truthy (text : string) : Forall (fun w => truthy w = true) (split text).
Proof. apply split_from_truthy. Qed.

Lemma truthy_join_word (current_line word : string) :
  truthy word = true -> truthy (join_word current_line word) = true.
Proof.
  unfold join_word. destruct current_line; simpl; [ | reflexivity].
  now destruct word.
Qed.

Lemma truthy_nonempty (s : string) : truthy s = true <-> s <> "".
Proof. destruct s; simpl; split; congruence. Qed.

Lemma candidate_sizes_eq :
  candidate_sizes = [40; 38; 36; 34; 32; 30; 28; 26; 24; 22; 20; 18; 16; 14; 12].
Proof. reflexivity. Qed.

(** ** The greedy word loop *)

Section WordLoop.

Variable box_width : Z.
Variable f : font.
Variable max_lines : Z.

(** Either [break] leaves [current_line] empty. *)
Lemma word_loop_break (words wrapped_lines : list string) (current_line : string) :
  match word_loop box_width f max_lines words wrapped_lines current_line with
  | (_, _, Exhausted) => True
  | (_, current_line', _) => current_line' = ""
  end.
Proof.
  revert wrapped_lines current_line.
  induction words as [ | word rest IH]; intros wrapped_lines current_line; simpl; [exact I | ].
  destruct (fle _ _); [apply IH | ].
  destruct (max_lines <=? _); [reflexivity | ].
  destruct (fgt _ _); [reflexivity | apply IH].
Qed.

(** When the words run out, [current_line] holds the last word at least. *)
Lemma word_loop_exhausted (words wrapped_lines : list string) (current_line : string) :
  Forall (fun w => truthy w = true) words ->
  words <> [] \/ truthy current_line = true ->
  match word_loop box_width f max_lines words wrapped_lines current_line with
  | (_, current_line', Exhausted) => truthy current_line' = true
  | _ => True
  end.
Proof.
  revert wrapped_lines current_line.
  induction words as [ | word rest IH]; intros wrapped_lines current_line Hw Hc; simpl.
  - destruct Hc as [Hc | Hc]; [congruence | exact Hc].
  - inversion Hw as [ | ? ? Hword Hrest]; subst.
    destruct (fle _ _).
    + apply IH; [exact Hrest | right; now apply truthy_join_word].
    + destruct (max_lines <=? _); [exact I | ].
      destruct (fgt _ _); [exact I | ].
      apply IH; [exact Hrest | now right].
Qed.

Hypothesis textlength_number : forall s g, textlength s g <> S754_nan.

(** The loop invariant: every closed line is good, and [current_line] is
    good unless nothing has been placed yet. *)
Lemma word_loop_good (words wrapped_lines : list string) (current_line : string) :
  Forall (fun w => truthy w = true) words ->
  Forall (good_line box_width f) wrapped_lines ->
  (current_line = "" /\ wrapped_lines = []) \/ good_line box_width f current_line ->
  match word_loop box_width f max_lines words wrapped_lines current_line with
  | (wrapped_lines', current_line', Exhausted) =>
      Forall (good_line box_width f) wrapped_lines'
      /\ ((current_line' = "" /\ wrapped_lines' = [])
          \/ good_line box_width f current_line')
  | _ => True
  end.
Proof.
  revert wrapped_lines current_line.
  induction words as [ | word rest IH]; intros wrapped_lines current_line Hw Hl Hc; simpl.
  - split; assumption.
  - inversion Hw as [ | ? ? Hword Hrest]; subst.
    destruct (fle (textlength (join_word current_line word) f) (of_int box_width)) eqn:Efit.
    + apply IH; [exact Hrest | exact Hl | right].
      split; [now apply truthy_join_word | exact Efit].
    + destruct (max_lines <=? _); [exact I | ].
      destruct (fgt (textlength word f) (of_int box_width)) eqn:Ewide; [exact I | ].
      assert (Hfit : fle (textlength word f) (of_int box_width) = true)
        by (apply fgt_false_fle; [apply textlength_number | apply of_int_not_nan | exact Ewide]).
      destruct Hc as [[-> ->] | Hc].
      * (* the first word did not fit on an empty line, yet fits on its own *)
        unfold join_word in Efit. simpl in Efit. congruence.
      * apply IH; [exact Hrest | | right; split; assumption].
        apply Forall_app. split; [exact Hl | now constructor].
Qed.

End WordLoop.

(** ** One size: [wrap_at_size] *)

Section OneSize.

Variable text : string.
Variables box_width box_height : Z.

Lemma max_lines_at_nonneg (size : Z) :
  0 <= size -> 0 <= box_height -> 0 <= max_lines_at size box_height.
Proof.
  intros Hs Hh. unfold max_lines_at, line_height_approx.
  apply int_of_float_nonneg, fdiv_sign_ok; [now apply of_int_sign_ok | ].
  apply fmul_sign_ok; [now apply of_int_sign_ok | reflexivity].
Qed.

(** A pass that returns lines has run the word loop to its end. *)
Lemma wrap_at_size_some (f : font) (size : Z) (lines : list string) :
  wrap_at_size text box_width box_height f size = Some lines ->
  (split text = [] /\ lines = [])
  \/ exists wrapped_lines current_line,
       word_loop box_width f (max_lines_at size box_height) (split text) [] ""
       = (wrapped_lines, current_line, Exhausted)
       /\ truthy current_line = true
       /\ lines = wrapped_lines ++ [current_line]
       /\ Z.of_nat (List.length lines) <= max_lines_at size box_height.
Proof.
  unfold wrap_at_size. destruct (split text) as [ | w ws] eqn:Es.
  - intros [= <-]. now left.
  - destruct (max_lines_at size box_height =? 0); [discriminate | ].
    pose proof (word_loop_break box_width f (max_lines_at size box_height) (w :: ws) [] "") as Hb.
    destruct (word_loop _ _ _ _ _ _) as [[wrapped current] e].
    destruct (truthy current) eqn:Et; [ | discriminate].
    destruct (Z.of_nat (List.length (wrapped ++ [current])) >? max_lines_at size box_height) eqn:El;
      [discriminate | ].
    intros [= <-]. right. exists wrapped, current.
    destruct e; try (subst current; discriminate).
    repeat split; auto. lia.
Qed.

End OneSize.

(** ** The size search *)

Section Search.

Variable text : string.
Variables box_width box_height : Z.

Lemma bind_pair (A B : Type) (m : W A) (k : A -> W B) :
  bind m k = (fst (k (fst m)), snd m ++ snd (k (fst m))).
Proof. rewrite <- fst_bind, <- snd_bind. apply surjective_pairing. Qed.

(** The loop stops at the first size whose pass returns, having loaded a
    font for every size up to it. *)
Lemma size_loop_spec (sizes : list Z) :
  (exists before size after lines,
     sizes = before ++ size :: after
     /\ Forall (fun s => pass_at text box_width box_height s = None) before
     /\ pass_at text box_width box_height size = Some lines
     /\ size_loop text box_width box_height sizes
        = (Some (font_for size, lines), load_log (before ++ [size])))
  \/ (Forall (fun s => pass_at text box_width box_height s = None) sizes
      /\ size_loop text box_width box_height sizes = (None, load_log sizes)).
Proof.
  induction sizes as [ | s rest IH].
  - right. split; [constructor | reflexivity].
  - cbn [size_loop]. rewrite bind_pair. fold (font_for s).
    fold (pass_at text box_width box_height s).
    destruct (pass_at text box_width box_height s) as [lines | ] eqn:E.
    + left. now exists [], s, rest, lines.
    + destruct IH as [(before & size & after & lines & -> & Hb & Hs & Hl) | [Hall Hl]].
      * left. exists (s :: before), size, after, lines. repeat split; auto.
        rewrite Hl. reflexivity.
      * right. split; [now constructor | ]. rewrite Hl. reflexivity.
Qed.

Lemma sorted_prefix_above (before after : list Z) (size : Z) :
  StronglySorted Z.gt (before ++ size :: after) -> Forall (fun s => s > size) before.
Proof.
  induction before as [ | b before IH]; intros H; [constructor | ].
  simpl in H. inversion H as [ | ? ? Hs Hf]; subst. constructor.
  - rewrite Forall_forall in Hf. apply Hf. apply in_or_app. right. now left.
  - now apply IH.
Qed.

Lemma candidate_sizes_sorted : StronglySorted Z.gt candidate_sizes.
Proof. rewrite candidate_sizes_eq. repeat constructor; lia. Qed.

(** C1. Font Size Search scans the sizes 40, 38, ..., 12 in decreasing
    order and returns the font of the first, hence largest, size at which
    the pass over the words returns, with the lines of that pass; when no
    size does, it returns the font of size 12 with the lines of the
    fallback pass.  Either way the size is one of 40, 38, ..., 12. *)
Theorem font_size_search :
  candidate_sizes = [40; 38; 36; 34; 32; 30; 28; 26; 24; 22; 20; 18; 16; 14; 12]
  /\ ((exists before size after lines,
         candidate_sizes = before ++ size :: after
         /\ Forall (fun s => s > size
                             /\ wrap_at_size text box_width box_height (font_for s) s = None)
                   before
         /\ wrap_at_size text box_width box_height (font_for size) size = Some lines
         /\ fst (wrap_text_and_find_font text box_width box_height)
            = (font_for size, lines))
      \/ (Forall (fun s => wrap_at_size text box_width box_height (font_for s) s = None)
                 candidate_sizes
          /\ In 12 candidate_sizes
          /\ fst (wrap_text_and_find_font text box_width box_height)
             = (font_for 12, fallback_lines text box_width box_height (font_for 12)))).
Proof.
  split; [reflexivity | ].
  unfold wrap_text_and_find_font. rewrite fst_bind.
  destruct (size_loop_spec candidate_sizes)
    as [(before & size & after & lines & Hd & Hb & Hs & Hl) | [Hall Hl]];
    unfold pass_at in *.
  - left. exists before, size, after, lines. repeat split; auto.
    + pose proof candidate_sizes_sorted as Hsorted. rewrite Hd in Hsorted.
      apply sorted_prefix_above in Hsorted.
      rewrite Forall_forall in *. intros s Hin. split; [now apply Hsorted | now apply Hb].
    + rewrite Hl. reflexivity.
  - right. repeat split; auto.
    + rewrite candidate_sizes_eq. simpl. tauto.
    + rewrite Hl. cbn [fst]. rewrite fst_bind. reflexivity.
Qed.

End Search.

(** ** Line counts *)

Section LineCount.

Variable text : string.
Variables box_width box_height : Z.

Lemma fallback_max_lines_eq : fallback_max_lines box_height = max_lines_at 12 box_height.
Proof.
  unfold fallback_max_lines, max_lines_at, line_height_approx. cbv zeta.
  assert (H : fgt (fmul (of_int 12) f1_2) (of_int 0) = true) by (vm_compute; reflexivity).
  now rewrite H.
Qed.

(** The fallback loop closes a line only while fewer than [max_lines] are
    closed. *)
Lemma fallback_loop_length (f : font) (max_lines : Z)
    (words wrapped_lines : list string) (current_line : string) :
  Z.of_nat (List.length wrapped_lines) <= max_lines ->
  Z.of_nat (List.length (fst (fallback_loop box_width f max_lines words
                                           wrapped_lines current_line))) <= max_lines.
Proof.
  revert wrapped_lines current_line.
  induction words as [ | word rest IH]; intros wrapped_lines current_line H; simpl; [exact H | ].
  destruct (fle _ _); [now apply IH | ].
  destruct (Z.ltb_spec (Z.of_nat (List.length wrapped_lines)) max_lines) as [Hlt | Hge];
    [ | exact H].
  apply IH. rewrite length_app. simpl. lia.
Qed.

Lemma fallback_lines_length (f : font) :
  0 <= box_height ->
  Z.of_nat (List.length (fallback_lines text box_width box_height f))
  <= fallback_max_lines box_height.
Proof.
  intros Hh.
  assert (H0 : 0 <= fallback_max_lines box_height)
    by (rewrite fallback_max_lines_eq; apply max_lines_at_nonneg; lia).
  unfold fallback_lines. cbv zeta.
  destruct (split text) as [ | w ws]; [exact H0 | ].
  destruct (fallback_max_lines box_height =? 0); [exact H0 | ].
  pose proof (fallback_loop_length f (fallback_max_lines box_height) (w :: ws) [] "" H0) as Hl.
  destruct (fallback_loop _ _ _ _ _ _) as [wrapped current]. simpl in Hl.
  destruct (truthy current && _) eqn:E.
  - apply andb_prop in E. destruct E as [_ E]. apply Z.ltb_lt in E.
    assert (Hlen : Z.of_nat (List.length (wrapped ++ [current])) <= fallback_max_lines box_height)
      by (rewrite length_app; simpl; lia).
    destruct (wrapped ++ [current]); [exact H0 | exact Hlen].
  - destruct wrapped; [exact H0 | exact Hl].
Qed.

(** C2. In a box of non-negative height, the lines a pass at size [size]
    returns number at most [max_lines_at size box_height], the program's
    [int(box_height / (size * 1.2))]; so do the lines of the fallback pass
    at size 12. *)
Theorem line_count_within_height (Hheight : 0 <= box_height) :
  (forall f size lines,
     0 <= size ->
     wrap_at_size text box_width box_height f size = Some lines ->
     Z.of_nat (List.length lines) <= max_lines_at size box_height)
  /\ (forall f,
        Z.of_nat (List.length (fallback_lines text box_width box_height f))
        <= max_lines_at 12 box_height).
Proof.
  split.
  - intros f size lines Hs H.
    destruct (wrap_at_size_some _ _ _ _ _ _ H) as [[_ ->] | (w & c & _ & _ & _ & Hl)].
    + now apply max_lines_at_nonneg.
    + exact Hl.
  - intros f. rewrite <- fallback_max_lines_eq. now apply fallback_lines_length.
Qed.

End LineCount.

(** ** Widths and empty lines *)

Section Measured.

Variable text : string.
Variables box_width box_height : Z.

(** [draw.textlength] returns a number. *)
Hypothesis textlength_number : forall s g, textlength s g <> S754_nan.

Lemma wrap_at_size_good (f : font) (size : Z) (lines : list string) :
  wrap_at_size text box_width box_height f size = Some lines ->
  Forall (fun line => truthy line = true
                      /\ fle (textlength line f) (of_int box_width) = true) lines.
Proof.
  intros H. destruct (wrap_at_size_some _ _ _ _ _ _ H) as [[_ ->] | (w & c & Hloop & Ht & -> & _)].
  - constructor.
  - pose proof (word_loop_good box_width f (max_lines_at size box_height) textlength_number
                  (split text) [] "" (split_truthy text) (Forall_nil _)
                  (or_introl (conj eq_refl eq_refl))) as Hg.
    rewrite Hloop in Hg. destruct Hg as [Hw [[-> _] | Hc]]; [discriminate | ].
    apply Forall_app. split; [exact Hw | now constructor].
Qed.

(** C3. Every line a pass at size [size] returns measures, in the font
    loaded for that size, at most [box_width]. *)
Theorem lines_within_width (size : Z) (lines : list string) :
  wrap_at_size text box_width box_height (font_for size) size = Some lines ->
  Forall (fun line => fle (textlength line (font_for size)) (of_int box_width) = true) lines.
Proof.
  intros H. apply wrap_at_size_good in H.
  eapply Forall_impl; [ | exact H]. now intros line [_ Hfit].
Qed.

(** C10. No line a pass at size [size] returns is the empty string. *)
Theorem lines_nonempty (size : Z) (lines : list string) :
  wrap_at_size text box_width box_height (font_for size) size = Some lines ->
  Forall (fun line => line <> "") lines.
Proof.
  intros H. apply wrap_at_size_good in H.
  eapply Forall_impl; [ | exact H]. intros line [Ht _]. now apply truthy_nonempty.
Qed.

End Measured.

(** ** Failures at one size *)

Section Failures.

Variable text : string.
Variables box_width box_height : Z.

(** C4, as the program has it.  A pass that fails, whether for width or for
    height, hands nothing back: both [break]s leave [current_line] empty,
    and the result of the pass is the same [None] (the search goes on to
    the next size) for either kind of failure; a pass fails in one of the
    two ways exactly when it returns no lines. *)
Theorem failure_kinds_not_told_apart (f : font) (size : Z) :
  match word_loop box_width f (max_lines_at size box_height) (split text) [] "" with
  | (_, _, Exhausted) => True
  | (_, current_line, (HeightBreak | WidthBreak)) => current_line = ""
  end
  /\ match failure_at text box_width box_height f size with
     | Some (WidthFailure | HeightFailure) =>
         wrap_at_size text box_width box_height f size = None
     | None => exists lines, wrap_at_size text box_width box_height f size = Some lines
     end.
Proof.
  split.
  - pose proof (word_loop_break box_width f (max_lines_at size box_height) (split text) [] "") as H.
    destruct (word_loop _ _ _ _ _ _) as [[w c] [ | | ]]; auto.
  - unfold failure_at, wrap_at_size.
    pose proof (split_truthy text) as Hw.
    destruct (split text) as [ | w0 ws] eqn:Es; [now exists [] | ].
    destruct (max_lines_at size box_height =? 0); [reflexivity | ].
    pose proof (word_loop_break box_width f (max_lines_at size box_height) (w0 :: ws) [] "") as Hb.
    assert (Hne : w0 :: ws <> [] \/ truthy "" = true) by (left; discriminate).
    pose proof (word_loop_exhausted box_width f (max_lines_at size box_height) (w0 :: ws) [] ""
                  Hw Hne) as He.
    destruct (word_loop _ _ _ _ _ _) as [[w c] [ | | ]].
    + rewrite He. cbn [andb].
      destruct (Z.of_nat (List.length (w ++ [c])) >? max_lines_at size box_height);
        [reflexivity | eauto].
    + subst c. reflexivity.
    + subst c. reflexivity.
Qed.

End Failures.

(** ** The fallback pass *)

Section Fallback.

Variable text : string.
Variables box_width box_height : Z.
Variable f : font.

(** Lines once closed stay where they are. *)
Lemma fallback_loop_prefix (max_lines : Z) (words wrapped_lines : list string)
    (current_line : string) :
  exists more,
    fst (fallback_loop box_width f max_lines words wrapped_lines current_line)
    = wrapped_lines ++ more.
Proof.
  revert wrapped_lines current_line.
  induction words as [ | word rest IH]; intros wrapped_lines current_line; simpl.
  - exists []. now rewrite app_nil_r.
  - destruct (fle _ _); [apply IH | ].
    destruct (_ <? _); [ | exists []; now rewrite app_nil_r].
    destruct (IH (wrapped_lines ++ [current_line]) word) as [more Hm].
    exists (current_line :: more). rewrite Hm, <- app_assoc. reflexivity.
Qed.

(** C9, as the program has it.  In the fallback pass, when the first word
    measures wider than [box_width], at least two lines fit the height, and
    the first word followed by the second (if there is one) is still too
    wide, the lines returned begin with an empty line followed by the
    over-wide word on a line of its own. *)
Theorem fallback_overwide_first_word (first : string) (others : list string) :
  split text = first :: others ->
  fgt (textlength first f) (of_int box_width) = true ->
  2 <= fallback_max_lines box_height ->
  match others with
  | [] => True
  | second :: _ =>
      fle (textlength (join_word first second) f) (of_int box_width) = false
  end ->
  exists more,
    fallback_lines text box_width box_height f = "" :: first :: more
    /\ fgt (textlength first f) (of_int box_width) = true.
Proof.
  intros Hs Hwide Hml Hnext.
  pose proof (split_truthy text) as Hw. rewrite Hs in Hw.
  inversion Hw as [ | ? ? Hfirst _]; subst.
  apply fgt_true_fle in Hwide as Hnofit.
  unfold fallback_lines. cbv zeta. rewrite Hs.
  destruct (Z.eqb_spec (fallback_max_lines box_height) 0) as [E0 | _]; [lia | ].
  cbn [fallback_loop]. unfold join_word at 1. cbn [truthy append].
  rewrite Hnofit. cbn [List.length].
  destruct (Z.ltb_spec (Z.of_nat 0) (fallback_max_lines box_height)) as [_ | Hge]; [ | lia].
  cbn [app].
  destruct others as [ | second rest].
  - cbn [fallback_loop]. rewrite Hfirst. cbn [List.length andb].
    destruct (Z.ltb_spec (Z.of_nat 1) (fallback_max_lines box_height)) as [_ | Hge]; [ | lia].
    exists []. split; [reflexivity | exact Hwide].
  - cbn [fallback_loop]. rewrite Hnext. cbn [List.length].
    destruct (Z.ltb_spec (Z.of_nat 1) (fallback_max_lines box_height)) as [_ | Hge]; [ | lia].
    cbn [app].
    destruct (fallback_loop_prefix (fallback_max_lines box_height) rest [""; first] second)
      as [more Hm].
    destruct (fallback_loop _ _ _ _ _ _) as [wrapped current]. simpl in Hm. subst wrapped.
    destruct (truthy current && _).
    + exists (more ++ [current]). split; [reflexivity | exact Hwide].
    + exists more. split; [reflexivity | exact Hwide].
Qed.

End Fallback.

(** ** Font warnings *)

Section FontWarnings.

Hypothesis font_unavailable : font_file <> FontPresent.

Lemma load_font_unavailable (size : Z) :
  fst (load_font size) = DefaultFont /\ font_warnings (snd (load_font size)) = 1%nat.
Proof. unfold load_font. destruct font_file; [congruence | | ]; now split. Qed.

Lemma loads_warnings (sizes : list Z) :
  font_warnings (flat_map (fun s => snd (load_font s)) sizes) = List.length sizes.
Proof.
  induction sizes as [ | s rest IH]; [reflexivity | ].
  simpl. rewrite font_warnings_app, IH.
  now rewrite (proj2 (load_font_unavailable s)).
Qed.

(** C8, as the program has it.  When the font file is missing or corrupt,
    every call of [load_font] falls back to the default font and emits a
    warning of its own: one call of [wrap_text_and_find_font] returns the
    default font and emits one warning per size it tries, and one more for
    the fallback pass. *)
Theorem font_warning_per_load (text : string) (box_width box_height : Z) :
  fst (fst (wrap_text_and_find_font text box_width box_height)) = DefaultFont
  /\ ((exists before size after lines,
         candidate_sizes = before ++ size :: after
         /\ Forall (fun s => wrap_at_size text box_width box_height DefaultFont s = None)
                   before
         /\ wrap_at_size text box_width box_height DefaultFont size = Some lines
         /\ font_warnings (snd (wrap_text_and_find_font text box_width box_height))
            = S (List.length before))
      \/ (Forall (fun s => wrap_at_size text box_width box_height DefaultFont s = None)
                 candidate_sizes
          /\ font_warnings (snd (wrap_text_and_find_font text box_width box_height))
             = S (List.length candidate_sizes))).
Proof.
  assert (Hf : forall s, font_for s = DefaultFont)
    by (intros s; apply load_font_unavailable).
  unfold wrap_text_and_find_font. rewrite fst_bind, snd_bind.
  destruct (size_loop_spec text box_width box_height candidate_sizes)
    as [(before & size & after & lines & Hd & Hb & Hs & Hl) | [Hall Hl]];
    rewrite Hl; cbn [fst snd]; unfold pass_at, load_log in *.
  - split; [apply Hf | ]. left. exists before, size, after, lines.
    rewrite Hf in Hs. repeat split; auto.
    + eapply Forall_impl; [ | exact Hb]. intros s Hn. cbv beta in Hn. now rewrite Hf in Hn.
    + rewrite app_nil_r, loads_warnings, length_app. simpl. lia.
  - rewrite fst_bind, snd_bind. cbn [fst snd ret]. split; [apply load_font_unavailable | ].
    right. split.
    + eapply Forall_impl; [ | exact Hall]. intros s Hn. cbv beta in Hn. now rewrite Hf in Hn.
    + rewrite !font_warnings_app, loads_warnings, (proj2 (load_font_unavailable 12)).
      reflexivity.
Qed.

End FontWarnings.

(** ** The layout of a block *)

Section LayoutFacts.

Variable f : font.
Variables x1 y1 x2 y2 : Z.
Variable line_height : float.

Lemma reached_S (start : float) (k : nat) :
  reached y2 line_height start (S k)
  = reached y2 line_height start k
    && negb (fgt (y_at line_height start (S k)) (of_int y2)).
Proof.
  unfold reached. rewrite seq_S, forallb_app. simpl. now rewrite andb_true_r.
Qed.

Lemma reached_after_break (start : float) (k i : nat) :
  fgt (y_at line_height start (S k)) (of_int y2) = true ->
  (k < i)%nat ->
  reached y2 line_height start i = false.
Proof.
  intros Hgt Hlt. destruct (reached y2 line_height start i) eqn:E; [ | reflexivity].
  unfold reached in E. rewrite forallb_forall in E.
  assert (Hin : In k (seq 0 i)) by (apply in_seq; lia).
  apply E in Hin. rewrite Hgt in Hin. discriminate.
Qed.

Lemma flat_map_all_nil (A B : Type) (g : A -> list B) (l : list A) :
  (forall a, In a l -> g a = []) -> flat_map g l = [].
Proof.
  induction l as [ | a l IH]; intros H; [reflexivity | ].
  simpl. rewrite (H a (or_introl eq_refl)), IH; [reflexivity | ].
  intros b Hb. apply H. now right.
Qed.

Lemma draw_lines_log (start : float) (lines : list string) (k : nat) :
  reached y2 line_height start k = true ->
  snd (draw_lines f x1 x2 y2 line_height lines (y_at line_height start k))
  = flat_map (instruction_at f x1 x2 y2 line_height start)
      (combine (seq k (List.length lines)) lines).
Proof.
  revert k. induction lines as [ | line rest IH]; intros k Hk; [reflexivity | ].
  cbn [draw_lines List.length seq combine flat_map]. rewrite snd_bind.
  unfold instruction_at at 1. rewrite Hk, andb_true_r. f_equal.
  - now destruct (fle _ _).
  - change (fadd (y_at line_height start k) line_height) with (y_at line_height start (S k)).
    destruct (fgt (y_at line_height start (S k)) (of_int y2)) eqn:Egt.
    + symmetry. apply flat_map_all_nil. intros [i l] Hin.
      apply in_combine_l, in_seq in Hin. unfold instruction_at.
      rewrite (reached_after_break start k i Egt) by lia. now rewrite andb_false_r.
    + apply IH. rewrite reached_S, Hk, Egt. reflexivity.
Qed.

(** The loop on any lines and any line height, whether the search can
    return them or not.  The block starts at
    [max(y1, y1 + (box_height - lines.count * line_height) / 2)]; line [i]
    is placed at that [y] advanced [i] times by [line_height] and at
    [x = max(x1, x1 + (box_width - measure(line)) / 2)]; its instruction is
    issued exactly when [current_y + line_height <= y2 + 5] and no advance
    after an earlier line has taken [current_y] past [y2], where the loop
    stops. *)
Theorem layout_instructions (lines : list string) :
  let start :=
    pymax (of_int y1)
      (fadd (of_int y1)
         (fdiv (fsub (of_int (y2 - y1))
                  (fmul (of_int (Z.of_nat (List.length lines))) line_height))
            (of_int 2))) in
  snd (layout f x1 y1 x2 y2 line_height lines)
  = flat_map
      (fun entry : nat * string =>
         let '(i, line) := entry in
         let current_y := y_at line_height start i in
         if fle (fadd current_y line_height) (of_int (y2 + 5))
            && reached y2 line_height start i
         then [Draw (Text (pymax (of_int x1)
                             (fadd (of_int x1)
                                (fdiv (fsub (of_int (x2 - x1)) (textlength line f))
                                   (of_int 2))))
                       current_y line f)]
         else [])
      (combine (seq 0 (List.length lines)) lines).
Proof.
  intros start. unfold layout.
  change (start_y_of y1 y2 line_height lines) with (y_at line_height start 0).
  rewrite draw_lines_log by reflexivity. reflexivity.
Qed.

End LayoutFacts.

(** ** The layout on the lines the search returns *)

Section Reachable.

Variable f : font.
Variables x1 x2 y2 : Z.
Variable line_height : float.

Lemma flat_map_ext_in (A B : Type) (g h : A -> list B) (l : list A) :
  (forall a, In a l -> g a = h a) -> flat_map g l = flat_map h l.
Proof.
  induction l as [ | a l IH]; intros H; [reflexivity | ].
  simpl. rewrite (H a (or_introl eq_refl)), IH; [reflexivity | ].
  intros b Hb. apply H. now right.
Qed.

Lemma forallb_false (A : Type) (p : A -> bool) (l : list A) :
  forallb p l = false -> exists a, In a l /\ p a = false.
Proof.
  induction l as [ | a l IH]; simpl; [discriminate | ].
  destruct (p a) eqn:E.
  - intros H. destruct (IH H) as (b & Hb & Hp). exists b. split; [now right | exact Hp].
  - intros _. exists a. split; [now left | exact E].
Qed.

Lemma spec_instructions_log (start : float) (lines : list string) (k : nat) :
  spec_instructions f x1 x2 y2 line_height lines (y_at line_height start k)
  = flat_map
      (fun entry : nat * string =>
         let '(i, line) := entry in
         if fgt (y_at line_height start (S i)) (of_int (y2 + 5)) then []
         else [Draw (Text (draw_x_of f x1 x2 line) (y_at line_height start i) line f)])
      (combine (seq k (List.length lines)) lines).
Proof.
  revert k. induction lines as [ | line rest IH]; intros k; [reflexivity | ].
  cbn [spec_instructions List.length seq combine flat_map]. f_equal.
  apply (IH (S k)).
Qed.

(** The loop issues the calls of the specification's rule when every
    tolerance test is decided and, once an advance has passed [y2], no
    later line would pass the tolerance test. *)
Lemma layout_agrees (start : float) (lines : list string) :
  (forall i, (i < List.length lines)%nat ->
     fle (y_at line_height start (S i)) (of_int (y2 + 5))
     = negb (fgt (y_at line_height start (S i)) (of_int (y2 + 5)))) ->
  (forall j i, (j < i)%nat -> (i < List.length lines)%nat ->
     fgt (y_at line_height start (S j)) (of_int y2) = true ->
     fgt (y_at line_height start (S i)) (of_int (y2 + 5)) = true) ->
  snd (draw_lines f x1 x2 y2 line_height lines start)
  = spec_instructions f x1 x2 y2 line_height lines start.
Proof.
  intros Hdecided Hafter.
  change start with (y_at line_height start 0).
  rewrite draw_lines_log by reflexivity. rewrite spec_instructions_log.
  apply flat_map_ext_in. intros [i line] Hin.
  apply in_combine_l, in_seq in Hin. unfold instruction_at.
  change (fadd (y_at line_height start i) line_height)
    with (y_at line_height start (S i)).
  rewrite (Hdecided i ltac:(lia)).
  destruct (reached y2 line_height start i) eqn:Er.
  - rewrite andb_true_r. now destruct (fgt _ _).
  - rewrite andb_false_r.
    assert (Hj : exists j, (j < i)%nat
                           /\ fgt (y_at line_height start (S j)) (of_int y2) = true).
    { unfold reached in Er.
      destruct (forallb_false _ _ _ Er) as (j & Hj & Hgt).
      exists j. apply in_seq in Hj. split; [lia | ].
      now apply negb_false_iff in Hgt. }
    destruct Hj as (j & Hlt & Hgt).
    now rewrite (Hafter j i Hlt ltac:(lia) Hgt).
Qed.

End Reachable.

Section Advances.

Variables y1 y2 : Z.
Variable line_height : float.

Hypothesis y1_nonneg : 0 <= y1.
Hypothesis y_order : y1 < y2.
Hypothesis y2_small : y2 < 2 ^ 51.
Hypothesis line_height_valid : valid line_height.
Hypothesis line_height_nonneg : nonneg_float line_height.

Lemma start_y_facts (lines : list string) :
  valid (start_y_of y1 y2 line_height lines)
  /\ nonneg_float (start_y_of y1 y2 line_height lines).
Proof.
  unfold start_y_of. cbv zeta.
  destruct (of_int_spec y1 y1_nonneg) as (Va & Na & _).
  match goal with
  | |- valid (pymax ?a ?b) /\ _ =>
      destruct (pymax_facts a b Va (fadd_valid _ _ Va (fdiv_valid _ _)) Na)
        as (H1 & H2 & _)
  end.
  now split.
Qed.

Lemma y_at_facts (start : float) (i : nat) :
  valid start -> nonneg_float start ->
  valid (y_at line_height start i) /\ nonneg_float (y_at line_height start i).
Proof.
  intros Vs Ns. induction i as [ | i [IHv IHn]]; [now split | ].
  cbn [y_at].
  destruct (fadd_spec _ _ IHv line_height_valid IHn line_height_nonneg) as (H1 & H2 & _).
  now split.
Qed.

Lemma tolerance_decided (y : float) (K : Z) :
  nonneg_float y -> fle y (of_int K) = negb (fgt y (of_int K)).
Proof.
  intros Ny. pose proof (nonneg_not_nan y Ny) as Hy.
  pose proof (of_int_not_nan K) as HK.
  destruct (fgt y (of_int K)) eqn:E.
  - now apply fgt_true_fle.
  - now apply fgt_false_fle.
Qed.

(** With a line height of 5.5 pixels or more, every advance from above
    [y2] ends more than five pixels below [y2]. *)
Lemma tall_lines_after_break (start : float) (j i : nat) :
  valid start -> nonneg_float start ->
  at_least line_height (11 / 2) ->
  (j < i)%nat ->
  fgt (y_at line_height start (S j)) (of_int y2) = true ->
  fgt (y_at line_height start (S i)) (of_int (y2 + 5)) = true.
Proof.
  intros Vs Ns Hlh Hlt Hgt.
  destruct (of_int_exact y2 ltac:(lia)) as (VY & NY & LY & UY).
  destruct (of_int_exact (y2 + 5) ltac:(lia)) as (VT & NT & LT & UT).
  assert (Hrep : representable (IZR y2 + 11 / 2)).
  { replace (IZR y2 + 11 / 2)%R with (IZR (2 * y2 + 11) / 2)%R
      by (rewrite plus_IZR, mult_IZR; lra).
    apply representable_half. lia. }
  assert (Hstep : forall k, at_least (y_at line_height start k) (IZR y2) ->
            at_least (y_at line_height start (S k)) (IZR y2 + 11 / 2)).
  { intros k Hk. cbn [y_at].
    destruct (y_at_facts start k Vs Ns) as [Vk Nk].
    destruct (fadd_spec _ _ Vk line_height_valid Nk line_height_nonneg) as (_ & _ & Hb).
    apply (Hb _ (IZR y2) (11 / 2)%R Hrep); auto. lra. }
  assert (Hfrom : forall d, at_least (y_at line_height start (S j + d)) (IZR y2)).
  { induction d as [ | d IH].
    - rewrite Nat.add_0_r.
      destruct (y_at_facts start (S j) Vs Ns) as [Vk Nk].
      now apply (fgt_elim _ (of_int y2)).
    - replace (S j + S d)%nat with (S (S j + d)) by lia.
      apply (at_least_weaken _ _ _ (Hstep _ IH)). lra. }
  replace i with (S j + (i - S j))%nat by lia.
  destruct (y_at_facts start (S (S j + (i - S j))) Vs Ns) as [Vk Nk].
  apply (fgt_intro _ _ (IZR y2 + 11 / 2) (IZR (y2 + 5))); auto.
  rewrite plus_IZR. lra.
Qed.

(** With a line height of at most 5 pixels and room for five pixels a
    line below the middle of the box, no advance passes [y2]. *)
Lemma short_lines_no_break (lines : list string) (j : nat) :
  at_least line_height 1 -> at_most line_height 5 ->
  lines <> [] ->
  5 * Z.of_nat (List.length lines) + (y2 - y1 + 1) / 2 <= y2 - y1 ->
  (j < List.length lines)%nat ->
  fgt (y_at line_height (start_y_of y1 y2 line_height lines) (S j)) (of_int y2) = false.
Proof.
  intros Hlo Hhi Hne Hroom Hj.
  set (n := Z.of_nat (List.length lines)) in *.
  assert (Hn : 1 <= n) by (subst n; destruct lines; [congruence | simpl; lia]).
  set (bh := y2 - y1) in *.
  assert (Hq : 0 <= (bh + 1) / 2 <= bh /\ bh <= (bh + 1) / 2 * 2)
    by (Z.to_euclidean_division_equations; lia).
  set (q := (bh + 1) / 2) in *. clearbody q.
  set (U0 := y1 + q).
  destruct (of_int_exact y1 ltac:(lia)) as (Va & Na & La & Ua).
  destruct (of_int_exact y2 ltac:(lia)) as (VY & NY & LY & UY).
  destruct (of_int_exact bh ltac:(lia)) as (Vb & Nb & Lb & Ub).
  destruct (of_int_exact n ltac:(lia)) as (Vn & Nn & Ln & Un).
  destruct (of_int_exact 2 ltac:(lia)) as (V2 & N2 & L2 & U2).
  (* the start *)
  set (total := fmul (of_int n) line_height).
  assert (Htotal : nonneg_float total /\ at_most total (IZR (5 * n))).
  { destruct (fmul_spec (of_int n) line_height 1 Vn Nn line_height_nonneg) as (_ & Nt & Bt).
    - apply (at_least_weaken _ _ _ Ln). apply IZR_le. lia.
    - exact Hlo.
    - lra.
    - split; [exact Nt | ].
      apply (Bt _ (IZR n) 5%R (representable_int (5 * n) ltac:(lia))); auto.
      rewrite mult_IZR. lra. }
  destruct Htotal as [Nt Ut].
  set (d := fsub (of_int bh) total).
  assert (Hd : nonneg_float d /\ at_most d (IZR bh)).
  { destruct (at_most_at_least _ _ _ Ub Lb) as [Hb1 Hb2].
    destruct (fsub_spec (of_int bh) total (IZR bh) (IZR bh) Nb Nt Ub) as (_ & Nd & Ud).
    - apply (at_most_weaken _ _ _ Ut).
      assert (IZR (5 * n) <= IZR bh)%R by (apply IZR_le; lia). lra.
    - apply representable_int. lia.
    - lra.
    - exact Vb.
    - now split. }
  destruct Hd as [Nd Ud].
  set (h2 := fdiv d (of_int 2)).
  assert (Hh2 : nonneg_float h2 /\ at_most h2 (IZR q)).
  { apply (fdiv_spec d (of_int 2) (IZR bh) 2); auto; try lra.
    - apply representable_int. lia.
    - rewrite <- mult_IZR. apply IZR_le. lia. }
  destruct Hh2 as [Nh Uh].
  assert (Vh : valid h2) by apply fdiv_valid.
  set (X := fadd (of_int y1) h2).
  assert (HX : valid X /\ nonneg_float X /\ at_most X (IZR U0)).
  { destruct (fadd_spec (of_int y1) h2 Va Vh Na Nh) as (VX & NX & BX).
    split; [exact VX | split; [exact NX | ]].
    apply (BX _ (IZR y1) (IZR q) (representable_int U0 ltac:(lia))); auto.
    unfold U0. rewrite plus_IZR. lra. }
  destruct HX as (VX & NX & UX).
  set (start := start_y_of y1 y2 line_height lines).
  assert (Hstart : valid start /\ nonneg_float start /\ at_most start (IZR U0)).
  { destruct (start_y_facts lines) as [Vs Ns]. split; [exact Vs | split; [exact Ns | ]].
    unfold start, start_y_of. cbv zeta. fold n. fold bh. fold total. fold d. fold h2.
    fold X.
    unfold pymax. destruct (fgt X (of_int y1)); [exact UX | ].
    apply (at_most_weaken _ _ _ Ua). apply IZR_le. lia. }
  destruct Hstart as (Vs & Ns & Us).
  (* the advances *)
  assert (Hy : forall i, (i <= List.length lines)%nat ->
            at_most (y_at line_height start i) (IZR (U0 + 5 * Z.of_nat i))).
  { induction i as [ | i IH]; intros Hi.
    - simpl. now rewrite Z.add_0_r.
    - cbn [y_at]. destruct (y_at_facts start i Vs Ns) as [Vk Nk].
      destruct (fadd_spec _ _ Vk line_height_valid Nk line_height_nonneg) as (_ & _ & Hb).
      apply (Hb _ (IZR (U0 + 5 * Z.of_nat i)) 5%R
               (representable_int (U0 + 5 * Z.of_nat (S i)) ltac:(lia))); auto.
      + apply IH. lia.
      + rewrite <- plus_IZR. apply IZR_le. lia. }
  destruct (y_at_facts start (S j) Vs Ns) as [Vk Nk].
  apply (fgt_false_intro _ _ (IZR (U0 + 5 * Z.of_nat (S j))) (IZR y2) Vk VY Nk NY).
  - apply Hy. lia.
  - exact LY.
  - apply IZR_le. lia.
Qed.

End Advances.

(** ** Blocks without text *)

Section EmptyText.

Lemma split_space : split (block_text "") = [].
Proof. reflexivity. Qed.

(** A text without words comes back at once, with the font of size 40 and
    no lines. *)
Lemma wrap_no_words (text : string) (box_width box_height : Z) :
  split text = [] ->
  wrap_text_and_find_font text box_width box_height
  = (font_for 40, [], snd (load_font 40)).
Proof.
  intros Hs. unfold wrap_text_and_find_font.
  change candidate_sizes with (40 :: py_range 38 11 (-2)).
  cbn [size_loop]. unfold wrap_at_size at 1. rewrite Hs.
  rewrite !bind_pair. cbn [fst snd ret]. now rewrite !app_nil_r.
Qed.

(** C5, as the program has it.  An empty replacement text becomes a single
    space; a block with that text and a box of positive area is erased, no
    line of text is drawn in it, the could-not-fit warning is emitted, and
    nothing is raised. *)
Theorem empty_text_block (img_width img_height : Z) (b : block)
    (bbox : list (Z * Z)) (x1 y1 x2 y2 : Z) :
  blk_text b = block_text "" ->
  int_points (blk_bbox b) = Some bbox ->
  clamped_box img_width img_height bbox = Some (x1, y1, x2, y2) ->
  x1 < x2 ->
  y1 < y2 ->
  block_text "" = " "
  /\ process_block img_width img_height b
     = (Completed,
        Draw (Rectangle x1 y1 x2 y2) :: snd (load_font 40)
        ++ [Warn (CouldNotFit " " x1 y1 x2 y2)]).
Proof.
  intros Ht Hp Hc Hx Hy. split; [reflexivity | ].
  unfold process_block. rewrite Hp, Hc.
  destruct (Z.leb_spec (x2 - x1) 0) as [Hle | _]; [lia | ].
  destruct (Z.leb_spec (y2 - y1) 0) as [Hle | _]; [lia | ].
  cbn [orb]. rewrite Ht, wrap_no_words by apply split_space.
  rewrite !bind_pair. cbn [fst snd emit ret app]. now rewrite ?app_nil_r.
Qed.

End EmptyText.

(** ** Rendering twice *)

Section Idempotence.

Lemma paint_size (log : list event) (img : canvas) :
  width (paint img log) = width img /\ height (paint img log) = height img.
Proof.
  revert img. induction log as [ | e log IH]; intros img; [now split | ].
  unfold paint in *. simpl. destruct (IH (apply_event img e)) as [Hw Hh].
  rewrite Hw, Hh. now destruct e.
Qed.

Lemma paint_pixel (log : list event) (img : canvas) (x y : Z) :
  pixel (paint img log) x y
  = if in_image img x y then written x y log (pixel img x y) else pixel img x y.
Proof.
  revert img. induction log as [ | e log IH]; intros img.
  - simpl. now destruct (in_image img x y).
  - unfold paint in *. cbn [fold_left]. rewrite IH.
    assert (Hin : in_image (apply_event img e) x y = in_image img x y)
      by now destruct e.
    rewrite Hin. unfold written. cbn [fold_left].
    destruct e as [m | call]; [reflexivity | ].
    cbn [apply_event apply_call pixel].
    destruct (in_image img x y); reflexivity.
Qed.

Lemma rectangle_overwrites (x1 y1 x2 y2 x y : Z) :
  overwrites (rectangle_pixel x1 y1 x2 y2 x y).
Proof.
  unfold overwrites, rectangle_pixel.
  destruct ((x1 <=? x) && (x <=? x2) && (y1 <=? y) && (y <=? y2)); [right | now left].
  eexists. intros c. reflexivity.
Qed.

(** A log whose calls each overwrite a pixel overwrites it. *)
Lemma written_overwrites (x y : Z) (log : list event) :
  (forall call, In (Draw call) log -> overwrites (call_pixel call x y)) ->
  overwrites (written x y log).
Proof.
  induction log as [ | e log IH]; intros Hcalls; [now left | ].
  unfold written in *. cbn [fold_left].
  destruct IH as [Hid | [k Hk]];
    [intros call Hin; apply Hcalls; now right | | right; exists k; intros c; apply Hk].
  destruct e as [m | call]; [left; intros c; apply Hid | ].
  destruct (Hcalls call (or_introl eq_refl)) as [Hc | [k Hk]].
  - left. intros c. now rewrite Hid, Hc.
  - right. exists k. intros c. now rewrite Hid, Hk.
Qed.

Lemma written_app (x y : Z) (log1 log2 : list event) (c : colour) :
  written x y (log1 ++ log2) c = written x y log2 (written x y log1 c).
Proof. unfold written. apply fold_left_app. Qed.

Lemma overwrites_app (x y : Z) (log1 log2 : list event) :
  overwrites (written x y log1) -> overwrites (written x y log2) ->
  overwrites (written x y (log1 ++ log2)).
Proof.
  intros H1 [Hid | [k Hk]].
  - destruct H1 as [Hid1 | [k Hk]].
    + left. intros c. now rewrite written_app, Hid, Hid1.
    + right. exists k. intros c. now rewrite written_app, Hid, Hk.
  - right. exists k. intros c. now rewrite written_app, Hk.
Qed.

(** The log of a block holds warnings only, or starts with the rectangle
    that erases the box. *)
Lemma process_block_log_shape (img_width img_height : Z) (b : block) :
  (forall call, ~ In (Draw call) (snd (process_block img_width img_height b)))
  \/ (exists x1 y1 x2 y2 rest,
        snd (process_block img_width img_height b)
        = Draw (Rectangle x1 y1 x2 y2) :: rest).
Proof.
  unfold process_block.
  destruct (int_points (blk_bbox b)) as [pts | ].
  2: { left. intros call [H | []]. discriminate. }
  destruct (clamped_box img_width img_height pts) as [[[[x1 y1] x2] y2] | ].
  2: { left. intros call []. }
  destruct ((x2 - x1 <=? 0) || (y2 - y1 <=? 0)).
  { left. intros call [H | []]. discriminate. }
  right. exists x1, y1, x2, y2. rewrite snd_bind. cbn [snd emit app].
  eexists. reflexivity.
Qed.

(** What one block writes at a pixel, when its text paints opaquely or
    stays in its box. *)
Lemma block_overwrites (img_width img_height : Z) (b : block) (x y : Z) :
  text_opaque \/ text_in_box img_width img_height b ->
  overwrites (written x y (snd (process_block img_width img_height b))).
Proof.
  intros [Hopaque | Hbox].
  { apply written_overwrites. intros [x1 y1 x2 y2 | tx ty line f] _.
    - apply rectangle_overwrites.
    - apply Hopaque. }
  destruct (process_block_log_shape img_width img_height b)
    as [Hnone | (x1 & y1 & x2 & y2 & rest & Hlog)].
  { apply written_overwrites. intros call Hin. now apply Hnone in Hin. }
  destruct (covers x1 y1 x2 y2 x y) eqn:Ecov.
  - right. rewrite Hlog. unfold written. cbn [fold_left call_pixel].
    unfold rectangle_pixel. unfold covers in Ecov. rewrite Ecov.
    eexists. intros c. reflexivity.
  - apply written_overwrites. intros [x1' y1' x2' y2' | tx ty line f] Hin.
    + apply rectangle_overwrites.
    + left. intros c. apply (Hbox x1 y1 x2 y2); [ | exact Hin | exact Ecov].
      rewrite Hlog. now left.
Qed.

Lemma render_blocks_overwrites (img_width img_height : Z) (blocks : list block)
    (x y : Z) :
  text_opaque \/ (forall b, In b blocks -> text_in_box img_width img_height b) ->
  overwrites (written x y (snd (render_blocks img_width img_height blocks))).
Proof.
  intros H. induction blocks as [ | b rest IH]; [now left | ].
  cbn [render_blocks]. rewrite snd_bind. apply overwrites_app.
  - apply block_overwrites. destruct H as [H | H]; [now left | right].
    apply H. now left.
  - destruct (fst (process_block img_width img_height b)); [ | now left].
    apply IH. destruct H as [H | H]; [now left | right].
    intros b' Hin. apply H. now right.
Qed.

(** C7, as the program has it. Rendering the same blocks a second time, on
    the canvas the first rendering left, changes no pixel (the image keeps
    its size and [overlay (overlay img)] has the pixels of [overlay img])
    provided that [draw.text] paints opaquely, or that the text of every
    block stays in the box the block erased. *)
Theorem overlay_idempotent (blocks : list block) (img : canvas) :
  text_opaque
  \/ (forall b, In b blocks -> text_in_box (width img) (height img) b) ->
  width (overlay blocks (overlay blocks img)) = width (overlay blocks img)
  /\ height (overlay blocks (overlay blocks img)) = height (overlay blocks img)
  /\ forall x y,
       pixel (overlay blocks (overlay blocks img)) x y
       = pixel (overlay blocks img) x y.
Proof.
  intros Htext. unfold overlay.
  set (log := snd (render_blocks (width img) (height img) blocks)).
  destruct (paint_size log img) as [Hw Hh]. rewrite Hw, Hh. fold log.
  destruct (paint_size log (paint img log)) as [Hw' Hh'].
  split; [congruence | split; [congruence | ]].
  intros x y. rewrite (paint_pixel log (paint img log)), (paint_pixel log img).
  assert (Hin : in_image (paint img log) x y = in_image img x y)
    by (unfold in_image; now rewrite Hw, Hh).
  rewrite Hin. destruct (in_image img x y); [ | reflexivity].
  destruct (render_blocks_overwrites (width img) (height img) blocks x y Htext)
    as [Hid | [c' Hc]]; fold log in Hid || fold log in Hc.
  - now rewrite !Hid.
  - now rewrite !Hc.
Qed.

End Idempotence.

(** ** Splitting, stripping and joining *)

Lemma append_empty_r (s : string) : (s ++ "")%string = s.
Proof. induction s as [ | c s IH]; simpl; [reflexivity | now rewrite IH]. Qed.

Lemma append_assoc (a b c : string) : ((a ++ b) ++ c)%string = (a ++ b ++ c)%string.
Proof. induction a as [ | x a IH]; simpl; [reflexivity | now rewrite IH]. Qed.

Lemma no_space_app (a b : string) :
  no_space (a ++ b) = no_space a && no_space b.
Proof.
  induction a as [ | c a IH]; simpl; [reflexivity | ].
  now rewrite IH, andb_assoc.
Qed.

Lemma truthy_app_r (a b : string) : truthy b = true -> truthy (a ++ b) = true.
Proof. destruct a; simpl; auto. Qed.

Lemma split_from_nonempty (s cur : string) :
  truthy cur = true -> split_from cur s <> [].
Proof.
  revert cur. induction s as [ | c s IH]; intros cur H; simpl.
  - rewrite H. discriminate.
  - destruct (is_space c); [rewrite H; discriminate | ].
    apply IH, truthy_app_r. reflexivity.
Qed.

Lemma split_from_no_space (s cur : string) :
  no_space cur = true ->
  Forall (fun w => no_space w = true) (split_from cur s).
Proof.
  revert cur. induction s as [ | c s IH]; intros cur H; simpl.
  - destruct (truthy cur); auto.
  - destruct (is_space c) eqn:E.
    + destruct (truthy cur); [constructor; [exact H | ] | ]; now apply IH.
    + apply IH. rewrite no_space_app, H. simpl. now rewrite E.
Qed.

(** A word on its own splits into itself. *)
Lemma split_from_word (w cur s : string) :
  no_space w = true ->
  split_from cur (w ++ s) = split_from (cur ++ w) s.
Proof.
  revert cur. induction w as [ | c w IH]; intros cur H; simpl.
  - now rewrite append_empty_r.
  - simpl in H. apply andb_prop in H. destruct H as [Hc Hw].
    apply negb_true_iff in Hc. rewrite Hc, IH by exact Hw.
    now rewrite append_assoc.
Qed.

Lemma split_word (w : string) :
  truthy w = true -> no_space w = true -> split w = [w].
Proof.
  intros Ht Hn. unfold split.
  rewrite <- (append_empty_r w) at 1. rewrite split_from_word by exact Hn.
  simpl. now rewrite Ht.
Qed.

(** Splitting across a whitespace character. *)
Lemma split_from_space (l r cur : string) (sp : ascii) :
  is_space sp = true ->
  split_from cur (l ++ String sp r) = split_from cur l ++ split_from "" r.
Proof.
  intros Hsp. revert cur. induction l as [ | c l IH]; intros cur; simpl.
  - rewrite Hsp. now destruct (truthy cur).
  - destruct (is_space c); [ | apply IH].
    destruct (truthy cur); simpl; now rewrite IH.
Qed.

(** Joining a word to a line adds that word, and nothing else, to the words
    of the line. *)
Lemma split_join_word (current_line word : string) :
  truthy word = true -> no_space word = true ->
  split (join_word current_line word) = split current_line ++ [word].
Proof.
  intros Ht Hn. unfold join_word. destruct (truthy current_line) eqn:E.
  - unfold split.
    change (current_line ++ " " ++ word)%string
      with (current_line ++ String " " word)%string.
    rewrite (split_from_space current_line word "" " ") by reflexivity.
    f_equal. now apply split_word.
  - destruct current_line; [ | discriminate]. simpl. now apply split_word.
Qed.

Lemma split_lstrip (s : string) : split (lstrip s) = split s.
Proof.
  unfold split. induction s as [ | c s IH]; simpl; [reflexivity | ].
  destruct (is_space c) eqn:E; [exact IH | ]. simpl. now rewrite E.
Qed.

Lemma split_from_rstrip (s cur : string) :
  split_from cur (rstrip s) = split_from cur s.
Proof.
  revert cur. induction s as [ | c s IH]; intros cur; [reflexivity | ].
  cbn [rstrip]. destruct (rstrip s) as [ | k kept] eqn:Er.
  - destruct (is_space c) eqn:E; cbn [split_from]; rewrite E.
    + rewrite <- (IH ""). simpl. now destruct (truthy cur).
    + now rewrite <- IH.
  - cbn [split_from]. destruct (is_space c); [ | now rewrite <- IH].
    destruct (truthy cur); now rewrite <- IH.
Qed.

(** [strip] removes nothing that [split] keeps. *)
Lemma split_strip (s : string) : split (strip s) = split s.
Proof.
  unfold strip, split. rewrite split_from_rstrip. apply split_lstrip.
Qed.

Lemma lstrip_head (s : string) :
  match lstrip s with
  | EmptyString => True
  | String c _ => is_space c = false
  end.
Proof.
  induction s as [ | c s IH]; simpl; [exact I | ].
  destruct (is_space c) eqn:E; [exact IH | exact E].
Qed.

Lemma rstrip_head (c : ascii) (s : string) :
  is_space c = false -> exists kept, rstrip (String c s) = String c kept.
Proof.
  intros E. cbn [rstrip]. destruct (rstrip s) as [ | k kept]; rewrite ?E; eauto.
Qed.

(** A text strips to the empty string exactly when it has no words. *)
Lemma strip_empty_iff (s : string) : truthy (strip s) = false <-> split s = [].
Proof.
  split.
  - intros H. rewrite <- split_strip. destruct (strip s); [reflexivity | discriminate].
  - intros H. rewrite <- split_strip in H. unfold strip in *.
    pose proof (lstrip_head s) as Hh. destruct (lstrip s) as [ | c rest]; [reflexivity | ].
    destruct (rstrip_head c rest Hh) as [kept Hk]. rewrite Hk in *.
    exfalso. unfold split in H. cbn [split_from] in H. rewrite Hh in H.
    revert H. now apply split_from_nonempty.
Qed.

(** ** What wrapping does to the words *)

Section WordsKept.

Variable text : string.
Variables box_width box_height : Z.
Variable f : font.

Lemma split_no_space : Forall (fun w => no_space w = true) (split text).
Proof. now apply split_from_no_space. Qed.

(** While the loop runs on, the words of the closed lines and of
    [current_line] are the words taken so far. *)
Lemma word_loop_words (max_lines : Z) (words wrapped_lines : list string)
    (current_line : string) :
  Forall (fun w => truthy w = true) words ->
  Forall (fun w => no_space w = true) words ->
  match word_loop box_width f max_lines words wrapped_lines current_line with
  | (wrapped_lines', current_line', Exhausted) =>
      List.concat (map split wrapped_lines') ++ split current_line'
      = List.concat (map split wrapped_lines) ++ split current_line ++ words
  | _ => True
  end.
Proof.
  revert wrapped_lines current_line.
  induction words as [ | word rest IH]; intros wrapped_lines current_line Ht Hn; simpl.
  - now rewrite app_nil_r.
  - inversion Ht as [ | ? ? Htw Htr]; inversion Hn as [ | ? ? Hnw Hnr]; subst.
    destruct (fle _ _).
    + specialize (IH wrapped_lines (join_word current_line word) Htr Hnr).
      destruct (word_loop _ _ _ _ _ _) as [[w c] [ | | ]]; auto.
      rewrite IH, split_join_word by assumption. now rewrite <- app_assoc.
    + destruct (max_lines <=? _); [exact I | ].
      destruct (fgt _ _); [exact I | ].
      specialize (IH (wrapped_lines ++ [current_line]) word Htr Hnr).
      destruct (word_loop _ _ _ _ _ _) as [[w c] [ | | ]]; auto.
      rewrite IH, map_app, concat_app, split_word by assumption.
      simpl. now rewrite app_nil_r, <- !app_assoc.
Qed.

(** A pass that returns lines loses no word, repeats none and keeps their
    order: splitting the lines again gives the words of the text. *)
Theorem pass_keeps_words (size : Z) (lines : list string) :
  wrap_at_size text box_width box_height f size = Some lines ->
  List.concat (map split lines) = split text.
Proof.
  intros H.
  destruct (wrap_at_size_some _ _ _ _ _ _ H) as [[-> ->] | (w & c & Hloop & _ & -> & _)];
    [reflexivity | ].
  pose proof (word_loop_words (max_lines_at size box_height) (split text) [] ""
                (split_truthy text) split_no_space) as Hw.
  rewrite Hloop in Hw. rewrite map_app, concat_app. simpl. rewrite app_nil_r. exact Hw.
Qed.

Lemma fallback_loop_words (max_lines : Z) (words wrapped_lines : list string)
    (current_line : string) :
  Forall (fun w => truthy w = true) words ->
  Forall (fun w => no_space w = true) words ->
  exists dropped,
    List.concat (map split (fst (fallback_loop box_width f max_lines words
                              wrapped_lines current_line)))
    ++ split (snd (fallback_loop box_width f max_lines words
                     wrapped_lines current_line))
    ++ dropped
    = List.concat (map split wrapped_lines) ++ split current_line ++ words.
Proof.
  revert wrapped_lines current_line.
  induction words as [ | word rest IH]; intros wrapped_lines current_line Ht Hn; simpl.
  - exists []. reflexivity.
  - inversion Ht as [ | ? ? Htw Htr]; inversion Hn as [ | ? ? Hnw Hnr]; subst.
    destruct (fle _ _).
    + destruct (IH wrapped_lines (join_word current_line word) Htr Hnr) as [d Hd].
      exists d. rewrite Hd, split_join_word by assumption. now rewrite <- app_assoc.
    + destruct (_ <? _).
      * destruct (IH (wrapped_lines ++ [current_line]) word Htr Hnr) as [d Hd].
        exists d. rewrite Hd, map_app, concat_app, split_word by assumption.
        simpl. now rewrite app_nil_r, <- !app_assoc.
      * exists (split current_line ++ word :: rest). reflexivity.
Qed.

(** The fallback pass only truncates: its lines hold the first words of the
    text, in order, and what it leaves out are the words after them. *)
Theorem fallback_truncates :
  exists dropped,
    List.concat (map split (fallback_lines text box_width box_height f)) ++ dropped
    = split text.
Proof.
  unfold fallback_lines. cbv zeta.
  pose proof (split_truthy text) as Ht. pose proof split_no_space as Hn.
  destruct (split text) as [ | w0 ws] eqn:Es; [now exists [] | ].
  destruct (fallback_max_lines box_height =? 0); [now exists (w0 :: ws) | ].
  destruct (fallback_loop_words (fallback_max_lines box_height) (w0 :: ws) [] "" Ht Hn)
    as [d Hd].
  destruct (fallback_loop _ _ _ _ _ _) as [w c]. cbn [fst snd] in Hd. simpl in Hd.
  destruct (truthy c && _).
  - exists d. rewrite <- Hd.
    assert (E : forall l : list string, match l with [] => [] | _ :: _ => l end = l)
      by now destruct l.
    rewrite E, map_app, concat_app. simpl. now rewrite app_nil_r, <- app_assoc.
  - exists (split c ++ d). rewrite <- Hd. now destruct w.
Qed.

Lemma fallback_loop_lines (max_lines : Z) (words wrapped_lines : list string)
    (current_line : string) :
  incl words (split text) ->
  Forall (fallback_line_ok text box_width f) wrapped_lines ->
  fallback_line_ok text box_width f current_line ->
  Forall (fallback_line_ok text box_width f)
    (fst (fallback_loop box_width f max_lines words wrapped_lines current_line))
  /\ fallback_line_ok text box_width f
       (snd (fallback_loop box_width f max_lines words wrapped_lines current_line)).
Proof.
  revert wrapped_lines current_line.
  induction words as [ | word rest IH]; intros wrapped_lines current_line Hi Hw Hc; simpl.
  - now split.
  - assert (Hrest : incl rest (split text)) by (intros x Hx; apply Hi; now right).
    destruct (fle _ _) eqn:E.
    + apply IH; auto. right. now left.
    + destruct (_ <? _).
      * apply IH; auto.
        -- apply Forall_app. split; [exact Hw | now constructor].
        -- right. right. apply Hi. now left.
      * split; [exact Hw | now left].
Qed.

(** In the fallback pass only a word standing alone on its line can be
    wider than the box. *)
Theorem fallback_overflow_single_words :
  Forall (fun line => line = ""
                      \/ fle (textlength line f) (of_int box_width) = true
                      \/ In line (split text))
         (fallback_lines text box_width box_height f).
Proof.
  unfold fallback_lines. cbv zeta.
  destruct (split text) as [ | w0 ws] eqn:Es; [constructor | ].
  destruct (fallback_max_lines box_height =? 0); [constructor | ].
  destruct (fallback_loop_lines (fallback_max_lines box_height) (w0 :: ws) [] "")
    as [Hw Hc].
  - rewrite Es. apply incl_refl.
  - constructor.
  - now left.
  - unfold fallback_line_ok in *. rewrite Es in *.
    destruct (fallback_loop _ _ _ _ _ _) as [w c]. cbn [fst snd] in *.
    assert (E : forall l : list string, match l with [] => [] | _ :: _ => l end = l)
      by now destruct l.
    rewrite E. destruct (truthy c && _); [ | exact Hw].
    apply Forall_app. split; [exact Hw | now constructor].
Qed.

End WordsKept.

(** ** When the search returns lines, and what it logs *)

Section Returned.

Variable text : string.
Variables box_width box_height : Z.

Lemma fallback_loop_some (f : font) (max_lines : Z) (words wrapped_lines : list string)
    (current_line : string) :
  1 <= max_lines ->
  Forall (fun w => truthy w = true) words ->
  wrapped_lines <> [] \/ truthy current_line = true \/ words <> [] ->
  fst (fallback_loop box_width f max_lines words wrapped_lines current_line) <> []
  \/ truthy (snd (fallback_loop box_width f max_lines words wrapped_lines current_line))
     = true.
Proof.
  intros Hml. revert wrapped_lines current_line.
  induction words as [ | word rest IH]; intros wrapped_lines current_line Ht H; simpl.
  - destruct H as [H | [H | H]]; [now left | now right | congruence].
  - inversion Ht as [ | ? ? Htw Htr]; subst.
    destruct (fle _ _).
    + apply IH; [exact Htr | ]. right. left. now apply truthy_join_word.
    + destruct (Z.ltb_spec (Z.of_nat (List.length wrapped_lines)) max_lines) as [Hlt | Hge].
      * apply IH; [exact Htr | ]. left. now destruct wrapped_lines.
      * left. simpl. destruct wrapped_lines; [simpl in Hge; lia | discriminate].
Qed.

Lemma fallback_lines_some (f : font) :
  split text <> [] ->
  1 <= fallback_max_lines box_height ->
  fallback_lines text box_width box_height f <> [].
Proof.
  intros Hs Hml. unfold fallback_lines. cbv zeta.
  pose proof (split_truthy text) as Ht.
  destruct (split text) as [ | w0 ws] eqn:Es; [congruence | ].
  destruct (Z.eqb_spec (fallback_max_lines box_height) 0) as [E0 | _]; [lia | ].
  destruct (fallback_loop_some f (fallback_max_lines box_height) (w0 :: ws) [] "" Hml Ht)
    as [H | H]; [right; right; discriminate | | ];
    destruct (fallback_loop _ _ _ _ _ _) as [w c]; cbn [fst snd] in H.
  - destruct (truthy c && _); [ | now destruct w].
    destruct w; [congruence | discriminate].
  - rewrite H. cbn [andb].
    destruct (Z.ltb_spec (Z.of_nat (List.length w)) (fallback_max_lines box_height))
      as [Hlt | Hge].
    + destruct w; discriminate.
    + destruct w; [simpl in Hge; lia | discriminate].
Qed.

(** For a text with at least one word the search returns at least one line,
    unless not even one line of size 12 fits the height of the box. *)
Theorem search_returns_lines :
  split text <> [] ->
  1 <= fallback_max_lines box_height ->
  snd (fst (wrap_text_and_find_font text box_width box_height)) <> [].
Proof.
  intros Hs Hml. unfold wrap_text_and_find_font. rewrite fst_bind.
  destruct (size_loop_spec text box_width box_height candidate_sizes)
    as [(before & size & after & lines & _ & _ & Hp & Hl) | [_ Hl]]; rewrite Hl; cbn [fst snd ret].
  - unfold pass_at in Hp.
    destruct (wrap_at_size_some _ _ _ _ _ _ Hp) as [[E _] | (w & c & _ & _ & -> & _)];
      [congruence | ].
    destruct w; discriminate.
  - rewrite fst_bind. cbn [fst snd ret]. now apply fallback_lines_some.
Qed.

Lemma load_font_log (size : Z) :
  Forall (fun e => is_font_warning e = true) (snd (load_font size))
  /\ (List.length (snd (load_font size)) <= 1)%nat
  /\ (font_file = FontPresent -> snd (load_font size) = []).
Proof.
  unfold load_font. destruct font_file; simpl; repeat split; auto; try discriminate.
Qed.

Lemma load_log_facts (sizes : list Z) :
  Forall (fun e => is_font_warning e = true) (load_log sizes)
  /\ (List.length (load_log sizes) <= List.length sizes)%nat
  /\ (font_file = FontPresent -> load_log sizes = []).
Proof.
  induction sizes as [ | s rest (IH1 & IH2 & IH3)]; [repeat split; auto; constructor | ].
  unfold load_log in *. cbn [flat_map]. destruct (load_font_log s) as (H1 & H2 & H3).
  repeat split.
  - apply Forall_app. now split.
  - rewrite length_app. simpl. lia.
  - intros Hp. now rewrite H3, IH3.
Qed.

Lemma wrap_log_facts :
  Forall (fun e => is_font_warning e = true)
         (snd (wrap_text_and_find_font text box_width box_height))
  /\ (List.length (snd (wrap_text_and_find_font text box_width box_height)) <= 16)%nat
  /\ (font_file = FontPresent ->
      snd (wrap_text_and_find_font text box_width box_height) = []
      /\ exists size, In size candidate_sizes
                      /\ fst (fst (wrap_text_and_find_font text box_width box_height))
                         = TrueType size).
Proof.
  unfold wrap_text_and_find_font. rewrite snd_bind, fst_bind.
  destruct (size_loop_spec text box_width box_height candidate_sizes)
    as [(before & size & after & lines & Hd & _ & _ & Hl) | [_ Hl]]; rewrite Hl; cbn [fst snd ret].
  - destruct (load_log_facts (before ++ [size])) as (H1 & H2 & H3).
    rewrite app_nil_r. repeat split; auto.
    + assert (Hlen : (List.length (before ++ [size]) <= 15)%nat).
      { apply (f_equal (@List.length Z)) in Hd. rewrite !length_app in *.
        simpl in *. lia. }
      lia.
    + exists size. split.
      * rewrite Hd. apply in_or_app. right. now left.
      * unfold font_for, load_font. now rewrite H.
  - rewrite snd_bind, fst_bind. cbn [fst snd ret]. rewrite app_nil_r.
    destruct (load_log_facts candidate_sizes) as (H1 & H2 & H3).
    destruct (load_font_log 12) as (K1 & K2 & K3).
    repeat split.
    + apply Forall_app. now split.
    + rewrite length_app. change (List.length candidate_sizes) with 15%nat in H2. lia.
    + now rewrite H3, K3.
    + exists 12. split; [rewrite candidate_sizes_eq; simpl; tauto | ].
      unfold load_font. now rewrite H.
Qed.

(** One call of [wrap_text_and_find_font] logs font warnings only, at most
    sixteen of them (one per font loaded), and none when the font file is
    there; the font it then returns is the TrueType font of a candidate
    size. *)
Theorem search_log :
  Forall (fun e => is_font_warning e = true)
         (snd (wrap_text_and_find_font text box_width box_height))
  /\ (List.length (snd (wrap_text_and_find_font text box_width box_height)) <= 16)%nat
  /\ (font_file = FontPresent ->
      snd (wrap_text_and_find_font text box_width box_height) = []
      /\ exists size, In size candidate_sizes
                      /\ fst (fst (wrap_text_and_find_font text box_width box_height))
                         = TrueType size).
Proof. exact wrap_log_facts. Qed.

End Returned.

(** ** The layout, end to end *)

Section LayoutEndToEnd.

Lemma candidate_sizes_range (size : Z) : In size candidate_sizes -> 12 <= size <= 40.
Proof.
  intros H. change candidate_sizes
    with [40; 38; 36; 34; 32; 30; 28; 26; 24; 22; 20; 18; 16; 14; 12] in H.
  simpl in H. lia.
Qed.

(** Each of the lines that fit takes 14 pixels of the height at least, so
    five pixels a line fit below the middle of the box. *)
Lemma max_lines_room (size box_height : Z) :
  In size candidate_sizes -> 0 <= box_height < 2 ^ 51 ->
  1 <= max_lines_at size box_height ->
  5 * max_lines_at size box_height + (box_height + 1) / 2 <= box_height.
Proof.
  intros Hs Hh Hn. destruct (Z.leb_spec box_height 40) as [Hsmall | Hbig].
  - assert (Hall : forallb
                     (fun s => forallb
                                 (fun h => (max_lines_at s (Z.of_nat h) <? 1)
                                           || (5 * max_lines_at s (Z.of_nat h)
                                               + (Z.of_nat h + 1) / 2 <=? Z.of_nat h))
                                 (seq 0 41))
                     candidate_sizes = true)
      by (vm_compute; reflexivity).
    rewrite forallb_forall in Hall. specialize (Hall size Hs).
    rewrite forallb_forall in Hall. specialize (Hall (Z.to_nat box_height)).
    rewrite Z2Nat.id in Hall by lia.
    specialize (Hall ltac:(apply in_seq; lia)).
    apply orb_true_iff in Hall. destruct Hall as [H | H].
    + apply Z.ltb_lt in H. lia.
    + now apply Z.leb_le in H.
  - pose proof (candidate_sizes_range size Hs) as Hsize.
    assert (Hle : max_lines_at size box_height <= (box_height + 13) / 14).
    { unfold max_lines_at, line_height_approx.
      destruct f1_2_facts as (Vf & Nf & Lf & Uf).
      destruct (of_int_spec size ltac:(lia)) as (Vk & Nk & Bk).
      assert (L1 : at_least (of_int size) 12).
      { apply (Bk 12%R (representable_int 12 ltac:(lia))). apply IZR_le. lia. }
      destruct (fmul_spec (of_int size) f1_2 (119 / 100) Vk Nk Nf
                  (at_least_weaken (of_int size) 12 1 L1 ltac:(lra)) Lf ltac:(lra))
        as (Vl & Nl & Bl).
      assert (L14 : at_least (fmul (of_int size) f1_2) 14).
      { apply (Bl 14%R 12%R (119 / 100)%R (representable_int 14 ltac:(lia))); auto; lra. }
      destruct (of_int_exact box_height ltac:(lia)) as (Vb & Nb & Lb & Ub).
      assert (Hq : 0 <= (box_height + 13) / 14 < 2 ^ 53
                   /\ box_height <= (box_height + 13) / 14 * 14)
        by (Z.to_euclidean_division_equations; lia).
      destruct (fdiv_spec (of_int box_height) (fmul (of_int size) f1_2)
                  (IZR box_height) 14 (IZR ((box_height + 13) / 14)) Nb Nl Ub L14)
        as [Nq Uq].
      - lra.
      - apply representable_int. lia.
      - rewrite <- mult_IZR. apply IZR_le. lia.
      - now apply int_of_float_le. }
    Z.to_euclidean_division_equations; lia.
Qed.

(** A product with 1.2 that is not positive: the line height the program
    then replaces. *)
Lemma nonpositive_line_height (k : Z) :
  k <= 0 -> fle (fmul (of_int k) f1_2) (of_int 0) = true.
Proof.
  intros Hk. destruct k as [ | p | p]; [reflexivity | lia | ].
  unfold of_int, binary_normalize, binary_round.
  destruct (shl_align p 0 _) as [mz ez].
  destruct (binary_round_aux_cases true (Zpos mz) ez loc_Exact)
    as [H | [H | [[m [e H]] | [_ H]]]]; simpl in H; try lia; rewrite H;
    try reflexivity.
  unfold fmul, f1_2. cbn [SFmul xorb].
  destruct (binary_round_aux_cases true (Zpos (m * 5404319552844595)) (e + -52) loc_Exact)
    as [H' | [H' | [[m' [e' H']] | [_ H']]]]; simpl in H'; try lia; rewrite H';
    reflexivity.
Qed.

(** The line height of lines 294-302 is [k * 1.2] for a positive integer
    [k]: the height of a capital A, or else the font size. *)
Lemma line_height_form (fnt : font) (line_height : float) :
  (forall s, font_size fnt = Some s -> 1 <= s) ->
  line_height_of fnt = Some line_height ->
  exists k, 1 <= k /\ line_height = fmul (of_int k) f1_2.
Proof.
  intros Hsize. unfold line_height_of. cbv zeta.
  assert (Hfrom : option_map (fun s => fmul (of_int s) f1_2) (font_size fnt)
                  = Some line_height ->
                  exists k, 1 <= k /\ line_height = fmul (of_int k) f1_2).
  { destruct (font_size fnt) as [s | ]; [ | discriminate].
    intros [= <-]. exists s. split; [now apply Hsize | reflexivity]. }
  destruct (getbbox_A fnt) as [[top bottom] | ]; [ | exact Hfrom].
  destruct (fle (fmul (of_int (bottom - top)) f1_2) (of_int 0)) eqn:E; [exact Hfrom | ].
  intros [= <-]. exists (bottom - top). split; [ | reflexivity].
  destruct (Z.leb_spec 1 (bottom - top)) as [H | H]; [exact H | exfalso].
  rewrite nonpositive_line_height in E by lia. discriminate.
Qed.

(** What the search returns: the font of a candidate size, and no more
    lines than fit the box at that size. *)
Lemma wrap_result_count (text : string) (box_width box_height : Z)
    (fnt : font) (lines : list string) :
  0 <= box_height ->
  fst (wrap_text_and_find_font text box_width box_height) = (fnt, lines) ->
  exists size, In size candidate_sizes /\ fnt = font_for size
               /\ Z.of_nat (List.length lines) <= max_lines_at size box_height.
Proof.
  intros Hh. unfold wrap_text_and_find_font. rewrite fst_bind.
  destruct (size_loop_spec text box_width box_height candidate_sizes)
    as [(before & size & after & lines' & Hd & _ & Hs & Hl) | [_ Hl]]; rewrite Hl;
    cbn [fst ret].
  - intros [= <- <-]. exists size.
    assert (Hin : In size candidate_sizes)
      by (rewrite Hd; apply in_or_app; right; now left).
    split; [exact Hin | split; [reflexivity | ]].
    pose proof (candidate_sizes_range size Hin) as Hr.
    unfold pass_at in Hs.
    destruct (wrap_at_size_some _ _ _ _ _ _ Hs) as [[_ ->] | (w & c & _ & _ & _ & Hlen)].
    + apply max_lines_at_nonneg; lia.
    + exact Hlen.
  - rewrite fst_bind. cbn [fst ret]. intros [= <- <-]. exists 12.
    split; [rewrite candidate_sizes_eq; simpl; tauto | split; [reflexivity | ]].
    rewrite <- fallback_max_lines_eq. now apply fallback_lines_length.
Qed.

(** C6. For the font and the lines the search returns for a box, and the
    line height the program takes from that font, the loop of lines
    305-320 issues the draw calls of the specification: the block starts
    at [max(y1, y1 + (box_height - lines.count * line_height) / 2)], each
    line at [max(x1, x1 + (box_width - measure(line)) / 2)], [current_y]
    advances by [line_height] after each line, and a line's call is left
    out exactly when [current_y + line_height > y2 + 5]. The [break] of
    line 320 never changes this: it fires only where every later line
    fails the tolerance test too. Coordinates are those of an image
    (0 <= y1 < y2 < 2^51) and a font size, where the font has one, is
    positive. *)
Theorem layout_as_specified (text : string) (x1 y1 x2 y2 : Z)
    (final_font : font) (lines : list string) (line_height : float) :
  0 <= y1 -> y1 < y2 -> y2 < 2 ^ 51 ->
  (forall s, default_font_size = Some s -> 0 < s) ->
  fst (wrap_text_and_find_font text (x2 - x1) (y2 - y1)) = (final_font, lines) ->
  line_height_of final_font = Some line_height ->
  start_y_of y1 y2 line_height lines
  = pymax (of_int y1)
      (fadd (of_int y1)
         (fdiv (fsub (of_int (y2 - y1))
                  (fmul (of_int (Z.of_nat (List.length lines))) line_height))
            (of_int 2)))
  /\ (forall line,
        draw_x_of final_font x1 x2 line
        = pymax (of_int x1)
            (fadd (of_int x1)
               (fdiv (fsub (of_int (x2 - x1)) (textlength line final_font))
                  (of_int 2))))
  /\ snd (layout final_font x1 y1 x2 y2 line_height lines)
     = spec_instructions final_font x1 x2 y2 line_height lines
         (start_y_of y1 y2 line_height lines).
Proof.
  intros Hy1 Hy Hy2 Hdefault Hwrap Hlh.
  split; [reflexivity | split; [reflexivity | ]].
  destruct lines as [ | line0 rest] eqn:El; [reflexivity | ]. rewrite <- El in *.
  assert (Hne : lines <> []) by (rewrite El; discriminate).
  clear El line0 rest.
  destruct (wrap_result_count text (x2 - x1) (y2 - y1) final_font lines ltac:(lia) Hwrap)
    as (size & Hin & Hfont & Hcount).
  pose proof (candidate_sizes_range size Hin) as Hsize.
  destruct (line_height_form final_font line_height) as (k & Hk & ->).
  { intros s. rewrite Hfont. unfold font_for, load_font.
    destruct font_file; cbn [fst bind emit ret font_size]; intros H;
      try (apply Hdefault in H; lia). injection H as <-. lia. }
  { exact Hlh. }
  destruct (scaled_line_height k Hk) as (Vl & Nl & L1 & Hcases). cbv zeta in *.
  set (lh := fmul (of_int k) f1_2) in *.
  destruct (start_y_facts y1 y2 lh Hy1 lines) as [Vs Ns].
  unfold layout. apply layout_agrees.
  - intros i _. apply tolerance_decided.
    now apply (y_at_facts lh Vl Nl).
  - intros j i Hji Hi Hgt. destruct Hcases as [[_ U5] | [_ L5]].
    + exfalso.
      assert (Hn : 1 <= Z.of_nat (List.length lines)) by (destruct lines; [congruence | simpl; lia]).
      pose proof (max_lines_room size (y2 - y1) Hin ltac:(lia) ltac:(lia)) as Hroom.
      rewrite (short_lines_no_break y1 y2 lh Hy1 Hy Hy2 Vl Nl lines j L1 U5 Hne) in Hgt;
        [discriminate | | lia].
      lia.
    + apply (tall_lines_after_break y1 y2 lh Hy1 Hy Hy2 Vl Nl _ j i Vs Ns L5 Hji Hgt).
Qed.

End LayoutEndToEnd.

(** ** Comparisons and [max] *)

Lemma SFcompare_refl (a : float) : a <> S754_nan -> SFcompare a a = Some Eq.
Proof.
  destruct a as [s | s | | s m e]; intros H; simpl; try congruence.
  - now destruct s.
  - rewrite Z.compare_refl, Pos.compare_cont_refl. now destruct s.
Qed.

Lemma SFcompare_gt_lt (a b : float) :
  SFcompare b a = Some Gt -> SFcompare a b = Some Lt.
Proof.
  destruct a as [sa | sa | | sa ma ea], b as [sb | sb | | sb mb eb]; simpl;
    try discriminate;
    try (destruct sa; try destruct sb; simpl; congruence);
    try (destruct sb; simpl; congruence).
  rewrite (Z.compare_antisym eb ea).
  pose proof (Pos.compare_cont_antisym mb ma Eq) as Hm. simpl in Hm.
  destruct sa, sb; simpl; try congruence;
    destruct (eb ?= ea); simpl; try congruence; rewrite <- Hm;
    destruct (Pos.compare_cont Eq mb ma); simpl; congruence.
Qed.

(** [max(a, b)] is at least [a]. *)
Lemma pymax_ge (a b : float) : a <> S754_nan -> fle a (pymax a b) = true.
Proof.
  intros Ha. unfold pymax, fgt, fle.
  destruct (SFcompare b a) as [[ | | ] | ] eqn:E;
    try (now rewrite SFcompare_refl).
  now rewrite (SFcompare_gt_lt a b E).
Qed.

(** ** Boxes and canvas calls *)

Section Boxes.

Lemma fold_min_le (l : list Z) (a : Z) :
  fold_left Z.min l a <= a /\ forall x, In x l -> fold_left Z.min l a <= x.
Proof.
  revert a. induction l as [ | b l IH]; intros a; simpl; [split; [lia | tauto] | ].
  destruct (IH (Z.min a b)) as [H1 H2]. split; [lia | ].
  intros x [<- | Hx]; [lia | now apply H2].
Qed.

Lemma fold_max_ge (l : list Z) (a : Z) :
  a <= fold_left Z.max l a /\ forall x, In x l -> x <= fold_left Z.max l a.
Proof.
  revert a. induction l as [ | b l IH]; intros a; simpl; [split; [lia | tauto] | ].
  destruct (IH (Z.max a b)) as [H1 H2]. split; [lia | ].
  intros x [<- | Hx]; [lia | now apply H2].
Qed.

Lemma list_min_le (xs : list Z) (m x : Z) :
  list_min xs = Some m -> In x xs -> m <= x.
Proof.
  destruct xs as [ | a l]; [discriminate | ]. intros [= <-] [<- | Hx];
    destruct (fold_min_le l a) as [H1 H2]; [exact H1 | now apply H2].
Qed.

Lemma list_max_ge (xs : list Z) (m x : Z) :
  list_max xs = Some m -> In x xs -> x <= m.
Proof.
  destruct xs as [ | a l]; [discriminate | ]. intros [= <-] [<- | Hx];
    destruct (fold_max_ge l a) as [H1 H2]; [exact H1 | now apply H2].
Qed.

Lemma clamped_box_within (img_width img_height : Z) (bbox : list (Z * Z))
    (x1 y1 x2 y2 : Z) :
  clamped_box img_width img_height bbox = Some (x1, y1, x2, y2) ->
  0 <= x1 /\ 0 <= y1 /\ x2 <= img_width /\ y2 <= img_height
  /\ forall x y, In (x, y) bbox ->
       (0 <= x <= img_width -> x1 <= x <= x2)
       /\ (0 <= y <= img_height -> y1 <= y <= y2).
Proof.
  unfold clamped_box. cbv zeta.
  destruct (list_min (map fst bbox)) as [a | ] eqn:E1; [ | discriminate].
  destruct (list_min (map snd bbox)) as [b | ] eqn:E2; [ | discriminate].
  destruct (list_max (map fst bbox)) as [c | ] eqn:E3; [ | discriminate].
  destruct (list_max (map snd bbox)) as [d | ] eqn:E4; [ | discriminate].
  intros [= <- <- <- <-]. repeat split; try lia;
    match goal with H : In (?x, ?y) bbox |- _ =>
      pose proof (list_min_le _ _ x E1 (in_map fst _ _ H));
      pose proof (list_min_le _ _ y E2 (in_map snd _ _ H));
      pose proof (list_max_ge _ _ x E3 (in_map fst _ _ H));
      pose proof (list_max_ge _ _ y E4 (in_map snd _ _ H))
    end; simpl in *; lia.
Qed.

(** The clamped box lies within the image and holds every detected point
    that lies within the image. *)
Theorem clamped_box_bounds (img_width img_height : Z) (bbox : list (Z * Z))
    (x1 y1 x2 y2 : Z) :
  clamped_box img_width img_height bbox = Some (x1, y1, x2, y2) ->
  0 <= x1 /\ 0 <= y1 /\ x2 <= img_width /\ y2 <= img_height
  /\ forall x y, In (x, y) bbox ->
       (0 <= x <= img_width -> x1 <= x <= x2)
       /\ (0 <= y <= img_height -> y1 <= y <= y2).
Proof. apply clamped_box_within. Qed.

Lemma int_points_length (bbox : list (coord * coord)) (pts : list (Z * Z)) :
  int_points bbox = Some pts -> List.length pts = List.length bbox.
Proof.
  revert pts. induction bbox as [ | [[x | ] [y | ]] rest IH]; intros pts; simpl;
    try discriminate.
  - now intros [= <-].
  - destruct (int_points rest) as [q | ]; [ | discriminate].
    intros [= <-]. simpl. now rewrite (IH q).
Qed.

Lemma clamped_box_some (img_width img_height : Z) (bbox : list (Z * Z)) :
  bbox <> [] -> clamped_box img_width img_height bbox <> None.
Proof. destruct bbox as [ | [x y] rest]; [congruence | discriminate]. Qed.

End Boxes.

(** ** The calls of a block *)

Section BlockCalls.

Lemma draw_lines_texts (f : font) (x1 x2 y2 : Z) (line_height : float)
    (lines : list string) (current_y : float) :
  (List.length (snd (draw_lines f x1 x2 y2 line_height lines current_y))
   <= List.length lines)%nat
  /\ Forall (fun e => exists x y line,
                e = Draw (Text x y line f) /\ In line lines
                /\ fle (of_int x1) x = true
                /\ fle (fadd y line_height) (of_int (y2 + 5)) = true)
            (snd (draw_lines f x1 x2 y2 line_height lines current_y)).
Proof.
  revert current_y. induction lines as [ | line rest IH]; intros current_y.
  - simpl. split; [lia | constructor].
  - cbn [draw_lines]. rewrite snd_bind.
    assert (Hrest : (List.length (snd (if fgt (fadd current_y line_height) (of_int y2)
                                       then ret tt
                                       else draw_lines f x1 x2 y2 line_height rest
                                              (fadd current_y line_height)))
                     <= List.length rest)%nat
                    /\ Forall (fun e => exists x y l,
                                  e = Draw (Text x y l f) /\ In l (line :: rest)
                                  /\ fle (of_int x1) x = true
                                  /\ fle (fadd y line_height) (of_int (y2 + 5)) = true)
                              (snd (if fgt (fadd current_y line_height) (of_int y2)
                                    then ret tt
                                    else draw_lines f x1 x2 y2 line_height rest
                                           (fadd current_y line_height)))).
    { destruct (fgt _ _); [simpl; split; [lia | constructor] | ].
      destruct (IH (fadd current_y line_height)) as [H1 H2]. split; [exact H1 | ].
      eapply Forall_impl; [ | exact H2].
      intros e (x & y & l & -> & Hin & Hx & Hy). exists x, y, l. repeat split; auto.
      now right. }
    destruct Hrest as [H1 H2].
    destruct (fle (fadd current_y line_height) (of_int (y2 + 5))) eqn:E; cbn [snd emit ret app].
    + split; [cbn [List.length]; apply le_n_S, H1 | ]. constructor; [ | exact H2].
      exists (draw_x_of f x1 x2 line), current_y, line. repeat split; auto.
      * now left.
      * apply pymax_ge, of_int_not_nan.
    + split; [cbn [List.length]; apply Nat.le_le_succ_r, H1 | exact H2].
Qed.

(** The layout issues at most one [Text] call per line, each for a line of
    the block, starting at or right of the left edge [x1] and ending at most
    five pixels below the bottom edge [y2]; the block starts at or below
    the top edge [y1]. *)
Theorem text_calls_in_bounds (f : font) (x1 y1 x2 y2 : Z) (line_height : float)
    (lines : list string) :
  (List.length (snd (layout f x1 y1 x2 y2 line_height lines)) <= List.length lines)%nat
  /\ Forall (fun e => exists x y line,
                e = Draw (Text x y line f) /\ In line lines
                /\ fle (of_int x1) x = true
                /\ fle (fadd y line_height) (of_int (y2 + 5)) = true)
            (snd (layout f x1 y1 x2 y2 line_height lines))
  /\ fle (of_int y1) (start_y_of y1 y2 line_height lines) = true.
Proof.
  unfold layout.
  destruct (draw_lines_texts f x1 x2 y2 line_height lines
              (start_y_of y1 y2 line_height lines)) as [H1 H2].
  repeat split; auto. apply pymax_ge, of_int_not_nan.
Qed.

Lemma process_block_rectangles (img_width img_height : Z) (b : block) :
  Forall (rectangle_ok img_width img_height)
         (snd (process_block img_width img_height b)).
Proof.
  unfold process_block.
  destruct (int_points (blk_bbox b)) as [pts | ]; [ | repeat constructor].
  destruct (clamped_box img_width img_height pts) as [[[[x1 y1] x2] y2] | ] eqn:Ec;
    [ | constructor].
  destruct (clamped_box_within _ _ _ _ _ _ _ Ec) as (Hx1 & Hy1 & Hx2 & Hy2 & _).
  destruct (Z.leb_spec (x2 - x1) 0) as [Hw | Hw]; cbn [orb]; [repeat constructor | ].
  destruct (Z.leb_spec (y2 - y1) 0) as [Hh | Hh]; [repeat constructor | ].
  rewrite !snd_bind. cbn [snd emit app]. constructor; [simpl; lia | ].
  apply Forall_app. split.
  - eapply Forall_impl; [ | apply (wrap_log_facts (blk_text b) (x2 - x1) (y2 - y1))].
    intros [m | c] H; [exact I | discriminate].
  - destruct (fst (wrap_text_and_find_font _ _ _)) as [final_font lines].
    destruct lines as [ | l0 ls]; [repeat constructor | ].
    destruct (line_height_of final_font) as [lh | ]; [ | constructor].
    rewrite snd_bind. cbn [snd ret]. rewrite app_nil_r.
    eapply Forall_impl;
      [ | apply (draw_lines_texts final_font x1 x2 y2 lh (l0 :: ls)
                   (start_y_of y1 y2 lh (l0 :: ls)))].
    intros e (x & y & l & -> & _). exact I.
Qed.

(** Whatever the detected points, every rectangle the rendering loop erases
    has positive area and lies within the image. *)
Theorem rectangles_within_image (img_width img_height : Z) (blocks : list block) :
  Forall (fun e => match e with
                   | Draw (Rectangle x1 y1 x2 y2) =>
                       0 <= x1 < x2 /\ x2 <= img_width
                       /\ 0 <= y1 < y2 /\ y2 <= img_height
                   | _ => True
                   end)
         (snd (render_blocks img_width img_height blocks)).
Proof.
  induction blocks as [ | b rest IH]; [constructor | ].
  cbn [render_blocks]. rewrite snd_bind. apply Forall_app. split.
  - apply process_block_rectangles.
  - destruct (fst (process_block img_width img_height b)); [exact IH | constructor].
Qed.

(** Once line 258 has turned the points of a block into the integer pairs
    [pts], and there is at least one, the rest of the loop body (lines
    267-322) runs to its end when the font has a size: the TrueType font,
    or a default font with a [.size]. *)
Theorem process_block_completes (img_width img_height : Z) (b : block)
    (pts : list (Z * Z)) :
  int_points (blk_bbox b) = Some pts ->
  pts <> [] ->
  font_file = FontPresent \/ default_font_size <> None ->
  fst (process_block img_width img_height b) = Completed.
Proof.
  intros Ep Hpts Hfont. unfold process_block. rewrite Ep.
  pose proof (clamped_box_some img_width img_height pts Hpts) as Hc.
  destruct (clamped_box img_width img_height pts) as [[[[x1 y1] x2] y2] | ]; [ | congruence].
  destruct ((x2 - x1 <=? 0) || (y2 - y1 <=? 0)); [reflexivity | ].
  rewrite !fst_bind. cbn [fst emit].
  destruct (wrap_log_facts (blk_text b) (x2 - x1) (y2 - y1)) as (_ & _ & Hpresent).
  destruct (fst (wrap_text_and_find_font _ _ _)) as [final_font lines] eqn:Ew.
  destruct lines; [reflexivity | ].
  assert (Hlh : line_height_of final_font <> None).
  { assert (Hsize : font_size final_font <> None).
    { destruct final_font as [size | ]; [discriminate | ].
      destruct Hfont as [Hp | Hd]; [ | exact Hd].
      destruct (Hpresent Hp) as (_ & size & _ & Hf). simpl in Hf. discriminate. }
    unfold line_height_of. cbv zeta.
    destruct (font_size final_font); [ | congruence].
    destruct (getbbox_A final_font) as [[top bottom] | ]; [ | discriminate].
    destruct (fle _ _); discriminate. }
  destruct (line_height_of final_font); [ | congruence].
  rewrite fst_bind. reflexivity.
Qed.

End BlockCalls.

(** ** Words, once more *)

Lemma split_fold_join (words : list string) (line : string) :
  Forall (fun w => truthy w = true) words ->
  Forall (fun w => no_space w = true) words ->
  split (fold_left join_word words line) = split line ++ words.
Proof.
  revert line. induction words as [ | w rest IH]; intros line Ht Hn; simpl.
  - now rewrite app_nil_r.
  - inversion Ht; inversion Hn; subst.
    rewrite IH, split_join_word by assumption. now rewrite <- app_assoc.
Qed.

(** Round trip: words joined into a line one after the other, as the word
    loop joins them, split back into the same words. *)
Theorem split_joined_words (words : list string) :
  Forall (fun w => truthy w = true) words ->
  Forall (fun w => no_space w = true) words ->
  split (fold_left join_word words "") = words.
Proof. intros Ht Hn. now rewrite split_fold_join. Qed.

(** The words [text.split()] yields are non-empty and free of whitespace. *)
Theorem split_words (text : string) :
  Forall (fun w => w <> "" /\ no_space w = true) (split text).
Proof.
  pose proof (split_truthy text) as Ht.
  pose proof (split_from_no_space text "" eq_refl) as Hn. fold (split text) in Hn.
  induction (split text) as [ | w ws IH]; [constructor | ].
  inversion Ht; inversion Hn; subst. constructor; [ | now apply IH].
  split; [now apply truthy_nonempty | assumption].
Qed.

(** [strip] keeps every word, and leaves the empty string exactly when the
    text has no word. *)
Theorem strip_keeps_words (s : string) :
  split (strip s) = split s /\ (strip s = "" <-> split s = []).
Proof.
  split; [apply split_strip | ]. rewrite <- strip_empty_iff.
  destruct (strip s); simpl; split; congruence.
Qed.

(** ** The translation loop *)

Section Translation.

Variable translate : string -> translation.

Lemma block_text_truthy (t : string) : truthy (block_text t) = true.
Proof. unfold block_text. destruct (truthy t) eqn:E; [exact E | reflexivity]. Qed.

Lemma strip_truthy (t : string) : truthy (strip t) = true -> truthy t = true.
Proof. destruct t; [discriminate | reflexivity]. Qed.

Lemma translate_block_facts (i : nat) (bbox : list (coord * coord)) (text : string) :
  blk_bbox (fst (fst (translate_block translate i (bbox, text)))) = bbox
  /\ truthy (blk_text (fst (fst (translate_block translate i (bbox, text))))) = true.
Proof.
  unfold translate_block. cbv zeta. destruct (truthy (strip text)) eqn:E.
  - destruct (translate (strip text)); simpl; split; auto using block_text_truthy.
    now apply strip_truthy.
  - simpl. now split.
Qed.

Lemma translate_loop_blocks (i : nat) (ocr_results : list (list (coord * coord) * string)) :
  map blk_bbox (fst (fst (translate_loop translate i ocr_results))) = map fst ocr_results
  /\ Forall (fun b => truthy (blk_text b) = true) (fst (fst (translate_loop translate i ocr_results))).
Proof.
  revert i. induction ocr_results as [ | [bbox text] rest IH]; intros i; [now split | ].
  cbn [translate_loop]. destruct (translate_block_facts i bbox text) as [Hb Ht].
  destruct (translate_block translate i (bbox, text)) as [[b warnings] raised].
  destruct (IH (S i)) as [IH1 IH2].
  destruct (translate_loop translate (S i) rest) as [[blocks log] n]. cbn [fst snd] in *.
  split; [simpl; now rewrite Hb, IH1 | now constructor].
Qed.

(** The translation loop hands on one block per OCR result, with the same
    box and in the same order, and never a block with an empty text. *)
Theorem translated_blocks_shape (ocr_results : list (list (coord * coord) * string)) :
  map blk_bbox (fst (translate_blocks translate ocr_results)) = map fst ocr_results
  /\ Forall (fun b => blk_text b <> "") (fst (translate_blocks translate ocr_results)).
Proof.
  unfold translate_blocks. destruct (translate_loop_blocks O ocr_results) as [H1 H2].
  destruct (translate_loop translate O ocr_results) as [[blocks log] n]. cbn [fst] in *.
  split; [exact H1 | ]. eapply Forall_impl; [ | exact H2].
  intros b. apply truthy_nonempty.
Qed.

Lemma translate_loop_count (i : nat) (ocr_results : list (list (coord * coord) * string)) :
  snd (translate_loop translate i ocr_results) = List.length (filter (raises translate) ocr_results)
  /\ Forall (fun m => match m with NoTranslation _ _ => True | _ => False end)
            (snd (fst (translate_loop translate i ocr_results))).
Proof.
  revert i. induction ocr_results as [ | [bbox text] rest IH]; intros i; [now split | ].
  cbn [translate_loop filter]. unfold translate_block, raises. cbv zeta. cbn [snd].
  destruct (IH (S i)) as [IH1 IH2].
  destruct (translate_loop translate (S i) rest) as [[blocks log] n]. cbn [fst snd] in *.
  destruct (truthy (strip text)); [destruct (translate (strip text)) | ];
    cbn [fst snd andb app List.length]; split; auto; try congruence.
Qed.

(** The translation loop shows its errors warning exactly when some
    translation raised, and the warning gives the number of those. *)
Theorem translation_errors_counted
    (ocr_results : list (list (coord * coord) * string)) (n : nat) :
  In (TranslationErrors n) (snd (translate_blocks translate ocr_results))
  <-> (n = List.length (filter (raises translate) ocr_results) /\ (0 < n)%nat).
Proof.
  unfold translate_blocks. destruct (translate_loop_count O ocr_results) as [Hc Hl].
  destruct (translate_loop translate O ocr_results) as [[blocks log] k]. cbn [fst snd] in *.
  subst k. split.
  - intros H. apply in_app_or in H. destruct H as [H | H].
    + rewrite Forall_forall in Hl. now apply Hl in H.
    + destruct (Nat.ltb_spec 0 (List.length (filter (raises translate) ocr_results))) as [Hlt | Hge];
        [ | contradiction].
      destruct H as [[= <-] | []]. now split.
  - intros [-> Hpos]. apply in_or_app. right.
    apply Nat.ltb_lt in Hpos. rewrite Hpos. now left.
Qed.


End Translation.

(** ** The download name and the default target language *)

Lemma before_dot_prefix (name : string) :
  exists rest,
    name = (before_dot name ++ rest)%string
    /\ (rest = "" \/ exists tail, rest = String "." tail).
Proof.
  induction name as [ | c name (rest & Hr & Hd)]; [exists ""; now split; [ | left] | ].
  cbn [before_dot]. destruct (Ascii.eqb_spec c ".") as [-> | Hne].
  - exists (String "." name). split; [reflexivity | right; eauto].
  - exists rest. split; [simpl; now rewrite <- Hr | exact Hd].
Qed.

Lemma before_dot_no_dot (name : string) :
  ~ In "."%char (list_ascii_of_string (before_dot name)).
Proof.
  induction name as [ | c name IH]; [intros [] | ].
  cbn [before_dot]. destruct (Ascii.eqb_spec c ".") as [-> | Hne]; [intros [] | ].
  intros [H | H]; [congruence | now apply IH].
Qed.

(** The download is named after the part of the uploaded name before its
    first full stop, whatever follows it: [stem] has no full stop, the
    uploaded name is [stem] alone or [stem] followed by a full stop and the
    rest, and the download name is [translated_<stem>.jpg]. *)
Theorem download_name_stem (name : string) :
  exists stem rest,
    download_name name = ("translated_" ++ stem ++ ".jpg")%string
    /\ name = (stem ++ rest)%string
    /\ (rest = "" \/ exists tail, rest = String "." tail)
    /\ ~ In "."%char (list_ascii_of_string stem).
Proof.
  destruct (before_dot_prefix name) as (rest & Hr & Hd).
  exists (before_dot name), rest. repeat split; auto. apply before_dot_no_dot.
Qed.

Lemma index_of_nth (x : string) (names : list string) (i : nat) :
  index_of x names = Some i -> nth_error names i = Some x.
Proof.
  revert i. induction names as [ | n rest IH]; intros i; simpl; [discriminate | ].
  destruct (String.eqb_spec n x) as [-> | Hne]; [now intros [= <-] | ].
  destruct (index_of x rest) as [j | ]; [ | discriminate].
  intros [= <-]. now apply IH.
Qed.

Lemma member_index_of (x : string) (names : list string) :
  member x names = true -> index_of x names <> None.
Proof.
  unfold member. induction names as [ | n rest IH]; simpl; [discriminate | ].
  destruct (String.eqb_spec n x) as [-> | Hne]; [discriminate | ].
  destruct (String.eqb_spec x n) as [-> | _]; [congruence | ]. simpl.
  intros H. apply IH in H. now destruct (index_of x rest).
Qed.

Lemma member_In (x : string) (names : list string) :
  member x names = true <-> In x names.
Proof.
  unfold member. rewrite existsb_exists. split.
  - intros (n & Hin & Heq). apply String.eqb_eq in Heq. now subst.
  - intros Hin. exists x. split; [exact Hin | apply String.eqb_refl].
Qed.

(** The select box always gets a valid default: for a non-empty list of
    names, the index computed points at the default language; the default
    is Spanish whenever Spanish is offered, and the first name of the list
    whenever it is not. *)
Theorem default_target_valid (names : list string) :
  names <> [] ->
  nth_error names (default_target_index names) = Some (default_target_lang names)
  /\ (In "Spanish" names -> default_target_lang names = "Spanish")
  /\ (~ In "Spanish" names -> hd_error names = Some (default_target_lang names)).
Proof.
  intros Hne.
  assert (Hin : member (default_target_lang names) names = true
                /\ (In "Spanish" names -> default_target_lang names = "Spanish")
                /\ (~ In "Spanish" names
                    -> hd_error names = Some (default_target_lang names))).
  { unfold default_target_lang. destruct (member "Spanish" names) eqn:E.
    - split; [exact E | split; [reflexivity | ]].
      intros Hnot. apply member_In in E. contradiction.
    - destruct names as [ | n rest]; [congruence | ]. split; [ | split].
      + unfold member. simpl. now rewrite String.eqb_refl.
      + intros Hs. apply member_In in Hs. congruence.
      + reflexivity. }
  destruct Hin as (Hm & Hs & Hf). split; [ | split; [exact Hs | exact Hf]].
  unfold default_target_index. cbv zeta. rewrite Hm.
  pose proof (member_index_of _ _ Hm) as Hi.
  destruct (index_of (default_target_lang names) names) as [i | ] eqn:E; [ | congruence].
  now apply index_of_nth.
Qed.

End Model.

(** ** The claims on concrete inputs *)

Lemma mono_textlength_number (s : string) (g : font) : mono_textlength s g <> S754_nan.
Proof. apply of_int_not_nan. Qed.

(** C2 at "Hello world" in a 200 x 50 box: one line at size 36, where one
    line fits the height. *)
Lemma line_count_within_height_witness :
  0 <= 50
  /\ wrap_at_size mono_textlength "Hello world" 200 50 (TrueType 36) 36
     = Some ["Hello world"]
  /\ Z.of_nat (List.length ["Hello world"]) <= max_lines_at 36 50.
Proof.
  split; [lia | ]. split; [vm_compute; reflexivity | ].
  apply (proj1 (line_count_within_height mono_textlength "Hello world" 200 50 ltac:(lia))
           (TrueType 36) 36 ["Hello world"]); [lia | vm_compute; reflexivity].
Defined.

(** C3 at the same input. *)
Lemma lines_within_width_witness :
  wrap_at_size mono_textlength "Hello world" 200 50 (font_for FontPresent 36) 36
  = Some ["Hello world"]
  /\ Forall (fun line => fle (mono_textlength line (font_for FontPresent 36)) (of_int 200)
                         = true)
            ["Hello world"].
Proof.
  split; [vm_compute; reflexivity | ].
  apply (lines_within_width FontPresent mono_textlength "Hello world" 200 50
           mono_textlength_number 36 ["Hello world"]).
  vm_compute. reflexivity.
Defined.

(** C10 at a text that wraps into two lines at size 12. *)
Lemma lines_nonempty_witness :
  wrap_at_size mono_textlength "aaaa bbbb" 40 30
    (font_for FontPresent 12) 12
  = Some ["aaaa"; "bbbb"]
  /\ Forall (fun line => line <> "") ["aaaa"; "bbbb"].
Proof.
  split; [vm_compute; reflexivity | ].
  apply (lines_nonempty FontPresent mono_textlength "aaaa bbbb" 40 30
           mono_textlength_number 12 ["aaaa"; "bbbb"]).
  vm_compute. reflexivity.
Defined.

(** C4 as stated fails: in a 20 x 30 box at size 12, "aaaa" fails for width
    and "aaa bbb ccc" fails for height, and both passes end in the same
    loop variable [current_line = ""] and hand back the same result. *)
Lemma failure_kinds_same_result :
  failure_at mono_textlength "aaaa" 20 30 (TrueType 12) 12 = Some WidthFailure
  /\ failure_at mono_textlength "aaa bbb ccc" 20 30 (TrueType 12) 12 = Some HeightFailure
  /\ snd (fst (word_loop mono_textlength 20 (TrueType 12) (max_lines_at 12 30)
                 (split "aaaa") [] ""))
     = snd (fst (word_loop mono_textlength 20 (TrueType 12) (max_lines_at 12 30)
                   (split "aaa bbb ccc") [] ""))
  /\ wrap_at_size mono_textlength "aaaa" 20 30 (TrueType 12) 12
     = wrap_at_size mono_textlength "aaa bbb ccc" 20 30 (TrueType 12) 12.
Proof. repeat split; vm_compute; reflexivity. Qed.

(** C5 as stated fails: for the empty text in [small_box] the renderer
    erases the box and warns; it issues no [Text] call, so no line, blank
    or not, is rendered. *)
Lemma empty_text_draws_no_line :
  block_text "" = " "
  /\ process_block FontPresent mono_textlength mono_getbbox_A None 100 100
       (mkBlock small_box (block_text ""))
     = (Completed,
        [Draw (Rectangle 10 10 60 40); Warn (CouldNotFit " " 10 10 60 40)])
  /\ ~ (exists x y line g,
          In (Draw (Text x y line g))
             (snd (process_block FontPresent mono_textlength mono_getbbox_A None 100 100
                     (mkBlock small_box (block_text ""))))).
Proof.
  split; [reflexivity | ]. split; [vm_compute; reflexivity | ].
  intros (x & y & line & g & Hin). vm_compute in Hin.
  destruct Hin as [H | [H | []]]; discriminate.
Qed.

(** C5, amended, at the same block. *)
Lemma empty_text_block_witness :
  block_text "" = " "
  /\ process_block FontPresent mono_textlength mono_getbbox_A None 100 100
    (mkBlock small_box (block_text ""))
  = (Completed,
     Draw (Rectangle 10 10 60 40) :: snd (load_font FontPresent 40)
     ++ [Warn (CouldNotFit " " 10 10 60 40)]).
Proof.
  apply (empty_text_block FontPresent mono_textlength mono_getbbox_A None 100 100
           (mkBlock small_box (block_text ""))
           [(10, 10); (60, 10); (60, 40); (10, 40)] 10 10 60 40);
    try reflexivity; lia.
Defined.

(** C6 at "Hi you" in the box (10, 10)-(60, 40): the search returns the
    one line at size 16, whose capital A is 12 pixels tall. *)
Lemma layout_as_specified_witness :
  fst (wrap_text_and_find_font FontPresent mono_textlength "Hi you" (60 - 10) (40 - 10))
  = (TrueType 16, ["Hi you"])
  /\ line_height_of mono_getbbox_A None (TrueType 16) = Some (fmul (of_int 12) f1_2)
  /\ snd (layout mono_textlength (TrueType 16) 10 10 60 40 (fmul (of_int 12) f1_2)
            ["Hi you"])
     = spec_instructions mono_textlength (TrueType 16) 10 60 40 (fmul (of_int 12) f1_2)
         ["Hi you"] (start_y_of 10 40 (fmul (of_int 12) f1_2) ["Hi you"]).
Proof.
  split; [vm_compute; reflexivity | split; [vm_compute; reflexivity | ]].
  apply (proj2 (proj2 (layout_as_specified FontPresent mono_textlength mono_getbbox_A
                         None "Hi you" 10 10 60 40 (TrueType 16) ["Hi you"]
                         (fmul (of_int 12) f1_2)
                         ltac:(lia) ltac:(lia) ltac:(reflexivity)
                         ltac:(discriminate)
                         ltac:(vm_compute; reflexivity)
                         ltac:(vm_compute; reflexivity)))).
Defined.

(** Why [layout_as_specified] is about the lines the search returns.  Six
    lines at a line height of 2.4 in a box from y = 0 to y = 10 are more
    than the search ever returns for that box (it returns none).  On them
    the [break] does show: the advance after the fifth line takes
    [current_y] to 12.0 > 10 and the loop stops, while the sixth line
    would sit at 12.0 with 12.0 + 2.4 <= 15 and pass the tolerance test. *)
Lemma layout_stops_early :
  snd (fst (wrap_text_and_find_font FontPresent mono_textlength "a b c d e f" 10 10)) = []
  /\ line_height_of tiny_getbbox_A None (TrueType 12) = Some tiny_line_height
  /\ snd (layout mono_textlength (TrueType 12) 0 0 10 10 tiny_line_height six_lines)
     = spec_instructions mono_textlength (TrueType 12) 0 10 10 tiny_line_height
         (firstn 5 six_lines) (start_y_of 0 10 tiny_line_height six_lines)
  /\ List.length (spec_instructions mono_textlength (TrueType 12) 0 10 10 tiny_line_height
                    six_lines (start_y_of 0 10 tiny_line_height six_lines))
     = 6%nat
  /\ snd (layout mono_textlength (TrueType 12) 0 0 10 10 tiny_line_height six_lines)
     <> spec_instructions mono_textlength (TrueType 12) 0 10 10 tiny_line_height
          six_lines (start_y_of 0 10 tiny_line_height six_lines).
Proof.
  repeat split; try (vm_compute; reflexivity).
  vm_compute. discriminate.
Qed.

(** C8 as stated fails: with the font file missing, one call that tries the
    sizes 40 down to 16 warns thirteen times, and a run over two blocks
    that fit at size 40 warns once for each. *)
Lemma font_warnings_repeat :
  font_warnings (snd (wrap_text_and_find_font FontMissing mono_textlength
                        "Hello world" 200 20))
  = 13%nat
  /\ font_warnings (snd (render_blocks FontMissing mono_textlength mono_getbbox_A None
                           1000 1000
                           [mkBlock [(Num 0, Num 0); (Num 500, Num 500)] "a";
                            mkBlock [(Num 0, Num 0); (Num 500, Num 500)] "a"]))
     = 2%nat.
Proof. split; vm_compute; reflexivity. Qed.

(** C8, amended, with the font file missing. *)
Lemma font_warning_per_load_witness :
  FontMissing <> FontPresent
  /\ fst (fst (wrap_text_and_find_font FontMissing mono_textlength "Hello world" 200 20))
     = DefaultFont.
Proof.
  split; [discriminate | ].
  apply (font_warning_per_load FontMissing mono_textlength ltac:(discriminate)
           "Hello world" 200 20).
Defined.

(** C9 as stated fails: in a 30 x 20 box one line fits the height; the
    over-wide word makes the loop close the empty line, which uses up that
    one line, and the word itself is dropped. *)
Lemma fallback_drops_overwide_word :
  split long_word = [long_word]
  /\ fgt (mono_textlength long_word (TrueType 12)) (of_int 30) = true
  /\ 1 <= fallback_max_lines 20
  /\ fallback_lines mono_textlength long_word 30 20 (TrueType 12) = [""]
  /\ ~ In long_word (fallback_lines mono_textlength long_word 30 20 (TrueType 12)).
Proof.
  repeat split; try (vm_compute; reflexivity); try (vm_compute; discriminate).
  vm_compute. intros [H | []]. discriminate.
Qed.

(** C9, amended, in a 30 x 50 box, where three lines fit the height. *)
Lemma fallback_overwide_first_word_witness :
  split "supercalifragilisticexpialidocious tiny" = [long_word; "tiny"]
  /\ 2 <= fallback_max_lines 50
  /\ exists more,
       fallback_lines mono_textlength "supercalifragilisticexpialidocious tiny" 30 50
         (TrueType 12)
       = "" :: long_word :: more
       /\ fgt (mono_textlength long_word (TrueType 12)) (of_int 30) = true.
Proof.
  split; [reflexivity | ]. split; [vm_compute; discriminate | ].
  apply (fallback_overwide_first_word mono_textlength
           "supercalifragilisticexpialidocious tiny" 30 50 (TrueType 12)
           long_word ["tiny"]).
  - reflexivity.
  - vm_compute. reflexivity.
  - vm_compute. discriminate.
  - vm_compute. reflexivity.
Defined.

Lemma solid_text_opaque :
  text_opaque solid_text_pixel.
Proof.
  intros f line tx ty x y. unfold overwrites, solid_text_pixel. cbv zeta.
  destruct (_ && _); [right; exists Black | left]; intros c; reflexivity.
Qed.

(** "Hi you" in [small_box] is drawn at size 16 from (11, 17.8): 48 pixels
    wide and 8 tall, within the box. *)
Lemma hi_you_log :
  snd (process_block FontPresent mono_textlength mono_getbbox_A None 100 100
         (mkBlock small_box "Hi you"))
  = [Draw (Rectangle 10 10 60 40);
     Draw (Text (of_int 11) (S754_finite false 5010254585449677 (-48)) "Hi you"
             (TrueType 16))].
Proof. vm_compute. reflexivity. Qed.

Lemma hi_you_in_box (b : block) :
  In b [mkBlock small_box "Hi you"] ->
  text_in_box FontPresent mono_textlength mono_getbbox_A None blend_text_pixel
    100 100 b.
Proof.
  intros [<- | []] x1 y1 x2 y2 tx ty line f x y c. rewrite hi_you_log.
  intros [Hr | [Hr | []]]; [ | discriminate].
  intros [Ht | [Ht | []]]; [discriminate | ].
  injection Hr as <- <- <- <-. injection Ht as <- <- <- <-.
  unfold covers, blend_text_pixel. intros Hout.
  repeat match goal with
         | |- context [int_of_float ?t] =>
             let v := eval vm_compute in (int_of_float t) in
             change (int_of_float t) with v
         end.
  change (Z.of_nat (String.length "Hi you") * mono_advance (TrueType 16)) with 48.
  cbv zeta.
  destruct (Z.leb_spec 11 x), (Z.ltb_spec x (11 + 48)), (Z.leb_spec 17 y),
    (Z.ltb_spec y (17 + 8)); try reflexivity.
  destruct (Z.leb_spec 10 x), (Z.leb_spec x 60), (Z.leb_spec 10 y),
    (Z.leb_spec y 40); try discriminate; lia.
Qed.

(** C7 as amended, at "Hi you" in [small_box] on a white image, with the
    blending rasteriser: the text stays in its box, pixel (15, 20) is inked
    at half coverage by the first rendering and is the same after the
    second. *)
Lemma overlay_idempotent_witness :
  pixel (overlay FontPresent mono_textlength mono_getbbox_A None blend_text_pixel
           [mkBlock small_box "Hi you"] blank_canvas) 15 20
  = RGB 127 127 127
  /\ pixel (overlay FontPresent mono_textlength mono_getbbox_A None blend_text_pixel
              [mkBlock small_box "Hi you"]
              (overlay FontPresent mono_textlength mono_getbbox_A None blend_text_pixel
                 [mkBlock small_box "Hi you"] blank_canvas)) 15 20
     = pixel (overlay FontPresent mono_textlength mono_getbbox_A None blend_text_pixel
                [mkBlock small_box "Hi you"] blank_canvas) 15 20.
Proof.
  split; [vm_compute; reflexivity | ].
  apply (proj2 (proj2 (overlay_idempotent FontPresent mono_textlength mono_getbbox_A None
                         blend_text_pixel [mkBlock small_box "Hi you"] blank_canvas
                         (or_intror hi_you_in_box)))).
Defined.

(** C7 as stated fails. [long_word] does not fit [small_box]: the fallback
    draws it from x = 10 on, 204 pixels wide, across the right edge of the
    box at x = 60. With the blending rasteriser, pixel (70, 28), outside
    the box and under the word, is white at the start, half inked after
    one rendering and inked again by the second. *)
Lemma overlay_blending_darkens :
  pixel (overlay FontPresent mono_textlength mono_getbbox_A None blend_text_pixel
           [mkBlock small_box long_word] blank_canvas) 70 28
  = RGB 127 127 127
  /\ pixel (overlay FontPresent mono_textlength mono_getbbox_A None blend_text_pixel
              [mkBlock small_box long_word]
              (overlay FontPresent mono_textlength mono_getbbox_A None blend_text_pixel
                 [mkBlock small_box long_word] blank_canvas)) 70 28
     = RGB 63 63 63
  /\ pixel (overlay FontPresent mono_textlength mono_getbbox_A None blend_text_pixel
              [mkBlock small_box long_word]
              (overlay FontPresent mono_textlength mono_getbbox_A None blend_text_pixel
                 [mkBlock small_box long_word] blank_canvas)) 70 28
     <> pixel (overlay FontPresent mono_textlength mono_getbbox_A None blend_text_pixel
                 [mkBlock small_box long_word] blank_canvas) 70 28.
Proof.
  split; [vm_compute; reflexivity | split; [vm_compute; reflexivity | ]].
  vm_compute. discriminate.
Qed.


(** ** Further properties of the program *)

(** On the candidate sizes and box heights up to 400 pixels, the binary64
    evaluation of [int(box_height / (size * 1.2))] is the exact
    [floor(box_height / (1.2 * size))]. *)
Lemma max_lines_exact_on_range (size box_height : Z) :
  In size candidate_sizes ->
  0 <= box_height <= 400 ->
  max_lines_at size box_height = (5 * box_height) / (6 * size).
Proof.
  intros Hs Hh.
  assert (Hall : forallb (fun s => forallb (fun h => max_lines_at s (Z.of_nat h)
                                                    =? (5 * Z.of_nat h) / (6 * s))
                                          (seq 0 401))
                         candidate_sizes = true)
    by (vm_compute; reflexivity).
  rewrite forallb_forall in Hall. specialize (Hall size Hs).
  rewrite forallb_forall in Hall. specialize (Hall (Z.to_nat box_height)).
  rewrite Z2Nat.id in Hall by lia. apply Z.eqb_eq, Hall, in_seq. lia.
Qed.

Lemma max_lines_exact_on_range_witness : max_lines_at 12 72 = (5 * 72) / (6 * 12).
Proof.
  apply (max_lines_exact_on_range 12 72); [vm_compute; tauto | lia].
Defined.

(** [text.split()] never yields an empty word. *)
Lemma split_words_nonempty (text : string) : Forall (fun w => w <> "") (split text).
Proof.
  eapply Forall_impl; [ | apply split_truthy]. intros w. apply truthy_nonempty.
Qed.

(** Scenario A: "Hello world" in a 200 x 50 box is one line, at size 36. *)
Example scenario_hello_world :
  fst (wrap_text_and_find_font FontPresent mono_textlength "Hello world" 200 50)
  = (TrueType 36, ["Hello world"]).
Proof. vm_compute. reflexivity. Qed.

(** Scenario B: a word too wide for a 30 x 50 box fails at every size; the
    fallback pass returns lines all the same. *)
Example scenario_long_word :
  forallb (fun s => match wrap_at_size mono_textlength long_word 30 50 (TrueType s) s with
                    | None => true
                    | Some _ => false
                    end) candidate_sizes
  = true
  /\ fst (wrap_text_and_find_font FontPresent mono_textlength long_word 30 50)
     = (TrueType 12, [""; long_word]).
Proof. split; vm_compute; reflexivity. Qed.

(** Scenario C: a box of zero width is skipped with a warning; no call
    reaches the canvas. *)
Example scenario_zero_width_box :
  process_block FontPresent mono_textlength mono_getbbox_A None 100 100
    (mkBlock [(Num 10, Num 10); (Num 10, Num 50)] "Hi")
  = (Completed, [Warn (ZeroArea 10 10 10 50)]).
Proof. vm_compute. reflexivity. Qed.

(** Scenario E: in a 40 x 72 box, where five lines fit at size 12, a text
    of two lines is set at size 20, the largest at which it fits. *)
Example scenario_largest_size_preferred :
  max_lines_at 12 72 = 5
  /\ wrap_at_size mono_textlength "aaaa bbbb" 40 72 (TrueType 12) 12
     = Some ["aaaa"; "bbbb"]
  /\ fst (wrap_text_and_find_font FontPresent mono_textlength "aaaa bbbb" 40 72)
     = (TrueType 20, ["aaaa"; "bbbb"]).
Proof. repeat split; vm_compute; reflexivity. Qed.

(** A block whose coordinates are not numbers is skipped with a warning. *)
Lemma invalid_bbox_skipped (font_file : font_resource)
    (textlength : string -> font -> float) (getbbox_A : font -> option (Z * Z))
    (default_font_size : option Z) (img_width img_height : Z) (b : block) :
  int_points (blk_bbox b) = None ->
  process_block font_file textlength getbbox_A default_font_size img_width img_height b
  = (Completed, [Warn InvalidBBox]).
Proof. intros H. unfold process_block. rewrite H. reflexivity. Qed.

Lemma invalid_bbox_skipped_witness :
  process_block FontPresent mono_textlength mono_getbbox_A None 100 100
    (mkBlock [(Num 10, NotNum)] "Hi")
  = (Completed, [Warn InvalidBBox]).
Proof.
  apply (invalid_bbox_skipped FontPresent mono_textlength mono_getbbox_A None 100 100
           (mkBlock [(Num 10, NotNum)] "Hi")).
  reflexivity.
Defined.

(** A block that is skipped or drawn does not stop the loop: the blocks
    after it are processed, and their events follow its own. *)
Lemma render_blocks_continues (font_file : font_resource)
    (textlength : string -> font -> float) (getbbox_A : font -> option (Z * Z))
    (default_font_size : option Z) (img_width img_height : Z)
    (b : block) (rest : list block) :
  fst (process_block font_file textlength getbbox_A default_font_size
         img_width img_height b) = Completed ->
  render_blocks font_file textlength getbbox_A default_font_size
    img_width img_height (b :: rest)
  = (fst (render_blocks font_file textlength getbbox_A default_font_size
            img_width img_height rest),
     snd (process_block font_file textlength getbbox_A default_font_size
            img_width img_height b)
     ++ snd (render_blocks font_file textlength getbbox_A default_font_size
               img_width img_height rest)).
Proof.
  intros H. cbn [render_blocks]. rewrite bind_pair, H. reflexivity.
Qed.

Lemma render_blocks_continues_witness :
  render_blocks FontPresent mono_textlength mono_getbbox_A None 100 100
    [mkBlock [(Num 10, NotNum)] "Hi"; mkBlock small_box (block_text "")]
  = (Completed,
     [Warn InvalidBBox; Draw (Rectangle 10 10 60 40); Warn (CouldNotFit " " 10 10 60 40)]).
Proof.
  rewrite (render_blocks_continues FontPresent mono_textlength mono_getbbox_A None 100 100
             (mkBlock [(Num 10, NotNum)] "Hi") [mkBlock small_box (block_text "")]);
    vm_compute; reflexivity.
Defined.

(** ** The further properties on concrete inputs *)

Lemma pass_keeps_words_witness :
  wrap_at_size mono_textlength "  aaaa   bbbb " 40 30 (TrueType 12) 12
  = Some ["aaaa"; "bbbb"]
  /\ List.concat (map split ["aaaa"; "bbbb"]) = split "  aaaa   bbbb ".
Proof.
  split; [vm_compute; reflexivity | ].
  apply (pass_keeps_words mono_textlength "  aaaa   bbbb " 40 30 (TrueType 12) 12).
  vm_compute. reflexivity.
Defined.

Lemma search_returns_lines_witness :
  split long_word <> []
  /\ 1 <= fallback_max_lines 50
  /\ snd (fst (wrap_text_and_find_font FontPresent mono_textlength long_word 30 50)) <> [].
Proof.
  split; [vm_compute; discriminate | ]. split; [vm_compute; discriminate | ].
  apply (search_returns_lines FontPresent mono_textlength long_word 30 50);
    vm_compute; discriminate.
Defined.

Lemma clamped_box_bounds_witness :
  clamped_box 50 100 [(10, 10); (60, 10); (60, 40); (10, 40)] = Some (10, 10, 50, 40)
  /\ forall x y, In (x, y) [(10, 10); (60, 10); (60, 40); (10, 40)] ->
       (0 <= x <= 50 -> 10 <= x <= 50) /\ (0 <= y <= 100 -> 10 <= y <= 40).
Proof.
  split; [reflexivity | ].
  apply (clamped_box_bounds 50 100 [(10, 10); (60, 10); (60, 40); (10, 40)] 10 10 50 40).
  reflexivity.
Defined.

Lemma process_block_completes_witness :
  fst (process_block FontPresent mono_textlength mono_getbbox_A None 100 100
         (mkBlock small_box "Hi you"))
  = Completed.
Proof.
  apply (process_block_completes FontPresent mono_textlength mono_getbbox_A None 100 100
           (mkBlock small_box "Hi you") [(10, 10); (60, 10); (60, 40); (10, 40)]).
  - reflexivity.
  - discriminate.
  - left. reflexivity.
Defined.

Lemma split_joined_words_witness :
  fold_left join_word ["Hello"; "big"; "world"] "" = "Hello big world"
  /\ split (fold_left join_word ["Hello"; "big"; "world"] "") = ["Hello"; "big"; "world"].
Proof.
  split; [reflexivity | ].
  apply (split_joined_words ["Hello"; "big"; "world"]); repeat constructor.
Defined.


Lemma default_target_valid_witness :
  default_target_index ["English"; "Hindi"; "Spanish"; "French"] = 2%nat
  /\ nth_error ["English"; "Hindi"; "Spanish"; "French"]
       (default_target_index ["English"; "Hindi"; "Spanish"; "French"])
     = Some (default_target_lang ["English"; "Hindi"; "Spanish"; "French"])
  /\ default_target_lang ["English"; "Hindi"; "Spanish"; "French"] = "Spanish"
  /\ hd_error ["English"; "Hindi"; "French"]
     = Some (default_target_lang ["English"; "Hindi"; "French"]).
Proof.
  split; [reflexivity | ].
  assert (H1 : ["English"; "Hindi"; "Spanish"; "French"] <> []) by discriminate.
  assert (H2 : ["English"; "Hindi"; "French"] <> []) by discriminate.
  destruct (default_target_valid ["English"; "Hindi"; "Spanish"; "French"] H1)
    as (Hn & Hs & _).
  destruct (default_target_valid ["English"; "Hindi"; "French"] H2) as (_ & _ & Hf).
  split; [exact Hn | split].
  - apply Hs. simpl. tauto.
  - apply Hf. simpl. intros [H | [H | [H | []]]]; discriminate.
Defined.
